(** * AutoCaption: audio extraction, WAV encoding, subtitle export

    A shallow embedding of the client-side pipeline of the captioning tool:
    - [encodeWAV] (services/geminiService.ts): nearest-neighbour resampling
      of channel 0 to 16 kHz, quantization to signed 16-bit samples and the
      44-byte RIFF/WAVE header;
    - [extractAudioFromVideo]: the loader / decoder / encoder pipeline and
      its error handling;
    - [handleExport] and [handleFileChange] (App.tsx): SubRip export and the
      file-size gate;
    - [generateCaptions] (services/geminiService.ts) and [handleGenerate]
      (App.tsx): the model call, the captions built from its response and
      what the page shows afterwards;
    - [handleTextChange] and [handleDelete] (components/CaptionEditor.tsx),
      [handleTimeUpdate] and [handleMouseMove] (components/VideoPlayer.tsx):
      the transcript edits, the caption on screen and its position.

    JavaScript Numbers are IEEE 754 binary64 values.  They are modelled by
    the executable specification of binary floating point of the standard
    library ([SpecFloat], precision 53, maximal exponent 1024), so that
    [/] and [*] below round exactly as the JavaScript operators do. *)

From Stdlib Require Import ZArith Lia List String Ascii Bool QArith Qround DecimalString.
From Stdlib Require Import SpecFloat.
From Stdlib Require Import DecimalNat DecimalFacts.
From stdpp Require Import base list gmap strings.

Local Open Scope Z_scope.

(* ================================================================== *)
(** * Part I: the embedding                                            *)
(* ================================================================== *)

(** ** JavaScript values used by the program *)

Module JS.

(** *** Numbers *)

Definition prec : Z := 53.
Definition emax : Z := 1024.

Definition number : Type := spec_float.

Definition NaN : number := S754_nan.

(** An integer literal, or an integer-valued quantity such as an array
    length or a loop counter, read as a Number (rounded to nearest even
    when it needs more than 53 bits). *)
Definition of_Z (z : Z) : number := binary_normalize prec emax z 0 false.

Definition mul : number -> number -> number := SFmul prec emax.
Definition div : number -> number -> number := SFdiv prec emax.
Definition ltb : number -> number -> bool := SFltb.

Definition is_neg_zero (x : number) : bool :=
  match x with S754_zero true => true | _ => false end.

(** [Math.min] and [Math.max] on two arguments: NaN is contagious and
    -0 is smaller than +0. *)
Definition Math_min (x y : number) : number :=
  match SFcompare x y with
  | None => NaN
  | Some Lt => x
  | Some Gt => y
  | Some Eq => if is_neg_zero x then x else y
  end.

Definition Math_max (x y : number) : number :=
  match SFcompare x y with
  | None => NaN
  | Some Gt => x
  | Some Lt => y
  | Some Eq => if is_neg_zero x then y else x
  end.

Definition pow2Q (e : Z) : Q :=
  if 0 <=? e then inject_Z (2 ^ e) else 1 # Z.to_pos (2 ^ (- e)).

(** The exact value of a finite Number [(-1)^s * m * 2^e], as a rational. *)
Definition value (x : number) : Q :=
  match x with
  | S754_finite s m e => (inject_Z (cond_Zopp s (Zpos m)) * pow2Q e)%Q
  | _ => 0%Q
  end.

(** *** Integral results

    [Math.round] returns NaN, an infinity, or an integral Number.  The
    integral Numbers are represented by their exact integer value (the
    sign of a zero result plays no role in array lengths and indices). *)
Inductive integral : Type :=
| INaN
| IInf (negative : bool)
| IInt (z : Z).

(** floor (q * 2^e + 1/2) for q * 2^e = (-1)^s * m * 2^e: the integer
    closest to the argument, ties going towards +Infinity. *)
Definition round_half_up (s : bool) (m : positive) (e : Z) : Z :=
  let q := cond_Zopp s (Zpos m) in
  if 0 <=? e then q * 2 ^ e
  else (2 * q + 2 ^ (- e)) / 2 ^ (1 - e).

Definition Math_round (x : number) : integral :=
  match x with
  | S754_nan => INaN
  | S754_infinity s => IInf s
  | S754_zero _ => IInt 0
  | S754_finite s m e => IInt (round_half_up s m e)
  end.

(** *** Conversion of a Number stored into an [Int16Array]

    [ToInt16]: NaN, zeros and infinities become 0; a finite Number is
    truncated towards zero and reduced modulo 2^16 into
    [-32768, 32767]. *)
Definition truncate (s : bool) (m : positive) (e : Z) : Z :=
  cond_Zopp s (if 0 <=? e then Zpos m * 2 ^ e else Zpos m / 2 ^ (- e)).

Definition ToInt16 (x : number) : Z :=
  match x with
  | S754_finite s m e =>
      let int16bit := truncate s m e mod 2 ^ 16 in
      if 2 ^ 15 <=? int16bit then int16bit - 2 ^ 16 else int16bit
  | _ => 0
  end.

(** [ToNumber] of the result of an indexed read: [undefined] is NaN. *)
Definition ToNumber (v : option number) : number :=
  match v with Some x => x | None => NaN end.

(** *** Exceptions and fallible computations

    The values that are thrown or that reject a promise: the errors of
    the language and of the host, the [error] event a [FileReader] hands
    to its [onerror] handler, and [null] or [undefined]. *)

Inductive exception : Type :=
| RangeError
| IndexSizeError
| DOMException (name : string)
| Error (message : string)
| TypeError
| ProgressEvent (type : string)
| NullOrUndefined.

Inductive result (A : Type) : Type :=
| Ok (a : A)
| Throw (e : exception).
Arguments Ok {A} a.
Arguments Throw {A} e.

Definition bind {A B : Type} (m : result A) (k : A -> result B) : result B :=
  match m with
  | Ok a => k a
  | Throw e => Throw e
  end.

(** *** Typed arrays and array buffers *)

Definition byte : Type := Z.

Definition MAX_SAFE_INTEGER : Z := 2 ^ 53 - 1.

(** [ToIndex]: the length argument of a typed array or buffer. *)
Definition ToIndex (n : integral) : result Z :=
  match n with
  | INaN => Ok 0
  | IInf _ => Throw RangeError
  | IInt z => if (0 <=? z) && (z <=? MAX_SAFE_INTEGER) then Ok z else Throw RangeError
  end.

(** [oldData[offset]] on a [Float32Array]: the element when [offset] is an
    index of the array, [undefined] otherwise. *)
Definition typed_get (a : list number) (k : integral) : option number :=
  match k with
  | IInt z => if 0 <=? z then a !! Z.to_nat z else None
  | _ => None
  end.

(** [new Int16Array(n)]: [n] zeros, in a buffer of [2 * n] bytes that must
    itself be allocatable.  The bound is the one of the language; an
    engine refuses smaller lengths too when it cannot find the memory,
    with the same [RangeError].  A statement that a blob is returned is
    therefore about a run whose allocations succeed. *)
Definition new_Int16Array (n : integral) : result (list Z) :=
  bind (ToIndex n) (fun len =>
    if 2 * len <=? MAX_SAFE_INTEGER then Ok (replicate (Z.to_nat len) 0)
    else Throw RangeError).

(** [a[i] = x] on an [Int16Array]: converts with [ToInt16]; a write
    outside the array is ignored. *)
Definition Int16Array_store (a : list Z) (i : nat) (x : number) : list Z :=
  <[ i := ToInt16 x ]> a.

Definition byteLength (a : list Z) : Z := 2 * Z.of_nat (length a).

(** The bytes of an [Int16Array] element in the array's buffer
    (two's complement, little-endian platform). *)
Definition int16_bytes (x : Z) : list byte :=
  let u := x mod 2 ^ 16 in [u mod 256; u / 256].

Definition Int16Array_buffer (a : list Z) : list byte :=
  flat_map int16_bytes a.

(** [new ArrayBuffer(n)]: [n] zero bytes, under the same bound. *)
Definition new_ArrayBuffer (n : Z) : result (list byte) :=
  bind (ToIndex (IInt n)) (fun len => Ok (replicate (Z.to_nat len) 0)).

(** Writing [bs] at byte offset [off]; a [RangeError] when the bytes do
    not fit. *)
Fixpoint write_at (buf : list byte) (off : nat) (bs : list byte) : list byte :=
  match bs with
  | [] => buf
  | b :: bs' => write_at (<[ off := b ]> buf) (S off) bs'
  end.

Definition checked_write (buf : list byte) (off : Z) (bs : list byte)
  : result (list byte) :=
  if (0 <=? off) && (off + Z.of_nat (length bs) <=? Z.of_nat (length buf))
  then Ok (write_at buf (Z.to_nat off) bs)
  else Throw RangeError.

(** [DataView.prototype.setUint8 / setUint16 / setUint32] with
    [littleEndian = true]; the value is reduced modulo 2^8, 2^16, 2^32. *)
Definition setUint8 (view : list byte) (off : Z) (v : Z) : result (list byte) :=
  checked_write view off [v mod 2 ^ 8].

Definition uint16_le (v : Z) : list byte :=
  let u := v mod 2 ^ 16 in [u mod 256; u / 256].

Definition uint32_le (v : Z) : list byte :=
  let u := v mod 2 ^ 32 in
  [u mod 256; (u / 2 ^ 8) mod 256; (u / 2 ^ 16) mod 256; u / 2 ^ 24].

Definition setUint16 (view : list byte) (off : Z) (v : Z) : result (list byte) :=
  checked_write view off (uint16_le v).

Definition setUint32 (view : list byte) (off : Z) (v : Z) : result (list byte) :=
  checked_write view off (uint32_le v).

(** [new Uint8Array(buffer, off).set(src)] *)
Definition Uint8Array_set (buf : list byte) (off : Z) (src : list byte)
  : result (list byte) :=
  checked_write buf off src.

(** Reading a little-endian unsigned 32-bit or 16-bit field. *)
Definition getUint32 (buf : list byte) (off : nat) : option Z :=
  match buf !! off, buf !! (off + 1)%nat, buf !! (off + 2)%nat, buf !! (off + 3)%nat with
  | Some b0, Some b1, Some b2, Some b3 =>
      Some (b0 + 2 ^ 8 * b1 + 2 ^ 16 * b2 + 2 ^ 24 * b3)
  | _, _, _, _ => None
  end.

Definition getUint16 (buf : list byte) (off : nat) : option Z :=
  match buf !! off, buf !! (off + 1)%nat with
  | Some b0, Some b1 => Some (b0 + 2 ^ 8 * b1)
  | _, _ => None
  end.

Definition charCodeAt (c : ascii) : Z := Z.of_N (N_of_ascii c).

End JS.

(** The usual sequencing notation [x ← m; k] for fallible steps. *)
#[global] Instance result_bind : MBind JS.result := fun A B k m => JS.bind m k.
#[global] Instance result_ret : MRet JS.result := fun A a => JS.Ok a.

(** ** The resampler / encoder (services/geminiService.ts) *)

Module Wav.
Import JS.

(** The decoded waveform handed over by the host: a sample rate and one
    [Float32Array] per channel. *)
Record AudioBuffer : Type := {
  buffer_sampleRate : number;
  buffer_channels : list (list number)
}.

Definition getChannelData (audioBuffer : AudioBuffer) (channel : nat)
  : result (list number) :=
  match buffer_channels audioBuffer !! channel with
  | Some data => Ok data
  | None => Throw IndexSizeError
  end.

Record Blob : Type := {
  blob_bytes : list byte;
  blob_type : string
}.

Definition numChannels : Z := 1.
Definition sampleRate : Z := 16000.
Definition format : Z := 1.
Definition bitDepth : Z := 16.

(** [Math.max(-1, Math.min(1, sample))] *)
Definition clamp (sample : option number) : number :=
  Math_max (of_Z (-1)) (Math_min (of_Z 1) (ToNumber sample)).

(** [val < 0 ? val * 0x8000 : val * 0x7FFF] *)
Definition scale (val : number) : number :=
  if ltb val (of_Z 0) then mul val (of_Z 0x8000) else mul val (of_Z 0x7FFF).

(** The value an [Int16Array] holds after the scaled sample is stored. *)
Definition quantize (sample : option number) : Z :=
  ToInt16 (scale (clamp sample)).

(** The source offset read for output index [i]. *)
Definition offset_of (ratio : number) (i : nat) : integral :=
  Math_round (mul (of_Z (Z.of_nat i)) ratio).

(** One iteration of the [for] loop. *)
Definition resample_step (oldData : list number) (ratio : number)
    (resultData : list Z) (i : nat) : list Z :=
  let offset := offset_of ratio i in
  let val := clamp (typed_get oldData offset) in
  Int16Array_store resultData i (scale val).

(** [for (let i = 0; i < newLength; i++)]: the number of iterations. *)
Definition iterations (newLength : integral) : nat :=
  match newLength with
  | IInt z => Z.to_nat z
  | _ => 0%nat
  end.

Definition resample_loop (oldData : list number) (ratio : number)
    (newLength : integral) (resultData : list Z) : list Z :=
  fold_left (resample_step oldData ratio) (seq 0 (iterations newLength)) resultData.

Definition ratio_of (originalSampleRate : number) : number :=
  div originalSampleRate (of_Z sampleRate).

Definition newLength_of (oldData : list number) (ratio : number) : integral :=
  Math_round (div (of_Z (Z.of_nat (length oldData))) ratio).

(** Lines 12-22: the resampled and quantized samples. *)
Definition resample (audioBuffer : AudioBuffer) : result (list Z) :=
  let originalSampleRate := buffer_sampleRate audioBuffer in
  oldData ← getChannelData audioBuffer 0;
  let ratio := ratio_of originalSampleRate in
  let newLength := newLength_of oldData ratio in
  resultData ← new_Int16Array newLength;
  Ok (resample_loop oldData ratio newLength resultData).

Fixpoint writeString_from (view : list byte) (offset i : Z) (s : string)
  : result (list byte) :=
  match s with
  | EmptyString => Ok view
  | String c s' =>
      view' ← setUint8 view (offset + i) (charCodeAt c);
      writeString_from view' offset (i + 1) s'
  end.

Definition writeString (view : list byte) (offset : Z) (s : string)
  : result (list byte) :=
  writeString_from view offset 0 s.

(** Lines 27-39: the header fields written through the [DataView]. *)
Definition write_header (view : list byte) (dataByteLength : Z)
  : result (list byte) :=
  view ← writeString view 0 "RIFF";
  view ← setUint32 view 4 (36 + dataByteLength);
  view ← writeString view 8 "WAVE";
  view ← writeString view 12 "fmt ";
  view ← setUint32 view 16 16;
  view ← setUint16 view 20 format;
  view ← setUint16 view 22 numChannels;
  view ← setUint32 view 24 sampleRate;
  view ← setUint32 view 28 (sampleRate * numChannels * (bitDepth / 8));
  view ← setUint16 view 32 (numChannels * (bitDepth / 8));
  view ← setUint16 view 34 bitDepth;
  view ← writeString view 36 "data";
  setUint32 view 40 dataByteLength.

(** Lines 24-45: the blob built from the quantized samples. *)
Definition encode_samples (resultData : list Z) : result Blob :=
  buffer ← new_ArrayBuffer (44 + byteLength resultData);
  buffer ← write_header buffer (byteLength resultData);
  buffer ← Uint8Array_set buffer 44 (Int16Array_buffer resultData);
  Ok {| blob_bytes := buffer; blob_type := "audio/wav" |}.

Definition encodeWAV (audioBuffer : AudioBuffer) : result Blob :=
  resultData ← resample audioBuffer;
  encode_samples resultData.

End Wav.


(** ** The extraction pipeline (services/geminiService.ts) *)

Module Pipeline.
Import JS Wav.

(** What can be observed of the pipeline besides its result: the
    progress messages, the calls of [console.error], and the errors that
    nobody handles (an exception thrown by an event handler, the rejection
    of a promise nobody awaits), as the browser reports them. *)
Record trace : Type := {
  progress : list string;
  console : list (string * exception);
  uncaught : list exception
}.

Definition prog (A : Type) : Type := trace -> result A * trace.

Definition ret {A : Type} (a : A) : prog A := fun t => (Ok a, t).

Definition lift {A : Type} (r : result A) : prog A := fun t => (r, t).

Definition throw {A : Type} (e : exception) : prog A := fun t => (Throw e, t).

Definition and_then {A B : Type} (m : prog A) (k : A -> prog B) : prog B :=
  fun t =>
    match m t with
    | (Ok a, t') => k a t'
    | (Throw e, t') => (Throw e, t')
    end.

Definition try_catch {A : Type} (body : prog A) (handler : exception -> prog A)
  : prog A :=
  fun t =>
    match body t with
    | (Ok a, t') => (Ok a, t')
    | (Throw e, t') => handler e t'
    end.

Definition onProgress (status : string) : prog unit :=
  fun t => (Ok tt, {| progress := progress t ++ [status]; console := console t;
                      uncaught := uncaught t |}).

Definition console_error (label : string) (e : exception) : prog unit :=
  fun t => (Ok tt, {| progress := progress t; console := console t ++ [(label, e)];
                      uncaught := uncaught t |}).

(** The host facilities the pipeline delegates to. *)
Record Host (File : Type) : Type := {
  new_AudioContext : result unit;
  arrayBuffer : File -> result (list byte);
  decodeAudioData : list byte -> result AudioBuffer;
  readAsDataURL : Blob -> result string
}.
Arguments new_AudioContext {File} _.
Arguments arrayBuffer {File} _ _.
Arguments decodeAudioData {File} _ _.
Arguments readAsDataURL {File} _ _.

Record AudioPart : Type := {
  data : option string;
  mimeType : string
}.

(** [s.split(',')[1]]: the text between the first and the second comma,
    [undefined] when there is no comma. *)
Fixpoint until_comma (s : string) : string :=
  match s with
  | EmptyString => EmptyString
  | String c s' => if Ascii.eqb c "," then EmptyString else String c (until_comma s')
  end.

Fixpoint split_comma_1 (s : string) : option string :=
  match s with
  | EmptyString => None
  | String c s' => if Ascii.eqb c "," then Some (until_comma s') else split_comma_1 s'
  end.

Definition extraction_failed : exception :=
  Error "Failed to extract audio. The file might be corrupt or the format is unsupported.".

(** [reader.onloadend]: what the handler passes to [resolve] for the
    [reader.result] it finds; [result.split] throws on [null]. *)
Definition onloadend (reader_result : option string) : result AudioPart :=
  match reader_result with
  | Some result => Ok {| data := split_comma_1 result; mimeType := "audio/wav" |}
  | None => Throw TypeError
  end.

(** An event handler that throws: the browser reports the exception. *)
Definition report_uncaught {A : Type} (outcome : result A) : prog unit :=
  fun t =>
    match outcome with
    | Ok _ => (Ok tt, t)
    | Throw thrown =>
        (Ok tt, {| progress := progress t; console := console t;
                   uncaught := uncaught t ++ [thrown] |})
    end.

Section WithHost.
Context {File : Type} (host : Host File).

(** The body of the [try] block; it ends by returning the promise built
    around the [FileReader], without awaiting it. *)
Definition try_block (videoFile : File) : prog Blob :=
  and_then (onProgress "Extracting audio from video...") (fun _ =>
  and_then (lift (new_AudioContext host)) (fun _ =>
  and_then (lift (arrayBuffer host videoFile)) (fun arrayBuffer =>
  and_then (onProgress "Decoding audio track...") (fun _ =>
  and_then (lift (decodeAudioData host arrayBuffer)) (fun audioBuffer =>
  and_then (onProgress "Compressing audio...") (fun _ =>
  lift (encodeWAV audioBuffer))))))).

(** The promise around the [FileReader].  A successful read fires [load]
    and [loadend]: the [onloadend] handler resolves the promise with the
    base64 part of the data URL.  A failed read ([readAsDataURL] gives the
    reader's error) fires [error] and then [loadend]: [onerror], which is
    [reject] itself, rejects the promise with the event it is handed, not
    with the reader's error, and the [onloadend] handler then throws on
    the [null] result, an exception that nobody catches. *)
Definition reader_promise (wavBlob : Blob) : prog AudioPart :=
  match readAsDataURL host wavBlob with
  | Ok result => lift (onloadend (Some result))
  | Throw _ =>
      and_then (report_uncaught (onloadend None)) (fun _ =>
      throw (ProgressEvent "error"))
  end.

Definition extractAudioFromVideo (videoFile : File) : prog AudioPart :=
  and_then (try_catch (try_block videoFile)
         (fun error =>
            and_then (console_error "Audio extraction failed" error) (fun _ =>
            throw extraction_failed)))
      reader_promise.
End WithHost.

End Pipeline.

(** ** The application handlers (App.tsx) *)

Module App.
Import JS.

Record Caption : Type := {
  id : string;
  startTime : number;
  endTime : number;
  text : string
}.

Record File : Type := {
  file_name : string;
  file_size : Z
}.

Definition MAX_FILE_SIZE_MB : Z := 500.

(** *** Dates *)

Definition msPerDay : Z := 86400000.

(** [new Date(value)]: the time value, or [None] for an invalid date
    ([TimeClip]). *)
Definition Date_new (value : number) : option Z :=
  match value with
  | S754_zero _ => Some 0
  | S754_finite s m e =>
      let t := truncate s m e in
      if Z.abs t <=? 8640000000000000 then Some t else None
  | _ => None
  end.

(** Year, month and day of the month of a day number counted from
    1970-01-01 (proleptic Gregorian calendar). *)
Definition civil_from_days (days : Z) : Z * Z * Z :=
  let z := days + 719468 in
  let era := z / 146097 in
  let doe := z - era * 146097 in
  let yoe := (doe - doe / 1460 + doe / 36524 - doe / 146096) / 365 in
  let doy := doe - (365 * yoe + yoe / 4 - yoe / 100) in
  let mp := (5 * doy + 2) / 153 in
  let d := doy - (153 * mp + 2) / 5 + 1 in
  let m := if mp <? 10 then mp + 3 else mp - 9 in
  let y := yoe + era * 400 + (if m <=? 2 then 1 else 0) in
  (y, m, d).

Definition digit (d : Z) : ascii := ascii_of_N (Z.to_N (48 + d mod 10)).

Definition pad2 (n : Z) : string :=
  String (digit (n / 10)) (String (digit n) EmptyString).

Definition pad3 (n : Z) : string := String (digit (n / 100)) (pad2 n).

Definition pad4 (n : Z) : string := String (digit (n / 1000)) (pad3 n).

Definition pad6 (n : Z) : string :=
  String (digit (n / 100000)) (String (digit (n / 10000)) (pad4 n)).

Definition iso_year (y : Z) : string :=
  if (0 <=? y) && (y <=? 9999) then pad4 y
  else String (if y <? 0 then "-"%char else "+"%char) (pad6 (Z.abs y)).

(** [Date.prototype.toISOString]: [YYYY-MM-DDTHH:mm:ss.sssZ], a
    [RangeError] for an invalid date. *)
Definition toISOString (date : option Z) : result string :=
  match date with
  | None => Throw RangeError
  | Some t =>
      let '(y, mo, d) := civil_from_days (t / msPerDay) in
      let inDay := t mod msPerDay in
      Ok (iso_year y ++ "-" ++ pad2 mo ++ "-" ++ pad2 d ++ "T"
          ++ pad2 (inDay / 3600000) ++ ":" ++ pad2 (inDay / 60000 mod 60) ++ ":"
          ++ pad2 (inDay / 1000 mod 60) ++ "." ++ pad3 (inDay mod 1000) ++ "Z")%string
  end.

(** [s.slice(11, 23)] *)
Definition slice_11_23 (s : string) : string := substring 11 12 s.

(** [s.replace('.', ',')]: the first occurrence only. *)
Fixpoint replace_first (pattern replacement : ascii) (s : string) : string :=
  match s with
  | EmptyString => EmptyString
  | String c s' =>
      if Ascii.eqb c pattern then String replacement s'
      else String c (replace_first pattern replacement s')
  end.

(** [new Date(seconds * 1000).toISOString().slice(11, 23).replace('.', ',')] *)
Definition timestamp (seconds : number) : result string :=
  iso ← toISOString (Date_new (mul seconds (of_Z 1000)));
  Ok (replace_first "." "," (slice_11_23 iso)).

(** Decimal text of a small non-negative integer, as a template literal
    prints it. *)
Definition Number_toString (n : nat) : string :=
  NilZero.string_of_uint (Nat.to_uint n).

Definition newline : string := String (ascii_of_nat 10) EmptyString.

(** The body of the [forEach] callback. *)
Definition export_step (srtContent : string) (cap : Caption) (index : nat)
  : result string :=
  start ← timestamp (startTime cap);
  end_ ← timestamp (endTime cap);
  Ok (srtContent ++ Number_toString (index + 1) ++ newline
      ++ start ++ " --> " ++ end_ ++ newline
      ++ text cap ++ newline ++ newline)%string.

Fixpoint forEach_from (captions : list Caption) (index : nat) (srtContent : string)
  : result string :=
  match captions with
  | [] => Ok srtContent
  | cap :: rest =>
      srtContent' ← export_step srtContent cap index;
      forEach_from rest (S index) srtContent'
  end.

Record Download : Type := {
  download_name : string;
  download_type : string;
  download_content : string
}.

Definition handleExport (captions : list Caption) : result Download :=
  srtContent ← forEach_from captions 0 EmptyString;
  Ok {| download_name := "captions.srt";
        download_type := "text/plain";
        download_content := srtContent |}.

(** *** File selection *)

Record AppState : Type := {
  videoFile : option File;
  videoUrl : option string;
  captions : list Caption;
  error : option string
}.

(** The browser's registry of object URLs. *)
Record UrlStore : Type := {
  next_url : nat;
  live_urls : gmap string File
}.

Definition createObjectURL (file : File) (store : UrlStore) : string * UrlStore :=
  let url := ("blob:" ++ Number_toString (next_url store))%string in
  (url, {| next_url := S (next_url store);
           live_urls := <[ url := file ]> (live_urls store) |}).

Definition revokeObjectURL (url : string) (store : UrlStore) : UrlStore :=
  {| next_url := next_url store; live_urls := delete url (live_urls store) |}.

(** Truthiness of a string: only the empty string is falsy. *)
Definition truthy (s : string) : bool :=
  match s with
  | EmptyString => false
  | String _ _ => true
  end.

Definition too_large_message : string :=
  ("File is too large. Max size is "
     ++ Number_toString (Z.to_nat MAX_FILE_SIZE_MB) ++ "MB.")%string.

Definition handleFileChange (file : option File) (state : AppState) (store : UrlStore)
  : AppState * UrlStore :=
  match file with
  | None => (state, store)
  | Some file =>
      if MAX_FILE_SIZE_MB * 1024 * 1024 <? file_size file then
        ({| videoFile := videoFile state; videoUrl := videoUrl state;
            captions := captions state; error := Some too_large_message |},
         store)
      else
        let store1 :=
          match videoUrl state with
          | Some url => if truthy url then revokeObjectURL url store else store
          | None => store
          end in
        let '(url, store2) := createObjectURL file store1 in
        ({| videoFile := Some file; videoUrl := Some url;
            captions := []; error := None |},
         store2)
  end.

End App.

(** ** Caption generation (services/geminiService.ts) *)

Module Gemini.
Import JS Wav Pipeline App.

(** The two enumerations of types.ts, with their string values. *)
Module SpokenLanguage.
Inductive t : Type :=
| AUTO | ENGLISH | HINDI | GUJARATI | MARATHI | TAMIL | TELUGU | BENGALI.

Definition value (l : t) : string :=
  match l with
  | AUTO => "Auto Detect"
  | ENGLISH => "English"
  | HINDI => "Hindi"
  | GUJARATI => "Gujarati"
  | MARATHI => "Marathi"
  | TAMIL => "Tamil"
  | TELUGU => "Telugu"
  | BENGALI => "Bengali"
  end.
End SpokenLanguage.

Module CaptionOutputFormat.
Inductive t : Type :=
| ORIGINAL | ENGLISH | HINGLISH | GUJLISH | ROMANIZED.
End CaptionOutputFormat.

(** One element of the parsed response, and the response itself
    ([response.text] may be [undefined]). *)
Record RawCaption : Type := {
  raw_startTime : number;
  raw_endTime : number;
  raw_text : string
}.

Record GenerateContentResponse : Type := {
  response_text : option string
}.

(** What [generateCaptions] relies on besides the browser: the API key of
    the environment, the construction of the client, the model call (given
    the audio part and the prompt; model name, schema and system
    instruction are constants), [JSON.parse] read as an array of segments,
    and the clock: [Date_now i] is the number of milliseconds it shows when
    the [map] reaches element [i]. *)
Record Service (File : Type) : Type := {
  API_KEY : option string;
  new_GoogleGenAI : result unit;
  browser : Host File;
  generateContent : AudioPart -> string -> result GenerateContentResponse;
  JSON_parse : string -> result (list RawCaption);
  Date_now : nat -> N
}.
Arguments API_KEY {File} _.
Arguments new_GoogleGenAI {File} _.
Arguments browser {File} _.
Arguments generateContent {File} _ _ _.
Arguments JSON_parse {File} _ _.
Arguments Date_now {File} _ _.

(** Truthiness of [string | undefined]. *)
Definition defined_and_truthy (s : option string) : bool :=
  match s with
  | Some s => truthy s
  | None => false
  end.

Definition taskInstruction (outputFormat : CaptionOutputFormat.t)
    (spokenLanguage : SpokenLanguage.t) : string :=
  let lang := SpokenLanguage.value spokenLanguage in
  match outputFormat with
  | CaptionOutputFormat.ENGLISH =>
      "Transcribe the audio in " ++ lang ++ " and then TRANSLATE it into English."
  | CaptionOutputFormat.HINGLISH =>
      "The audio is in " ++ lang ++ " (likely Hindi). Transcribe it using the English alphabet (Romanized Hindi/Hinglish). Example: 'Kya haal hai'."
  | CaptionOutputFormat.GUJLISH =>
      "The audio is in " ++ lang ++ " (likely Gujarati). Transcribe it using the English alphabet (Romanized Gujarati/Gujlish). Example: 'Kem cho'."
  | CaptionOutputFormat.ROMANIZED =>
      "The audio is in " ++ lang ++ ". Transcribe it using the English alphabet (Romanized). Do not use the native script."
  | CaptionOutputFormat.ORIGINAL =>
      "Transcribe the audio exactly as spoken in " ++ lang ++ " using the native script."
  end%string.

Definition quoted (s : string) : string :=
  (String (ascii_of_nat 34) s ++ String (ascii_of_nat 34) EmptyString)%string.

Definition prompt (taskInstruction : string) : string :=
  (newline
   ++ "    Analyze the provided audio file." ++ newline
   ++ "    Task: " ++ taskInstruction ++ newline
   ++ "    " ++ newline
   ++ "    Return a JSON array where each object represents a subtitle segment." ++ newline
   ++ "    " ++ newline
   ++ "    IMPORTANT RULES FOR VIRAL VIDEOS:" ++ newline
   ++ "    1. Keep segments VERY SHORT (1-3 words max). This makes the video feel faster." ++ newline
   ++ "    2. Ensure strict time alignment." ++ newline
   ++ "    " ++ newline
   ++ "    JSON Schema:" ++ newline
   ++ "    - " ++ quoted "startTime" ++ ": number (seconds)" ++ newline
   ++ "    - " ++ quoted "endTime" ++ ": number (seconds)" ++ newline
   ++ "    - " ++ quoted "text" ++ ": string (the content)" ++ newline
   ++ "  ")%string.

(** Decimal text of a time value. *)
Definition time_toString (now : N) : string :=
  NilZero.string_of_uint (N.to_uint now).

(** [`cap-${index}-${Date.now()}`] *)
Definition caption_id (index : nat) (now : N) : string :=
  ("cap-" ++ Number_toString index ++ "-" ++ time_toString now)%string.

(** [rawCaptions.map((c, index) => ...)], from element [index] on. *)
Fixpoint map_from (now : nat -> N) (rawCaptions : list RawCaption) (index : nat)
  : list Caption :=
  match rawCaptions with
  | [] => []
  | c :: rest =>
      {| id := caption_id index (now index);
         startTime := raw_startTime c;
         endTime := raw_endTime c;
         text := raw_text c |} :: map_from now rest (S index)
  end.

Definition api_key_missing : exception :=
  Error "API Key not found in environment variables".

Definition no_response : exception := Error "No response from Gemini.".

Section WithService.
Context {File : Type} (service : Service File).

(** The body of the [try] block around the model call. *)
Definition transcribe (audioPart : AudioPart) (prompt : string) : prog (list Caption) :=
  and_then (lift (generateContent service audioPart prompt)) (fun response =>
  and_then (onProgress "Processing response...") (fun _ =>
  match response_text response with
  | Some text =>
      if truthy text then
        and_then (lift (JSON_parse service text)) (fun rawCaptions =>
        ret (map_from (Date_now service) rawCaptions 0))
      else throw no_response
  | None => throw no_response
  end)).

Definition generateCaptions (videoFile : File) (spokenLanguage : SpokenLanguage.t)
    (outputFormat : CaptionOutputFormat.t) : prog (list Caption) :=
  if negb (defined_and_truthy (API_KEY service)) then throw api_key_missing
  else
    and_then (lift (new_GoogleGenAI service)) (fun _ =>
    and_then (extractAudioFromVideo (browser service) videoFile) (fun audioPartData =>
    let audioPart := {| data := data audioPartData; mimeType := mimeType audioPartData |} in
    and_then (onProgress "Transcribing with Gemini...") (fun _ =>
    let prompt := prompt (taskInstruction outputFormat spokenLanguage) in
    try_catch (transcribe audioPart prompt)
      (fun error =>
         and_then (console_error "Gemini Error:" error) (fun _ =>
         throw error))))).
End WithService.

End Gemini.

(** ** Caption generation from the page (App.tsx) *)

Module Generate.
Import JS Pipeline App Gemini.

(** The state [handleGenerate] reads and writes. *)
Record GenerateState : Type := {
  page : AppState;
  isProcessing : bool;
  progressStatus : string;
  spokenLanguage : SpokenLanguage.t;
  outputFormat : CaptionOutputFormat.t
}.

(** [err.message]: the text of an [Error] built by the program;
    [undefined] for an event, which has no such property; a [TypeError]
    when [err] is [null] or [undefined]; what the host reports
    otherwise. *)
Definition message_of (host_message : exception -> option string) (err : exception)
  : result (option string) :=
  match err with
  | Error message => Ok (Some message)
  | ProgressEvent _ => Ok None
  | NullOrUndefined => Throw TypeError
  | _ => Ok (host_message err)
  end.

Definition generate_failed : string := "Failed to generate captions. Please try again.".

(** [err.message || "Failed to generate captions. Please try again."] *)
Definition error_text (host_message : exception -> option string) (err : exception)
  : result string :=
  message ← message_of host_message err;
  Ok (match message with
      | Some message => if truthy message then message else generate_failed
      | None => generate_failed
      end).

Section WithService.
Context (service : Service File) (host_message : exception -> option string).

(** The page after the [finally] block: [setError(null)] ran before the
    [try], so [error] is what the [try] or the [catch] block set, if
    anything. *)
Definition finally (state : GenerateState) (videoFile : File)
    (captions : list Caption) (error : option string) : GenerateState :=
  {| page := {| videoFile := Some videoFile;
                videoUrl := videoUrl (page state);
                captions := captions;
                error := error |};
     isProcessing := false;
     progressStatus := EmptyString;
     spokenLanguage := spokenLanguage state;
     outputFormat := outputFormat state |}.

(** The state and the trace once the returned promise has settled; the
    progress callback sets [progressStatus], which the [finally] block
    clears.  When the [catch] block itself throws, no error text is set,
    the [finally] block still runs, and the promise of [handleGenerate],
    which the click handler does not await, rejects. *)
Definition handleGenerate (state : GenerateState) (t : trace) : GenerateState * trace :=
  match videoFile (page state) with
  | None => (state, t)
  | Some videoFile =>
      match generateCaptions service videoFile (spokenLanguage state) (outputFormat state) t with
      | (Ok generatedCaptions, t') =>
          (finally state videoFile generatedCaptions None, t')
      | (Throw err, t') =>
          match error_text host_message err with
          | Ok message =>
              (finally state videoFile (captions (page state)) (Some message), t')
          | Throw thrown =>
              (finally state videoFile (captions (page state)) None,
               {| progress := progress t'; console := console t';
                  uncaught := uncaught t' ++ [thrown] |})
          end
      end
  end.
End WithService.

(** The [Change] button: [setVideoFile(null); setVideoUrl(null);
    setCaptions([])].  The object URL is not revoked. *)
Definition change_onClick (state : AppState) : AppState :=
  {| videoFile := None; videoUrl := None; captions := []; error := error state |}.

End Generate.

(** ** The transcript editor (components/CaptionEditor.tsx) *)

Module Editor.
Import JS App.

(** [{ ...c, text: newText }] *)
Definition with_text (newText : string) (c : Caption) : Caption :=
  {| id := id c; startTime := startTime c; endTime := endTime c; text := newText |}.

Definition handleTextChange (id' : string) (newText : string) (prev : list Caption)
  : list Caption :=
  map (fun c => if String.eqb (id c) id' then with_text newText c else c) prev.

Definition handleDelete (id' : string) (prev : list Caption) : list Caption :=
  List.filter (fun c => negb (String.eqb (id c) id')) prev.

(** [time >= c.startTime && time <= c.endTime] *)
Definition shown_at (time : number) (c : Caption) : bool :=
  SFleb (startTime c) time && SFleb time (endTime c).

(** [captions.find(...)?.id] *)
Definition activeCaptionId (captions : list Caption) (currentTime : number)
  : option string :=
  id <$> List.find (shown_at currentTime) captions.

End Editor.

(** ** The player (components/VideoPlayer.tsx) *)

Module Player.
Import JS App Editor.

Definition sub : number -> number -> number := SFsub prec emax.

Record Video : Type := {
  video_currentTime : number;
  video_duration : number
}.

Record PlayerState : Type := {
  isPlaying : bool;
  currentCaption : option Caption;
  player_progress : number;
  aspectRatio : option number;
  isDragging : bool
}.

(** Truthiness of a Number: NaN and the zeros are falsy. *)
Definition truthy_number (x : number) : bool :=
  match x with
  | S754_nan | S754_zero _ => false
  | _ => true
  end.

(** The [timeupdate] handler: the new state and the time handed to
    [onTimeUpdate], nothing when the video element is absent. *)
Definition handleTimeUpdate (video : option Video) (captions : list Caption)
    (state : PlayerState) : PlayerState * option number :=
  match video with
  | None => (state, None)
  | Some video =>
      let time := video_currentTime video in
      let active := List.find (shown_at time) captions in
      let currentCaption' :=
        if decide (id <$> active = id <$> currentCaption state)
        then currentCaption state else active in
      let duration :=
        if truthy_number (video_duration video) then video_duration video else of_Z 1 in
      ({| isPlaying := isPlaying state;
          currentCaption := currentCaption';
          player_progress := mul (div time duration) (of_Z 100);
          aspectRatio := aspectRatio state;
          isDragging := isDragging state |},
       Some time)
  end.

Record DOMRect : Type := {
  rect_left : number;
  rect_top : number;
  rect_width : number;
  rect_height : number
}.

Record Position : Type := {
  pos_x : number;
  pos_y : number
}.

(** [((client - origin) / extent) * 100] *)
Definition percent (client origin extent : number) : number :=
  mul (div (sub client origin) extent) (of_Z 100).

(** [Math.max(0, Math.min(100, x))] *)
Definition clamp_percent (x : number) : number :=
  Math_max (of_Z 0) (Math_min (of_Z 100) x).

(** The [mousemove] handler: the position handed to [setCaptionPosition],
    nothing when no drag is in progress or the container is absent. *)
Definition handleMouseMove (isDragging : bool) (container : option DOMRect)
    (clientX clientY : number) : option Position :=
  if isDragging then
    match container with
    | Some rect =>
        let x := percent clientX (rect_left rect) (rect_width rect) in
        let y := percent clientY (rect_top rect) (rect_height rect) in
        Some {| pos_x := clamp_percent x; pos_y := clamp_percent y |}
    | None => None
    end
  else None.

End Player.


Import JS Wav Pipeline App.
Import Gemini Generate Editor Player.

(* ================================================================== *)
(** * Part II: the properties, as definitions                          *)
(* ================================================================== *)

(** ** Numbers *)

Definition one : number := S754_finite false 4503599627370496 (-52).

Definition half : number := S754_finite false 4503599627370496 (-53).

(** Normal numbers: a 53-bit mantissa and an exponent in range. *)
Definition normal (m : positive) (e : Z) : Prop :=
  Z.log2 (Zpos m) = 52 /\ -1074 <= e <= 971.

(** Whether a Number is the value of a [Float32Array] element: NaN, a zero,
    an infinity, or a binary64 number with at most 24 significant bits
    that is a multiple of 2^-149 and below 2^128. *)
Definition float32_valued (x : number) : bool :=
  match x with
  | S754_finite _ m e =>
      (Z.log2 (Zpos m) =? 52) && (Zpos m mod 2 ^ 29 =? 0) && (e <=? 75)
      && ((-149 <=? e) || (Zpos m mod 2 ^ (- 149 - e) =? 0))
  | _ => true
  end.

(** The magnitude [m * 2^e] of a normal number is at most 1. *)
Definition in_unit (m : positive) (e : Z) : bool :=
  (e <? -52) || ((e =? -52) && (m =? 4503599627370496)%positive).

(** ** Quantization in exact arithmetic *)

Definition Qclamp (q : Q) : Q :=
  if Qle_bool q (-1) then (-1)%Q else if Qle_bool 1 q then 1%Q else q.

(** Truncation towards zero. *)
Definition Qtruncate (q : Q) : Z := Z.quot (Qnum q) (Zpos (Qden q)).

(** The sample clamped to [-1, 1], as an exact rational; NaN has none. *)
Definition clamped_value (v : number) : option Q :=
  match v with
  | S754_nan => None
  | S754_infinity s => Some (if s then (-1)%Q else 1%Q)
  | _ => Some (Qclamp (value v))
  end.

(** A negative clamped value is multiplied by 32768, a non-negative one by
    32767, and the exact product is truncated towards zero. *)
Definition quantize_exact (v : number) : Z :=
  match clamped_value v with
  | None => 0
  | Some c =>
      if Qnum c <? 0 then Qtruncate (c * 32768) else Qtruncate (c * 32767)
  end.

(** The same, with negative products rounded towards the more negative
    integer instead. *)
Definition quantize_flooring (v : number) : Z :=
  match clamped_value v with
  | None => 0
  | Some c =>
      if Qnum c <? 0 then Qfloor (c * 32768) else Qtruncate (c * 32767)
  end.

(** -1.5 / 32768, a [Float32Array] value. *)
Definition minus_three_halves_lsb : number :=
  S754_finite true 6755399441055744 (-67).

(** ** Blobs *)

(** The canonical 44-byte header for a payload of [n] bytes. *)
Definition wav_header (n : Z) : list byte :=
  [82; 73; 70; 70] ++ uint32_le (36 + n) ++
  [87; 65; 86; 69] ++
  [102; 109; 116; 32] ++ uint32_le 16 ++
  uint16_le 1 ++ uint16_le 1 ++ uint32_le 16000 ++ uint32_le 32000 ++
  uint16_le 2 ++ uint16_le 16 ++
  [100; 97; 116; 97] ++ uint32_le n.

Definition payload (blob : Blob) : list byte := drop 44 (blob_bytes blob).

Definition ascii_tag (bytes : list byte) (off : nat) (tag : string) : Prop :=
  take (String.length tag) (drop off bytes) = map charCodeAt (list_ascii_of_string tag).

(** The two size fields hold the sizes of the blob they are part of. *)
Definition header_sizes_match (blob : Blob) : Prop :=
  let totalBytes := Z.of_nat (length (blob_bytes blob)) in
  let dataByteLength := Z.of_nat (length (payload blob)) in
  getUint32 (blob_bytes blob) 4 = Some (totalBytes - 8) /\
  getUint32 (blob_bytes blob) 40 = Some dataByteLength.

(** A [Float32Array] of this length can exist: its buffer of four bytes
    per element has at most 2^53 - 1 bytes. *)
Definition Float32Array_fits (a : list number) : Prop :=
  4 * Z.of_nat (length a) <= MAX_SAFE_INTEGER.

(** [offset >= sourceFrameCount] *)
Definition offset_out_of_range (offset : integral) (sourceFrameCount : nat) : Prop :=
  match offset with
  | IInt z => Z.of_nat sourceFrameCount <= z
  | IInf negative => negative = false
  | INaN => False
  end.

(** ** Inputs used as examples *)

(** One second of a constant 0.5 at 48 kHz, one channel. *)
Definition scenario_A : AudioBuffer :=
  {| buffer_sampleRate := of_Z 48000;
     buffer_channels := [replicate (Z.to_nat 48000) half] |}.

Definition stereo_1 : AudioBuffer :=
  {| buffer_sampleRate := of_Z 16000;
     buffer_channels := [[half; of_Z 1]; [of_Z 0; of_Z 0]] |}.

Definition stereo_2 : AudioBuffer :=
  {| buffer_sampleRate := of_Z 16000;
     buffer_channels := [[half; of_Z 1]; [of_Z (-1); half]] |}.

(** A single sample at 8 kHz: the second output sample is read at offset 1. *)
Definition half_rate_clip : AudioBuffer :=
  {| buffer_sampleRate := of_Z 8000; buffer_channels := [[half]] |}.

(** The blob produced for [half_rate_clip]: header, one sample of 0.5 and
    one sample of silence. *)
Definition half_rate_blob : Blob :=
  {| blob_bytes :=
       [82; 73; 70; 70; 40; 0; 0; 0; 87; 65; 86; 69; 102; 109; 116; 32;
        16; 0; 0; 0; 1; 0; 1; 0; 128; 62; 0; 0; 0; 125; 0; 0; 2; 0; 16; 0;
        100; 97; 116; 97; 4; 0; 0; 0; 255; 63; 0; 0];
     blob_type := "audio/wav" |}.

(** About 37 hours of silence at the native rate: 2^31 frames. *)
Definition long_silence : list number :=
  replicate (Z.to_nat (2 ^ 31)) (S754_zero false).

Definition four_gib_audio : AudioBuffer :=
  {| buffer_sampleRate := of_Z 16000; buffer_channels := [long_silence] |}.

(** A host whose file read fails. *)
Definition unreadable_host : Host unit :=
  {| new_AudioContext := Ok tt;
     arrayBuffer := fun _ => Throw (DOMException "NotReadableError");
     decodeAudioData := fun _ => Throw (DOMException "EncodingError");
     readAsDataURL := fun _ => Ok EmptyString |}.

Definition empty_trace : trace := {| progress := []; console := []; uncaught := [] |}.

(** ** SubRip text *)

Definition srt_timestamp (ms : Z) : string :=
  (pad2 (ms / 3600000) ++ ":" ++ pad2 (ms / 60000 mod 60) ++ ":"
   ++ pad2 (ms / 1000 mod 60) ++ "," ++ pad3 (ms mod 1000))%string.

(** A caption time in whole milliseconds, as the [Date] holds it. *)
Definition milliseconds (seconds : number) : Z :=
  match Date_new (mul seconds (of_Z 1000)) with
  | Some t => t
  | None => 0
  end.

(** The time is a valid date value within [0, 24 h). *)
Definition within_first_day (seconds : number) : bool :=
  match Date_new (mul seconds (of_Z 1000)) with
  | Some t => (0 <=? t) && (t <? msPerDay)
  | None => false
  end.

Definition caption_within_first_day (cap : Caption) : Prop :=
  within_first_day (startTime cap) = true /\ within_first_day (endTime cap) = true.

(** Sequence number, timestamp line, text, blank line. *)
Definition srt_block (index : nat) (cap : Caption) : string :=
  (Number_toString (index + 1) ++ newline
   ++ srt_timestamp (milliseconds (startTime cap)) ++ " --> "
   ++ srt_timestamp (milliseconds (endTime cap)) ++ newline
   ++ text cap ++ newline ++ newline)%string.

Fixpoint srt_file_from (captions : list Caption) (index : nat) : string :=
  match captions with
  | [] => EmptyString
  | cap :: rest => (srt_block index cap ++ srt_file_from rest (S index))%string
  end.

Definition srt_file (captions : list Caption) : string := srt_file_from captions 0.

Definition two_captions : list Caption :=
  [ {| id := "cap-0"; startTime := of_Z 1;
       endTime := S754_finite false 5629499534213120 (-51); text := "hello" |};
    {| id := "cap-1"; startTime := of_Z 3599; endTime := of_Z 86399; text := "world" |} ].

(** A caption that starts 25 hours into the video. *)
Definition late_caption : Caption :=
  {| id := "cap-0"; startTime := of_Z 90000; endTime := of_Z 90001; text := "late" |}.

(** ** File selection *)

Definition size_limit : Z := 500 * 1024 * 1024.

Definition small_file : File := {| file_name := "clip.mp4"; file_size := 524288000 |}.

Definition large_file : File := {| file_name := "film.mp4"; file_size := 524288001 |}.

Definition loaded_state : AppState :=
  {| videoFile := Some small_file; videoUrl := Some "blob:0"%string;
     captions := [ {| id := "cap-0"; startTime := of_Z 0; endTime := of_Z 1;
                      text := "hi" |} ];
     error := None |}.

Definition loaded_store : UrlStore :=
  {| next_url := 1; live_urls := {[ "blob:0"%string := small_file ]} |}.

(** ** Stored samples and bytes *)

Definition is_int16 (x : Z) : Prop := -32768 <= x <= 32767.

(** Reading the payload back: a little-endian signed 16-bit sample from
    its two bytes, and the samples of a byte sequence. *)
Definition int16_le (lo hi : byte) : Z :=
  let u := lo + 2 ^ 8 * hi in
  if 2 ^ 15 <=? u then u - 2 ^ 16 else u.

Fixpoint decode_int16_le (bytes : list byte) : list Z :=
  match bytes with
  | lo :: hi :: rest => int16_le lo hi :: decode_int16_le rest
  | _ => []
  end.

(** The sample is a zero. *)
Definition silent (x : number) : bool :=
  match x with
  | S754_zero _ => true
  | _ => false
  end.

(** An output sample is silence or the quantization of a source sample. *)
Definition selected_from (oldData : list number) (s : Z) : Prop :=
  s = 0 \/ exists x, x ∈ oldData /\ s = quantize (Some x).

(** How [encodeWAV] can end.  It throws nothing but [IndexSizeError] and
    [RangeError].  By cases on channel 0 and on the rounded output length:
    where it must fail, and the size of the blob where it returns one
    (whether it returns one is up to the allocations). *)
Definition encodeWAV_outcome (audioBuffer : AudioBuffer) : Prop :=
  (forall e, encodeWAV audioBuffer = Throw e -> e = IndexSizeError \/ e = RangeError) /\
  match getChannelData audioBuffer 0 with
  | Throw _ => encodeWAV audioBuffer = Throw IndexSizeError
  | Ok oldData =>
      match newLength_of oldData (ratio_of (buffer_sampleRate audioBuffer)) with
      | INaN =>
          forall blob, encodeWAV audioBuffer = Ok blob ->
                       length (blob_bytes blob) = 44%nat
      | IInf _ => encodeWAV audioBuffer = Throw RangeError
      | IInt n =>
          if (0 <=? n) && (44 + 2 * n <=? MAX_SAFE_INTEGER) then
            forall blob, encodeWAV audioBuffer = Ok blob ->
                         Z.of_nat (length (blob_bytes blob)) = 44 + 2 * n
          else encodeWAV audioBuffer = Throw RangeError
      end
  end.

(** The samples kept when the source rate is [r] times 16 kHz. *)
Definition decimate (r : nat) (oldData : list number) (n : nat) : list Z :=
  map (fun i => quantize (oldData !! (i * r)%nat)) (seq 0 n).

(** The samples produced from an 8 kHz source: output [i] reads the
    source at [(i + 1) / 2]. *)
Definition doubled (oldData : list number) : list Z :=
  map (fun i => quantize (oldData !! ((i + 1) / 2)%nat)) (seq 0 (2 * length oldData)).

Definition charCodes (s : string) : list byte := map charCodeAt (list_ascii_of_string s).

(** Six frames at 48 kHz. *)
Definition three_to_one : AudioBuffer :=
  {| buffer_sampleRate := of_Z 48000;
     buffer_channels := [[half; of_Z 0; of_Z 0; of_Z 1; of_Z 0; of_Z 0]] |}.

(** Three frames of digital silence at 44.1 kHz, and the blob made of them. *)
Definition silent_clip : AudioBuffer :=
  {| buffer_sampleRate := of_Z 44100;
     buffer_channels := [[S754_zero false; S754_zero true; S754_zero false]] |}.

Definition silent_blob : Blob :=
  {| blob_bytes :=
       [82; 73; 70; 70; 38; 0; 0; 0; 87; 65; 86; 69; 102; 109; 116; 32;
        16; 0; 0; 0; 1; 0; 1; 0; 128; 62; 0; 0; 0; 125; 0; 0; 2; 0; 16; 0;
        100; 97; 116; 97; 2; 0; 0; 0; 0; 0];
     blob_type := "audio/wav" |}.

(** ** The pipeline's trace *)

(** The three messages reported while the audio is extracted. *)
Definition extraction_messages : list string :=
  ["Extracting audio from video..."; "Decoding audio track..."; "Compressing audio..."]%string.

(** What a run of the pipeline leaves in the trace: the first [k] of the
    three messages, one console entry exactly when the [catch] block
    ran, and the exceptions that nobody caught. *)
Definition extraction_trace (t t' : trace) (k : nat) (caught : option exception)
    (unhandled : list exception) : Prop :=
  progress t' = progress t ++ take k extraction_messages /\
  console t' = console t ++
    match caught with
    | Some e => [("Audio extraction failed"%string, e)]
    | None => []
    end /\
  uncaught t' = uncaught t ++ unhandled.

(** The step of the [try] block that fails, its error, and the number of
    progress messages reported before it. *)
Definition failing_step {File : Type} (host : Host File) (videoFile : File)
    (k : nat) (e : exception) : Prop :=
  (k = 1%nat /\ new_AudioContext host = Throw e) \/
  (new_AudioContext host = Ok tt /\
   ((k = 1%nat /\ arrayBuffer host videoFile = Throw e) \/
    exists bytes, arrayBuffer host videoFile = Ok bytes /\
      ((k = 2%nat /\ decodeAudioData host bytes = Throw e) \/
       exists audioBuffer, decodeAudioData host bytes = Ok audioBuffer /\
         k = 3%nat /\ encodeWAV audioBuffer = Throw e))).

(** The blob the [try] block ends with: the encoding of what the decoder
    makes of the bytes of the file. *)
Definition encoded_blob {File : Type} (host : Host File) (videoFile : File)
    (wavBlob : Blob) : Prop :=
  new_AudioContext host = Ok tt /\
  exists bytes audioBuffer,
    arrayBuffer host videoFile = Ok bytes /\
    decodeAudioData host bytes = Ok audioBuffer /\
    encodeWAV audioBuffer = Ok wavBlob.

(** No comma occurs in the text. *)
Fixpoint comma_free (s : string) : bool :=
  match s with
  | EmptyString => true
  | String c s' => negb (Ascii.eqb c ",") && comma_free s'
  end.

(** A host on which every step succeeds. *)
Definition working_host : Host unit :=
  {| new_AudioContext := Ok tt;
     arrayBuffer := fun _ => Ok [0; 1; 2];
     decodeAudioData := fun _ => Ok half_rate_clip;
     readAsDataURL := fun _ => Ok "data:audio/wav;base64,UklGRg==" |}.

(** A host whose [FileReader] fails. *)
Definition reader_fails_host : Host unit :=
  {| new_AudioContext := Ok tt;
     arrayBuffer := fun _ => Ok [0; 1; 2];
     decodeAudioData := fun _ => Ok half_rate_clip;
     readAsDataURL := fun _ => Throw (DOMException "NotReadableError") |}.

(** ** Caption generation *)

(** The two messages reported around the model call. *)
Definition transcription_messages : list string :=
  ["Transcribing with Gemini..."; "Processing response..."]%string.

(** No hyphen occurs in the text. *)
Fixpoint hyphen_free (s : string) : bool :=
  match s with
  | EmptyString => true
  | String c s' => negb (Ascii.eqb c "-") && hyphen_free s'
  end.


Definition two_segments : list RawCaption :=
  [ {| raw_startTime := of_Z 0; raw_endTime := of_Z 1; raw_text := "kem" |};
    {| raw_startTime := of_Z 1; raw_endTime := of_Z 2; raw_text := "cho" |} ].

(** A service on which every step succeeds and the model returns two
    segments. *)
Definition working_service : Service unit :=
  {| API_KEY := Some "key"%string;
     new_GoogleGenAI := Ok tt;
     browser := working_host;
     generateContent := fun _ _ => Ok {| response_text := Some "[...]"%string |};
     JSON_parse := fun _ => Ok two_segments;
     Date_now := fun _ => 1700000000000%N |}.



(** The same service on a browser that cannot read the file. *)
Definition unreadable_service : Service unit :=
  {| API_KEY := Some "key"%string;
     new_GoogleGenAI := Ok tt;
     browser := unreadable_host;
     generateContent := fun _ _ => Ok {| response_text := Some "[...]"%string |};
     JSON_parse := fun _ => Ok two_segments;
     Date_now := fun _ => 1700000000000%N |}.

(** The same service on a browser whose [FileReader] fails. *)
Definition reader_fails_service : Service unit :=
  {| API_KEY := Some "key"%string;
     new_GoogleGenAI := Ok tt;
     browser := reader_fails_host;
     generateContent := fun _ _ => Ok {| response_text := Some "[...]"%string |};
     JSON_parse := fun _ => Ok two_segments;
     Date_now := fun _ => 1700000000000%N |}.

(** ** The page while captions are generated *)

(** The error text the page shows for a rejection of [generateCaptions],
    and what is left unhandled: the message of an [Error] when it has a
    non-empty one, the fixed text for an empty message and for an event,
    some non-empty text for the errors of the host, and for [null] or
    [undefined] no text at all, with a [TypeError] that nobody handles. *)
Definition shown_for (err : exception) (shown : option string)
    (unhandled : list exception) : Prop :=
  match err with
  | NullOrUndefined => shown = None /\ unhandled = [TypeError]
  | Error message =>
      shown = Some (if truthy message then message else generate_failed) /\
      unhandled = []
  | ProgressEvent _ => shown = Some generate_failed /\ unhandled = []
  | _ => (exists message, shown = Some message /\ truthy message = true) /\
         unhandled = []
  end.

(** The page and the trace once [handleGenerate] has settled, for a
    loaded file, against the outcome of [generateCaptions]. *)
Definition settled (before after : GenerateState) (file : File)
    (outcome : result (list Caption)) (t1 t' : trace) : Prop :=
  isProcessing after = false /\
  progressStatus after = EmptyString /\
  videoFile (page after) = Some file /\
  videoUrl (page after) = videoUrl (page before) /\
  progress t' = progress t1 /\
  console t' = console t1 /\
  match outcome with
  | Ok generatedCaptions =>
      captions (page after) = generatedCaptions /\ error (page after) = None /\
      uncaught t' = uncaught t1
  | Throw err =>
      captions (page after) = captions (page before) /\
      exists unhandled,
        shown_for err (error (page after)) unhandled /\
        uncaught t' = uncaught t1 ++ unhandled
  end.

(** A page holding [small_file] and no captions. *)
Definition ready_state : GenerateState :=
  {| page := {| videoFile := Some small_file; videoUrl := Some "blob:0"%string;
                captions := []; error := None |};
     isProcessing := false;
     progressStatus := EmptyString;
     spokenLanguage := SpokenLanguage.AUTO;
     outputFormat := CaptionOutputFormat.ENGLISH |}.

(** The services above, for the files of the page. *)
Definition for_files (service : Service unit) : Service File :=
  {| API_KEY := API_KEY service;
     new_GoogleGenAI := new_GoogleGenAI service;
     browser :=
       {| new_AudioContext := new_AudioContext (browser service);
          arrayBuffer := fun _ => arrayBuffer (browser service) tt;
          decodeAudioData := decodeAudioData (browser service);
          readAsDataURL := readAsDataURL (browser service) |};
     generateContent := generateContent service;
     JSON_parse := JSON_parse service;
     Date_now := Date_now service |}.

(** A host that reports no message for its exceptions. *)
Definition no_message (e : exception) : option string := None.

(** ** Captions on screen *)

Definition first_caption : Caption :=
  {| id := "cap-0"; startTime := of_Z 1; endTime := of_Z 2; text := "helo" |}.

Definition second_caption : Caption :=
  {| id := "cap-1"; startTime := of_Z 2; endTime := of_Z 3; text := "world" |}.

Definition third_caption : Caption :=
  {| id := "cap-2"; startTime := of_Z 3; endTime := of_Z 4; text := "again" |}.

Definition first_video : Video :=
  {| video_currentTime := of_Z 1; video_duration := of_Z 10 |}.

(** A player that shows [first_caption]. *)
Definition showing_first : PlayerState :=
  {| isPlaying := true; currentCaption := Some first_caption;
     player_progress := of_Z 0; aspectRatio := None; isDragging := false |}.

(** A percentage: a Number between 0 and 100. *)
Definition is_percentage (x : number) : bool :=
  SFleb (of_Z 0) x && SFleb x (of_Z 100).

(** A coordinate of the caption position is a percentage, or NaN where
    the quotient computed from the pointer was NaN. *)
Definition within_frame (computed clamped : number) : Prop :=
  match computed with
  | S754_nan => clamped = NaN
  | _ => is_percentage clamped = true
  end.

(** ** Export at any time of the calendar *)

(** The time is a valid date value. *)
Definition valid_time (seconds : number) : bool :=
  match Date_new (mul seconds (of_Z 1000)) with
  | Some _ => true
  | None => false
  end.

Definition caption_valid (cap : Caption) : bool :=
  valid_time (startTime cap) && valid_time (endTime cap).

(** The time is a valid date value of a year from 0 to 9999. *)
Definition four_digit_year (seconds : number) : bool :=
  match Date_new (mul seconds (of_Z 1000)) with
  | Some t => (-62167219200000 <=? t) && (t <? 253402300800000)
  | None => false
  end.

Definition caption_four_digit_year (cap : Caption) : Prop :=
  four_digit_year (startTime cap) = true /\ four_digit_year (endTime cap) = true.

(** The time of day of a caption time: hours count modulo 24. *)
Definition time_of_day (seconds : number) : string :=
  srt_timestamp (milliseconds seconds mod msPerDay).

Definition time_of_day_block (index : nat) (cap : Caption) : string :=
  (Number_toString (index + 1) ++ newline
   ++ time_of_day (startTime cap) ++ " --> " ++ time_of_day (endTime cap) ++ newline
   ++ text cap ++ newline ++ newline)%string.

Fixpoint time_of_day_file_from (captions : list Caption) (index : nat) : string :=
  match captions with
  | [] => EmptyString
  | cap :: rest =>
      (time_of_day_block index cap ++ time_of_day_file_from rest (S index))%string
  end.

(** A caption 49 h 30 min into a long recording. *)
Definition third_day_caption : Caption :=
  {| id := "cap-0"; startTime := of_Z 178200; endTime := of_Z 178201; text := "late" |}.

(** ** Object URLs *)

(** The URL the browser hands out next. *)
Definition next_object_url (store : UrlStore) : string :=
  ("blob:" ++ Number_toString (next_url store))%string.

(* ================================================================== *)
(** * Part III: proofs                                                 *)
(* ================================================================== *)

(** ** The host operations on examples *)

Example Math_round_ties_up :
  Math_round half = IInt 1 /\
  Math_round (S754_finite false 5629499534213120 (-51)) = IInt 3 /\
  Math_round (S754_finite true 4503599627370496 (-53)) = IInt 0 /\
  Math_round (S754_finite true 6755399441055744 (-52)) = IInt (-1).
Proof. repeat split; reflexivity. Qed.

Example ToInt16_truncates_and_wraps :
  ToInt16 (S754_finite true 6755399441055744 (-52)) = -1 /\
  ToInt16 (of_Z 40000) = -25536 /\
  ToInt16 NaN = 0 /\
  ToInt16 (S754_infinity false) = 0.
Proof. repeat split; reflexivity. Qed.

Example ratio_of_44100 :
  map (offset_of (ratio_of (of_Z 44100))) [0; 1; 2; 3; 4]%nat
  = [IInt 0; IInt 3; IInt 6; IInt 8; IInt 11].
Proof. vm_compute. reflexivity. Qed.

Example undefined_reads_as_silence : quantize None = 0.
Proof. reflexivity. Qed.

Example toISOString_examples :
  toISOString (Some 0) = Ok "1970-01-01T00:00:00.000Z"%string /\
  toISOString (Some 951782400000) = Ok "2000-02-29T00:00:00.000Z"%string /\
  toISOString (Some (-1)) = Ok "1969-12-31T23:59:59.999Z"%string /\
  toISOString (Some 8640000000000000) = Ok "+275760-09-13T00:00:00.000Z"%string /\
  toISOString None = Throw RangeError.
Proof. repeat split; vm_compute; reflexivity. Qed.

Example too_large_message_text :
  too_large_message = "File is too large. Max size is 500MB."%string.
Proof. reflexivity. Qed.

(** ** Exact rounding

    The arithmetic of the encoder is exact whenever its operands are
    small integers or [Float32Array] values: the rounding step of
    [SFmul] and [SFdiv] returns a result that is already a binary64
    number unchanged. *)

Section Rounding.

Lemma digits2_pos_size (p : positive) : digits2_pos p = Pos.size p.
Proof. induction p as [p IH | p IH |]; simpl; congruence. Qed.

Lemma size_log2 (p : positive) : Zpos (Pos.size p) = Z.log2 (Zpos p) + 1.
Proof. destruct p as [p | p |]; simpl; lia. Qed.

Lemma digits_log2 (p : positive) : Zpos (digits2_pos p) = Z.log2 (Zpos p) + 1.
Proof. rewrite digits2_pos_size. apply size_log2. Qed.

Lemma iter_pos_nat {A : Type} (f : A -> A) (p : positive) (x : A) :
  SpecFloat.iter_pos f p x = Nat.iter (Pos.to_nat p) f x.
Proof.
  revert x. induction p as [p IH | p IH |]; intros x.
  - change (SpecFloat.iter_pos f p~1 x)
      with (SpecFloat.iter_pos f p (SpecFloat.iter_pos f p (f x))).
    rewrite !IH, Pos2Nat.inj_xI.
    replace (S (2 * Pos.to_nat p)) with (Pos.to_nat p + S (Pos.to_nat p))%nat by lia.
    rewrite Nat.iter_add, Nat.iter_succ_r. reflexivity.
  - change (SpecFloat.iter_pos f p~0 x)
      with (SpecFloat.iter_pos f p (SpecFloat.iter_pos f p x)).
    rewrite !IH, Pos2Nat.inj_xO.
    replace (2 * Pos.to_nat p)%nat with (Pos.to_nat p + Pos.to_nat p)%nat by lia.
    rewrite Nat.iter_add. reflexivity.
  - reflexivity.
Qed.

Lemma iter_xO_value (k : nat) (m : positive) :
  Zpos (Nat.iter k xO m) = Zpos m * 2 ^ Z.of_nat k.
Proof.
  induction k as [| k IH].
  - simpl. lia.
  - rewrite Nat2Z.inj_succ, Z.pow_succ_r by lia. simpl Nat.iter.
    rewrite Pos2Z.inj_xO, IH. lia.
Qed.

Lemma iter_shr_1_xO (k : nat) (m : positive) :
  Nat.iter k shr_1 (Build_shr_record (Zpos (Nat.iter k xO m)) false false)
  = Build_shr_record (Zpos m) false false.
Proof.
  induction k as [| k IH]; [reflexivity |].
  rewrite Nat.iter_succ_r. simpl. exact IH.
Qed.

Lemma shr_exact (k : nat) (m : positive) (e : Z) :
  shr (Build_shr_record (Zpos (Nat.iter k xO m)) false false) e (Z.of_nat k)
  = (Build_shr_record (Zpos m) false false, e + Z.of_nat k).
Proof.
  destruct k as [| k].
  - simpl. f_equal. lia.
  - unfold shr. change (Z.of_nat (S k)) with (Zpos (Pos.of_succ_nat k)).
    cbv beta iota. rewrite iter_pos_nat, SuccNat2Pos.id_succ, iter_shr_1_xO. reflexivity.
Qed.

(** A product or quotient whose exact value [m * 2^e] is already a
    canonical binary64 number is returned unchanged by the rounding
    step. *)
Lemma round_aux_exact (s : bool) (m : positive) (e : Z) (k : nat) :
  canonical_mantissa prec emax m e = true ->
  e <= emax - prec ->
  binary_round_aux prec emax s (Zpos (Nat.iter k xO m)) (e - Z.of_nat k) loc_Exact
  = S754_finite s m e.
Proof.
  intros Hcan Hmax.
  unfold canonical_mantissa in Hcan. apply Z.eqb_eq in Hcan.
  unfold binary_round_aux, shr_fexp.
  assert (Hd : Zdigits2 (Zpos (Nat.iter k xO m)) = Zpos (digits2_pos m) + Z.of_nat k).
  { simpl. rewrite !digits_log2, iter_xO_value.
    rewrite Z.log2_mul_pow2 by lia. lia. }
  rewrite Hd.
  replace (Zpos (digits2_pos m) + Z.of_nat k + (e - Z.of_nat k))
    with (Zpos (digits2_pos m) + e) by lia.
  rewrite Hcan.
  replace (e - (e - Z.of_nat k)) with (Z.of_nat k) by lia.
  simpl shr_record_of_loc. rewrite shr_exact.
  replace (e - Z.of_nat k + Z.of_nat k) with e by lia.
  simpl. rewrite Hcan, Z.sub_diag. simpl.
  apply Z.leb_le in Hmax. rewrite Hmax. reflexivity.
Qed.

Lemma round_aux_exact_Z (s : bool) (M m : positive) (E e k : Z) :
  Zpos M = Zpos m * 2 ^ k -> 0 <= k -> E = e - k ->
  canonical_mantissa prec emax m e = true ->
  e <= emax - prec ->
  binary_round_aux prec emax s (Zpos M) E loc_Exact = S754_finite s m e.
Proof.
  intros HM Hk -> Hcan Hmax.
  assert (Hn : exists n, k = Z.of_nat n) by (exists (Z.to_nat k); lia).
  destruct Hn as [n ->].
  rewrite <- iter_xO_value in HM. injection HM as ->.
  apply round_aux_exact; assumption.
Qed.

Lemma normal_canonical (m : positive) (e : Z) :
  Z.log2 (Zpos m) = 52 -> -1074 <= e ->
  canonical_mantissa prec emax m e = true.
Proof.
  intros Hm He. unfold canonical_mantissa, fexp, SpecFloat.emin, prec, emax.
  rewrite digits_log2, Hm. apply Z.eqb_eq. lia.
Qed.

Lemma round_aux_normal (s : bool) (M m : positive) (E e k : Z) :
  Zpos M = Zpos m * 2 ^ k -> 0 <= k -> E = e - k -> normal m e ->
  binary_round_aux prec emax s (Zpos M) E loc_Exact = S754_finite s m e.
Proof.
  intros HM Hk HE [Hm He].
  apply (round_aux_exact_Z s M m E e k); auto.
  - apply normal_canonical; lia.
  - unfold emax, prec. lia.
Qed.

Lemma iter_xO_pos (p q : positive) :
  Zpos (Pos.iter xO p q) = Zpos p * 2 ^ Zpos q.
Proof.
  change (Pos.iter xO p q) with (shift_pos q p).
  rewrite shift_pos_correct. change (Z.pow_pos 2 q) with (2 ^ Zpos q). lia.
Qed.

(** Integers below 2^53 are Numbers: the conversion is exact. *)
Lemma of_Z_pos (n : Z) :
  0 < n < 2 ^ 53 ->
  exists m e, of_Z n = S754_finite false m e /\ normal m e /\
              -52 <= e <= 0 /\ Zpos m = n * 2 ^ (- e).
Proof.
  intros [Hpos Hlt].
  destruct n as [| p | p]; try lia.
  assert (Hd : 0 <= Z.log2 (Zpos p) <= 52).
  { split; [apply Z.log2_nonneg |].
    assert (Z.log2 (Zpos p) < 53) by (apply Z.log2_lt_pow2; lia). lia. }
  unfold of_Z, binary_normalize, binary_round.
  assert (Hf : fexp prec emax (Zpos (digits2_pos p) + 0) = Z.log2 (Zpos p) - 52).
  { unfold fexp, SpecFloat.emin, prec, emax. rewrite digits_log2. lia. }
  rewrite Hf. unfold shl_align.
  destruct (Z.log2 (Zpos p) - 52 - 0) as [| q | q] eqn:Hq; try lia.
  - exists p, 0.
    assert (Hn : normal p 0) by (unfold normal; lia).
    replace (Z.log2 (Zpos p) - 52) with 0 by lia.
    split; [| split; [exact Hn | split; [lia | simpl; lia]]].
    apply (round_aux_normal false p p 0 0 0); auto; simpl; lia.
  - exists (Pos.iter xO p q), (Z.log2 (Zpos p) - 52).
    assert (Hv := iter_xO_pos p q).
    assert (Hn : normal (Pos.iter xO p q) (Z.log2 (Zpos p) - 52)).
    { unfold normal. rewrite Hv, Z.log2_mul_pow2 by lia. lia. }
    split; [| split; [exact Hn | split; [lia |]]].
    + apply (round_aux_normal false _ _ _ _ 0); auto; simpl; lia.
    + rewrite Hv. f_equal. f_equal. lia.
Qed.

Lemma of_Z_1 : of_Z 1 = one.
Proof. reflexivity. Qed.

Lemma div_eucl_exact (a b q : Z) :
  0 < b -> a = q * b -> Z.div_eucl a b = (q, 0).
Proof.
  intros Hb Ha.
  assert (H := Z_div_mod a b ltac:(lia)).
  destruct (Z.div_eucl a b) as [q' r]. destruct H as [H1 H2].
  assert (q' = q) by nia. subst q'. f_equal. nia.
Qed.

Lemma div_one (s : bool) (m : positive) (e : Z) :
  normal m e -> -1074 < e -> div (S754_finite s m e) one = S754_finite s m e.
Proof.
  intros [Hm He] Hmin. unfold div, one, SFdiv, SFdiv_core_binary.
  cbn [Zdigits2]. rewrite digits_log2, Hm.
  change (Z.pos (digits2_pos 4503599627370496)) with 53.
  assert (He' : Z.min (fexp prec emax (52 + 1 + e - (53 + -52))) (e - -52) = e - 1).
  { unfold fexp, SpecFloat.emin, prec, emax. lia. }
  rewrite He'. replace (e - -52 - (e - 1)) with 53 by lia.
  rewrite Z.shiftl_mul_pow2 by lia.
  rewrite (div_eucl_exact _ _ (Zpos m~0)) by lia.
  rewrite xorb_false_r.
  apply (round_aux_normal s _ m _ e 1); unfold normal; auto; lia.
Qed.

Lemma round_half_up_scaled (n e : Z) (m : positive) :
  e <= 0 -> Zpos m = n * 2 ^ (- e) -> round_half_up false m e = n.
Proof.
  intros He Hm. unfold round_half_up, cond_Zopp.
  destruct (0 <=? e) eqn:H0.
  - apply Z.leb_le in H0. replace e with 0 in * by lia. simpl in Hm. lia.
  - apply Z.leb_gt in H0.
    replace (1 - e) with (Z.succ (- e)) by lia.
    rewrite Z.pow_succ_r by lia. rewrite Hm.
    assert (0 < 2 ^ (- e)) by (apply Z.pow_pos_nonneg; lia).
    symmetry. apply (Z.div_unique _ _ n (2 ^ (- e))); lia.
Qed.

Lemma Math_round_of_Z (n : Z) :
  0 <= n < 2 ^ 53 -> Math_round (of_Z n) = IInt n.
Proof.
  intros Hn. destruct (Z.eq_dec n 0) as [-> | Hne]; [reflexivity |].
  destruct (of_Z_pos n) as (m & e & -> & _ & He & Hm); [lia |].
  simpl. f_equal. apply round_half_up_scaled; [lia | exact Hm].
Qed.

Lemma div_of_Z_one (n : Z) : 0 <= n < 2 ^ 53 -> div (of_Z n) one = of_Z n.
Proof.
  intros Hn. destruct (Z.eq_dec n 0) as [-> | Hne]; [reflexivity |].
  destruct (of_Z_pos n) as (m & e & -> & Hnorm & He & _); [lia |].
  apply div_one; [exact Hnorm | lia].
Qed.

End Rounding.

Section Products.

Lemma of_Z_exponent (n e : Z) (m : positive) :
  0 < n -> Z.log2 (Zpos m) = 52 -> e <= 0 -> Zpos m = n * 2 ^ (- e) ->
  e = Z.log2 n - 52.
Proof.
  intros Hn Hm He Hv. rewrite Hv, Z.log2_mul_pow2 in Hm by lia. lia.
Qed.

(** Products of non-negative integers below 2^53 are exact. *)
Lemma mul_of_Z (a b : Z) :
  0 <= a < 2 ^ 53 -> 0 <= b < 2 ^ 53 -> a * b < 2 ^ 53 ->
  mul (of_Z a) (of_Z b) = of_Z (a * b).
Proof.
  intros Ha Hb Hab.
  destruct (Z.eq_dec a 0) as [-> | Ha0].
  { destruct (Z.eq_dec b 0) as [-> | Hb0]; [reflexivity |].
    destruct (of_Z_pos b) as (mb & eb & -> & _); [lia | reflexivity]. }
  destruct (Z.eq_dec b 0) as [-> | Hb0].
  { rewrite Z.mul_0_r.
    destruct (of_Z_pos a) as (ma & ea & -> & _); [lia | reflexivity]. }
  assert (Hlt : 0 < a * b) by nia.
  destruct (of_Z_pos a) as (ma & ea & -> & [Hla _] & Hea & Hma); [nia |].
  destruct (of_Z_pos b) as (mb & eb & -> & [Hlb _] & Heb & Hmb); [nia |].
  destruct (of_Z_pos (a * b)) as (mc & ec & -> & Hnc & Hec & Hmc); [lia |].
  pose proof (of_Z_exponent a ea ma ltac:(lia) Hla ltac:(lia) Hma) as Ea.
  pose proof (of_Z_exponent b eb mb ltac:(lia) Hlb ltac:(lia) Hmb) as Eb.
  pose proof (of_Z_exponent (a * b) ec mc Hlt (proj1 Hnc) ltac:(lia) Hmc) as Ec.
  pose proof (Z.log2_mul_below a b ltac:(lia) ltac:(lia)) as Hlog.
  unfold mul, SFmul. cbn [xorb].
  apply (round_aux_normal false _ mc _ ec (ec - ea - eb)); [| lia | lia | exact Hnc].
  rewrite Pos2Z.inj_mul, Hma, Hmb, Hmc.
  replace (a * 2 ^ (- ea) * (b * 2 ^ (- eb)))
    with (a * b * (2 ^ (- ea) * 2 ^ (- eb))) by ring.
  rewrite <- (Z.mul_assoc (a * b)), <- !Z.pow_add_r by lia.
  do 2 f_equal. lia.
Qed.

End Products.

(** ** The resampling loop and the buffer writes *)

Section Loop.
Variable f : nat -> Z.

Lemma store_loop_from (k a : nat) (acc : list Z) :
  length acc = (a + k)%nat ->
  fold_left (fun r i => <[ i := f i ]> r) (seq a k) acc
  = take a acc ++ map f (seq a k).
Proof.
  revert a acc. induction k as [| k IH]; intros a acc Hlen.
  - simpl. rewrite take_ge by lia. symmetry. apply app_nil_r.
  - simpl. rewrite IH by (rewrite length_insert; lia).
    rewrite (take_S_r _ _ (f a)).
    + rewrite take_insert_ge by lia. rewrite <- app_assoc. reflexivity.
    + apply list_lookup_insert_eq. lia.
Qed.

Lemma store_loop (n : nat) :
  fold_left (fun r i => <[ i := f i ]> r) (seq 0 n) (replicate n 0)
  = map f (seq 0 n).
Proof. rewrite store_loop_from by (rewrite length_replicate; lia). reflexivity. Qed.
End Loop.

Lemma resample_loop_spec (oldData : list number) (ratio : number) (n : Z) :
  resample_loop oldData ratio (IInt n) (replicate (Z.to_nat n) 0)
  = map (fun i => quantize (typed_get oldData (offset_of ratio i))) (seq 0 (Z.to_nat n)).
Proof.
  unfold resample_loop, iterations.
  exact (store_loop (fun i => quantize (typed_get oldData (offset_of ratio i))) (Z.to_nat n)).
Qed.

Lemma resample_ok (audioBuffer : AudioBuffer) (oldData : list number)
    (ratio : number) (n : Z) :
  getChannelData audioBuffer 0 = Ok oldData ->
  ratio_of (buffer_sampleRate audioBuffer) = ratio ->
  newLength_of oldData ratio = IInt n ->
  0 <= n -> 2 * n <= MAX_SAFE_INTEGER ->
  resample audioBuffer
  = Ok (map (fun i => quantize (typed_get oldData (offset_of ratio i)))
            (seq 0 (Z.to_nat n))).
Proof.
  intros Hch Hratio Hlen Hn Hmax. unfold resample. rewrite Hch.
  cbn [mbind result_bind bind].
  rewrite Hratio, Hlen. unfold new_Int16Array, ToIndex.
  replace ((0 <=? n) && (n <=? MAX_SAFE_INTEGER)) with true
    by (symmetry; apply andb_true_iff; split; apply Z.leb_le; lia).
  cbn [bind].
  replace (2 * n <=? MAX_SAFE_INTEGER) with true by (symmetry; apply Z.leb_le; lia).
  cbn [mbind result_bind bind]. rewrite resample_loop_spec. reflexivity.
Qed.

Section Buffers.

Lemma write_at_spec (bs buf : list byte) (off : nat) :
  (off + length bs <= length buf)%nat ->
  write_at buf off bs = take off buf ++ bs ++ drop (off + length bs) buf.
Proof.
  revert buf off. induction bs as [| b bs IH]; intros buf off Hlen.
  - simpl. rewrite Nat.add_0_r, take_drop. reflexivity.
  - simpl in *. rewrite IH by (rewrite length_insert; lia).
    rewrite (take_S_r _ _ b) by (apply list_lookup_insert_eq; lia).
    rewrite take_insert_ge by lia.
    rewrite drop_insert_lt by lia.
    rewrite <- app_assoc. simpl. rewrite Nat.add_succ_r. reflexivity.
Qed.

Lemma write_at_length (bs buf : list byte) (off : nat) :
  length (write_at buf off bs) = length buf.
Proof.
  revert buf off. induction bs as [| b bs IH]; intros buf off; simpl; [reflexivity |].
  rewrite IH. apply length_insert.
Qed.

Lemma write_at_prefix (bs h t : list byte) (off : nat) :
  (off + length bs <= length h)%nat ->
  write_at (h ++ t) off bs = write_at h off bs ++ t.
Proof.
  intros Hlen. rewrite !write_at_spec by (rewrite ?length_app; lia).
  rewrite take_app_le by lia. rewrite drop_app_le by lia.
  rewrite <- !app_assoc. reflexivity.
Qed.

Lemma checked_write_prefix (h t : list byte) (off : Z) (bs : list byte) :
  0 <= off -> off + Z.of_nat (length bs) <= Z.of_nat (length h) ->
  checked_write (h ++ t) off bs = Ok (write_at h (Z.to_nat off) bs ++ t).
Proof.
  intros H0 Hlen. unfold checked_write.
  replace ((0 <=? off) && _) with true.
  - rewrite write_at_prefix by lia. reflexivity.
  - symmetry. apply andb_true_iff. split; apply Z.leb_le; [lia |].
    rewrite length_app. lia.
Qed.

Lemma checked_write_suffix (h t bs : list byte) :
  length bs = length t ->
  checked_write (h ++ t) (Z.of_nat (length h)) bs = Ok (h ++ bs).
Proof.
  intros Hlen. unfold checked_write.
  replace ((0 <=? Z.of_nat (length h)) && _) with true.
  - rewrite Nat2Z.id, write_at_spec by (rewrite length_app; lia).
    rewrite take_app_length.
    rewrite drop_ge by (rewrite length_app; lia).
    rewrite app_nil_r. reflexivity.
  - symmetry. apply andb_true_iff. split; apply Z.leb_le; [lia |].
    rewrite length_app. lia.
Qed.

End Buffers.

Lemma length_uint32_le (v : Z) : length (uint32_le v) = 4%nat.
Proof. reflexivity. Qed.

Lemma length_uint16_le (v : Z) : length (uint16_le v) = 2%nat.
Proof. reflexivity. Qed.

Ltac header_write :=
  rewrite checked_write_prefix
    by (rewrite ?write_at_length, ?length_uint32_le, ?length_uint16_le; cbn; lia);
  cbn [mbind result_bind bind].

Lemma write_header_spec (t : list byte) (n : Z) :
  write_header (replicate 44 0 ++ t) n = Ok (wav_header n ++ t).
Proof.
  unfold write_header, writeString, writeString_from, setUint32, setUint16, setUint8.
  cbn [mbind result_bind bind].
  repeat header_write.
  reflexivity.
Qed.

Lemma length_wav_header (n : Z) : length (wav_header n) = 44%nat.
Proof. reflexivity. Qed.

Lemma length_Int16Array_buffer (a : list Z) :
  Z.of_nat (length (Int16Array_buffer a)) = byteLength a.
Proof.
  unfold byteLength, Int16Array_buffer.
  induction a as [| x a IH]; simpl in *; lia.
Qed.

(** The blob is the canonical header followed by the samples. *)
Lemma encode_samples_spec (resultData : list Z) :
  44 + byteLength resultData <= MAX_SAFE_INTEGER ->
  encode_samples resultData
  = Ok {| blob_bytes := wav_header (byteLength resultData) ++ Int16Array_buffer resultData;
          blob_type := "audio/wav" |}.
Proof.
  intros Hmax. unfold encode_samples, new_ArrayBuffer, ToIndex.
  assert (H0 : 0 <= byteLength resultData) by (unfold byteLength; lia).
  replace ((0 <=? 44 + byteLength resultData) && _) with true
    by (symmetry; apply andb_true_iff; split; apply Z.leb_le; lia).
  cbn [mbind result_bind bind].
  replace (Z.to_nat (44 + byteLength resultData))
    with (44 + Z.to_nat (byteLength resultData))%nat by lia.
  rewrite replicate_add, write_header_spec.
  cbn [mbind result_bind bind]. unfold Uint8Array_set.
  change 44 with (Z.of_nat (length (wav_header (byteLength resultData)))).
  rewrite checked_write_suffix; [reflexivity |].
  rewrite length_replicate. pose proof (length_Int16Array_buffer resultData). lia.
Qed.

(** ** Resampling at integer ratios *)

Section Resampling.

Lemma offset_of_integer_ratio (r : Z) (i : nat) :
  0 < r < 2 ^ 53 -> Z.of_nat i * r < 2 ^ 53 ->
  offset_of (of_Z r) i = IInt (Z.of_nat i * r).
Proof.
  intros Hr Hi. unfold offset_of.
  assert (Z.of_nat i <= Z.of_nat i * r) by nia.
  rewrite mul_of_Z by lia. apply Math_round_of_Z. lia.
Qed.

Lemma typed_get_index (a : list number) (i : nat) :
  typed_get a (IInt (Z.of_nat i)) = a !! i.
Proof.
  unfold typed_get. replace (0 <=? Z.of_nat i) with true by (symmetry; apply Z.leb_le; lia).
  rewrite Nat2Z.id. reflexivity.
Qed.

Lemma map_seq_const {A : Type} (f : nat -> A) (c : A) (n : nat) :
  (forall i, (i < n)%nat -> f i = c) -> map f (seq 0 n) = replicate n c.
Proof.
  intros Hf. apply list_eq. intros i.
  change (map f (seq 0 n)) with (f <$> seq 0 n). rewrite list_lookup_fmap.
  destruct (decide (i < n)%nat) as [Hi | Hi].
  - rewrite lookup_seq_lt, lookup_replicate_2 by lia. simpl. f_equal. apply Hf. lia.
  - rewrite lookup_seq_ge by lia. symmetry. apply lookup_replicate_None. lia.
Qed.

Lemma map_seq_lookup {A B : Type} (f : nat -> B) (g : A -> B) (l : list A) :
  (forall i x, l !! i = Some x -> f i = g x) ->
  map f (seq 0 (length l)) = map g l.
Proof.
  intros Hf. apply list_eq. intros i.
  change (map f (seq 0 (length l))) with (f <$> seq 0 (length l)).
  change (map g l) with (g <$> l). rewrite !list_lookup_fmap.
  destruct (l !! i) as [x |] eqn:Hx.
  - rewrite lookup_seq_lt by (apply lookup_lt_Some in Hx; lia).
    simpl. f_equal. apply (Hf i x Hx).
  - rewrite lookup_seq_ge by (apply lookup_ge_None in Hx; lia). reflexivity.
Qed.

Lemma ratio_16000 : ratio_of (of_Z 16000) = of_Z 1.
Proof. reflexivity. Qed.

Lemma newLength_ratio_one (oldData : list number) :
  Z.of_nat (length oldData) < 2 ^ 53 ->
  newLength_of oldData (of_Z 1) = IInt (Z.of_nat (length oldData)).
Proof.
  intros Hlen. unfold newLength_of. rewrite of_Z_1, div_of_Z_one by lia.
  apply Math_round_of_Z. lia.
Qed.

End Resampling.

Lemma Int16Array_buffer_lookup (a : list Z) (i : nat) (x : Z) :
  a !! i = Some x ->
  Int16Array_buffer a !! (2 * i)%nat = Some ((x mod 2 ^ 16) mod 256) /\
  Int16Array_buffer a !! (2 * i + 1)%nat = Some ((x mod 2 ^ 16) / 256).
Proof.
  revert i. induction a as [| y a IH]; intros i Hi; [discriminate |].
  destruct i as [| i].
  - injection Hi as ->. split; reflexivity.
  - replace (2 * S i)%nat with (S (S (2 * i))) by lia.
    apply (IH i Hi).
Qed.

Lemma scenario_A_resample :
  resample scenario_A = Ok (replicate (Z.to_nat 16000) 16383).
Proof.
  rewrite (resample_ok scenario_A (replicate (Z.to_nat 48000) half) (of_Z 3) 16000).
  - apply (f_equal Ok). apply map_seq_const. intros i Hi.
    rewrite offset_of_integer_ratio by lia.
    replace (Z.of_nat i * 3) with (Z.of_nat (i * 3)) by lia.
    rewrite typed_get_index, lookup_replicate_2 by lia. reflexivity.
  - reflexivity.
  - reflexivity.
  - unfold newLength_of. rewrite length_replicate. vm_compute. reflexivity.
  - discriminate.
  - vm_compute. discriminate.
Qed.

(** Claim C4.  For one second of a constant 0.5 at 48 kHz on one channel,
    the ratio is 48000 / 16000 = 3, [newLength] is [round (48000 / 3)] =
    16000 and every output sample is 16383, in the [Int16Array] and in the
    blob: the blob is the header for a payload of 32000 bytes followed by
    the 32000 bytes of the samples, each sample being the two bytes 255
    and 63 (16383 in little-endian order), 32044 bytes in all. *)
Theorem scenario_A_end_to_end :
  ratio_of (buffer_sampleRate scenario_A) = div (of_Z 48000) (of_Z 16000) /\
  ratio_of (buffer_sampleRate scenario_A) = of_Z 3 /\
  newLength_of (replicate (Z.to_nat 48000) half) (of_Z 3) = IInt 16000 /\
  resample scenario_A = Ok (replicate (Z.to_nat 16000) 16383) /\
  exists blob, encodeWAV scenario_A = Ok blob /\
    Z.of_nat (length (payload blob)) = 32000 /\
    Z.of_nat (length (blob_bytes blob)) = 32044 /\
    blob_type blob = "audio/wav"%string /\
    take 44 (blob_bytes blob) = wav_header 32000 /\
    payload blob = Int16Array_buffer (replicate (Z.to_nat 16000) 16383) /\
    forall i, (i < Z.to_nat 16000)%nat ->
      payload blob !! (2 * i)%nat = Some 255 /\
      payload blob !! (2 * i + 1)%nat = Some 63.
Proof.
  split; [reflexivity |]. split; [reflexivity |].
  split; [unfold newLength_of; rewrite length_replicate; vm_compute; reflexivity |].
  split; [exact scenario_A_resample |].
  unfold encodeWAV. rewrite scenario_A_resample. cbn [mbind result_bind bind].
  rewrite encode_samples_spec
    by (unfold byteLength; rewrite length_replicate; vm_compute; discriminate).
  eexists. split; [reflexivity |].
  unfold payload. cbn [blob_bytes blob_type].
  rewrite drop_app_length' by reflexivity.
  rewrite length_app, Nat2Z.inj_add, length_Int16Array_buffer.
  unfold byteLength. rewrite length_replicate.
  split; [reflexivity |]. split; [reflexivity |]. split; [reflexivity |].
  split; [apply take_app_length'; reflexivity |].
  split; [reflexivity |].
  intros i Hi.
  apply (Int16Array_buffer_lookup _ i 16383).
  apply lookup_replicate_2. exact Hi.
Qed.

Lemma resample_native_rate (audioBuffer : AudioBuffer) (oldData : list number) :
  buffer_sampleRate audioBuffer = of_Z 16000 ->
  getChannelData audioBuffer 0 = Ok oldData ->
  Float32Array_fits oldData ->
  resample audioBuffer = Ok (map (fun x => quantize (Some x)) oldData).
Proof.
  intros Hrate Hch Hmax. unfold Float32Array_fits, MAX_SAFE_INTEGER in Hmax.
  rewrite (resample_ok audioBuffer oldData (of_Z 1) (Z.of_nat (length oldData)) Hch);
    [| rewrite Hrate; exact ratio_16000 | apply newLength_ratio_one; lia
     | lia | unfold MAX_SAFE_INTEGER; lia].
  apply (f_equal Ok). rewrite Nat2Z.id.
  apply map_seq_lookup. intros i x Hx.
  apply lookup_lt_Some in Hx as Hi.
  rewrite offset_of_integer_ratio by lia.
  rewrite Z.mul_1_r, typed_get_index, Hx. reflexivity.
Qed.

(** Claim C5.  When the source sample rate is 16000, resampling is the
    identity on sample positions: [newLength] is the source frame count
    and the output sample at every index is the quantization of the
    input sample at that index.  (The samples are a [Float32Array], whose
    buffer has at most 2^53 - 1 bytes.) *)
Theorem native_rate_is_identity (audioBuffer : AudioBuffer) (oldData : list number) :
  buffer_sampleRate audioBuffer = of_Z 16000 ->
  getChannelData audioBuffer 0 = Ok oldData ->
  Float32Array_fits oldData ->
  newLength_of oldData (ratio_of (buffer_sampleRate audioBuffer))
    = IInt (Z.of_nat (length oldData)) /\
  exists resultData,
    resample audioBuffer = Ok resultData /\
    length resultData = length oldData /\
    forall i, resultData !! i = (fun x => quantize (Some x)) <$> oldData !! i.
Proof.
  intros Hrate Hch Hmax. split.
  - rewrite Hrate, ratio_16000. apply newLength_ratio_one.
    unfold Float32Array_fits, MAX_SAFE_INTEGER in Hmax. lia.
  - exists (map (fun x => quantize (Some x)) oldData).
    split; [apply resample_native_rate; assumption |].
    split; [apply length_map | intros i; apply list_lookup_fmap].
Qed.

Lemma native_rate_is_identity_witness :
  newLength_of [half; of_Z 1] (ratio_of (of_Z 16000)) = IInt 2 /\
  exists resultData,
    resample stereo_1 = Ok resultData /\
    length resultData = 2%nat /\
    forall i, resultData !! i = (fun x => quantize (Some x)) <$> [half; of_Z 1] !! i.
Proof.
  apply (native_rate_is_identity stereo_1 [half; of_Z 1]).
  - reflexivity.
  - reflexivity.
  - vm_compute. discriminate.
Defined.

Lemma newLength_of_empty (ratio : number) :
  newLength_of [] ratio = IInt 0 \/ newLength_of [] ratio = INaN.
Proof. destruct ratio as [s | s | | s m e]; simpl; auto. Qed.

Lemma resample_empty (rate : number) (others : list (list number)) :
  resample {| buffer_sampleRate := rate; buffer_channels := [] :: others |} = Ok [].
Proof.
  unfold resample, getChannelData. cbn [buffer_channels buffer_sampleRate lookup list_lookup].
  cbn [mbind result_bind bind].
  destruct (newLength_of_empty (ratio_of rate)) as [-> | ->]; reflexivity.
Qed.

(** Claim C6.  For an input without frames, at any source sample rate and
    with any other channels, the encoder returns a blob of exactly 44
    bytes: no payload, and the size fields at bytes 4-7 and 40-43 hold 36
    and 0. *)
Theorem empty_audio_gives_bare_header (rate : number) (others : list (list number)) :
  exists blob,
    encodeWAV {| buffer_sampleRate := rate; buffer_channels := [] :: others |} = Ok blob /\
    length (blob_bytes blob) = 44%nat /\
    payload blob = [] /\
    getUint32 (blob_bytes blob) 4 = Some 36 /\
    getUint32 (blob_bytes blob) 40 = Some 0.
Proof.
  unfold encodeWAV. rewrite resample_empty. cbn [mbind result_bind bind].
  eexists. split; [reflexivity |]. repeat split; reflexivity.
Qed.

(** Claim C7.  The output depends on channel 0 only: two inputs with the
    same sample rate and the same channel 0 are encoded to the same bytes,
    whatever their other channels hold. *)
Theorem only_channel_0_matters (a b : AudioBuffer) :
  buffer_sampleRate a = buffer_sampleRate b ->
  getChannelData a 0 = getChannelData b 0 ->
  encodeWAV a = encodeWAV b.
Proof.
  intros Hrate Hch. unfold encodeWAV, resample. rewrite Hrate, Hch. reflexivity.
Qed.

Lemma only_channel_0_matters_witness :
  buffer_channels stereo_1 <> buffer_channels stereo_2 /\
  encodeWAV stereo_1 = encodeWAV stereo_2.
Proof.
  split; [discriminate |].
  apply (only_channel_0_matters stereo_1 stereo_2); reflexivity.
Defined.

Lemma typed_get_out_of_range (a : list number) (offset : integral) :
  offset_out_of_range offset (length a) -> typed_get a offset = None.
Proof.
  destruct offset as [| s | z]; simpl; try reflexivity.
  intros Hz. destruct (0 <=? z); [| reflexivity].
  apply lookup_ge_None. lia.
Qed.

Lemma encodeWAV_ok (audioBuffer : AudioBuffer) (resultData : list Z) :
  resample audioBuffer = Ok resultData ->
  44 + byteLength resultData <= MAX_SAFE_INTEGER ->
  encodeWAV audioBuffer
  = Ok {| blob_bytes := wav_header (byteLength resultData) ++ Int16Array_buffer resultData;
          blob_type := "audio/wav" |}.
Proof.
  intros Hr Hmax. unfold encodeWAV. rewrite Hr. cbn [mbind result_bind bind].
  apply encode_samples_spec, Hmax.
Qed.

(** Claim C2.  For every output index [i] below [newLength] whose source
    offset [round (i * ratio)] is at or beyond the source frame count, the
    read yields [undefined], the stored sample is 0, and the encoder
    returns its blob with two zero bytes for that sample. *)
Theorem out_of_range_offset_is_silence
    (audioBuffer : AudioBuffer) (oldData : list number) (n : Z) (i : nat) :
  let ratio := ratio_of (buffer_sampleRate audioBuffer) in
  getChannelData audioBuffer 0 = Ok oldData ->
  newLength_of oldData ratio = IInt n ->
  44 + 2 * n <= MAX_SAFE_INTEGER ->
  (i < Z.to_nat n)%nat ->
  offset_out_of_range (offset_of ratio i) (length oldData) ->
  exists resultData blob,
    resample audioBuffer = Ok resultData /\
    resultData !! i = Some 0 /\
    encodeWAV audioBuffer = Ok blob /\
    payload blob !! (2 * i)%nat = Some 0 /\
    payload blob !! (2 * i + 1)%nat = Some 0.
Proof.
  intros ratio Hch Hlen Hmax Hi Hout.
  pose proof (resample_ok audioBuffer oldData ratio n Hch eq_refl Hlen) as Hr.
  specialize (Hr ltac:(lia) ltac:(unfold MAX_SAFE_INTEGER in *; lia)).
  set (resultData := map _ _) in Hr.
  assert (Hsample : resultData !! i = Some 0).
  { unfold resultData.
    change (map ?f ?l) with (f <$> l). rewrite list_lookup_fmap.
    rewrite lookup_seq_lt by lia. simpl.
    rewrite (typed_get_out_of_range _ _ Hout). reflexivity. }
  assert (Hbytes : byteLength resultData = 2 * n).
  { unfold byteLength, resultData. rewrite length_map, length_seq. lia. }
  exists resultData. eexists.
  split; [exact Hr |]. split; [exact Hsample |].
  split; [apply (encodeWAV_ok _ _ Hr); lia |].
  unfold payload. cbn [blob_bytes].
  rewrite drop_app_length' by reflexivity.
  apply (Int16Array_buffer_lookup _ _ _ Hsample).
Qed.

Lemma out_of_range_offset_is_silence_witness :
  offset_of (ratio_of (of_Z 8000)) 1 = IInt 1 /\
  exists resultData blob,
    resample half_rate_clip = Ok resultData /\
    resultData !! 1%nat = Some 0 /\
    encodeWAV half_rate_clip = Ok blob /\
    payload blob !! 2%nat = Some 0 /\
    payload blob !! 3%nat = Some 0.
Proof.
  split; [reflexivity |].
  apply (out_of_range_offset_is_silence half_rate_clip [half] 2 1).
  - reflexivity.
  - reflexivity.
  - vm_compute. discriminate.
  - lia.
  - vm_compute. discriminate.
Defined.

Section Header.

Lemma uint32_le_decode (u : Z) :
  0 <= u < 2 ^ 32 ->
  u mod 256 + 2 ^ 8 * ((u / 2 ^ 8) mod 256) + 2 ^ 16 * ((u / 2 ^ 16) mod 256)
    + 2 ^ 24 * (u / 2 ^ 24) = u.
Proof.
  intros Hu.
  change (2 ^ 32) with 4294967296 in Hu.
  change (2 ^ 8) with 256.
  change (2 ^ 16) with (256 * 256). change (2 ^ 24) with (256 * 256 * 256).
  rewrite <- !Z.div_div by lia.
  pose proof (Z.div_mod u 256 ltac:(lia)).
  pose proof (Z.div_mod (u / 256) 256 ltac:(lia)).
  pose proof (Z.div_mod (u / 256 / 256) 256 ltac:(lia)).
  lia.
Qed.

Lemma getUint32_uint32_le (pre post : list byte) (v : Z) (off : nat) :
  length pre = off ->
  getUint32 (pre ++ uint32_le v ++ post) off = Some (v mod 2 ^ 32).
Proof.
  intros <-. unfold getUint32, uint32_le.
  rewrite !(lookup_app_r pre) by lia.
  replace (length pre - length pre)%nat with 0%nat by lia.
  replace (length pre + 1 - length pre)%nat with 1%nat by lia.
  replace (length pre + 2 - length pre)%nat with 2%nat by lia.
  replace (length pre + 3 - length pre)%nat with 3%nat by lia.
  cbn [lookup list_lookup app]. f_equal.
  apply uint32_le_decode. apply Z.mod_pos_bound. reflexivity.
Qed.

Lemma header_size_fields (n : Z) (data : list byte) :
  getUint32 (wav_header n ++ data) 4 = Some ((36 + n) mod 2 ^ 32) /\
  getUint32 (wav_header n ++ data) 40 = Some (n mod 2 ^ 32).
Proof.
  split.
  - exact (getUint32_uint32_le [82; 73; 70; 70] _ (36 + n) 4 eq_refl).
  - exact (getUint32_uint32_le (take 40 (wav_header n)) data n 40 eq_refl).
Qed.

Lemma header_tags_and_format (n : Z) (data : list byte) :
  let bytes := wav_header n ++ data in
  ascii_tag bytes 0 "RIFF" /\ ascii_tag bytes 8 "WAVE" /\
  ascii_tag bytes 12 "fmt " /\ getUint32 bytes 16 = Some 16 /\
  getUint16 bytes 20 = Some 1 /\ getUint16 bytes 22 = Some 1 /\
  getUint32 bytes 24 = Some 16000 /\ getUint32 bytes 28 = Some 32000 /\
  getUint16 bytes 32 = Some 2 /\ getUint16 bytes 34 = Some 16 /\
  ascii_tag bytes 36 "data".
Proof. repeat split; reflexivity. Qed.

Lemma encode_samples_inv (resultData : list Z) (blob : Blob) :
  encode_samples resultData = Ok blob ->
  blob = {| blob_bytes := wav_header (byteLength resultData)
                            ++ Int16Array_buffer resultData;
            blob_type := "audio/wav" |}.
Proof.
  intros Hblob.
  destruct (Z_le_gt_dec (44 + byteLength resultData) MAX_SAFE_INTEGER) as [Hle | Hgt].
  - rewrite encode_samples_spec in Hblob by exact Hle. congruence.
  - unfold encode_samples, new_ArrayBuffer, ToIndex in Hblob.
    replace (44 + byteLength resultData <=? MAX_SAFE_INTEGER) with false in Hblob
      by (symmetry; apply Z.leb_gt; lia).
    rewrite andb_false_r in Hblob. discriminate Hblob.
Qed.

Lemma encodeWAV_inv (audioBuffer : AudioBuffer) (blob : Blob) :
  encodeWAV audioBuffer = Ok blob ->
  exists resultData,
    resample audioBuffer = Ok resultData /\
    blob = {| blob_bytes := wav_header (byteLength resultData)
                              ++ Int16Array_buffer resultData;
              blob_type := "audio/wav" |}.
Proof.
  unfold encodeWAV. intros Hblob.
  destruct (resample audioBuffer) as [resultData | e]; [| discriminate Hblob].
  exists resultData. split; [reflexivity |]. apply encode_samples_inv, Hblob.
Qed.

End Header.

(** Claim C3 (amended).  Every blob the encoder returns starts with the
    44-byte header: the tags RIFF, WAVE, fmt and data, sub-chunk size 16,
    format 1, one channel, sample rate 16000, byte rate 32000, block align
    2 and 16 bits per sample; the payload is the samples, two bytes each,
    and the blob has 44 bytes more than the payload.  The size fields at
    bytes 4-7 and 40-43 hold [totalBytes - 8] and the payload size modulo
    2^32, hence these sizes themselves whenever [totalBytes - 8] is below
    2^32. *)
Theorem wav_header_is_canonical (audioBuffer : AudioBuffer) (blob : Blob) :
  encodeWAV audioBuffer = Ok blob ->
  let bytes := blob_bytes blob in
  let totalBytes := Z.of_nat (length bytes) in
  let dataByteLength := Z.of_nat (length (payload blob)) in
  totalBytes = 44 + dataByteLength /\
  (exists resultData,
     resample audioBuffer = Ok resultData /\
     payload blob = Int16Array_buffer resultData /\
     dataByteLength = 2 * Z.of_nat (length resultData)) /\
  (ascii_tag bytes 0 "RIFF" /\ ascii_tag bytes 8 "WAVE" /\
   ascii_tag bytes 12 "fmt " /\ getUint32 bytes 16 = Some 16 /\
   getUint16 bytes 20 = Some 1 /\ getUint16 bytes 22 = Some 1 /\
   getUint32 bytes 24 = Some 16000 /\ getUint32 bytes 28 = Some 32000 /\
   getUint16 bytes 32 = Some 2 /\ getUint16 bytes 34 = Some 16 /\
   ascii_tag bytes 36 "data") /\
  getUint32 bytes 4 = Some ((totalBytes - 8) mod 2 ^ 32) /\
  getUint32 bytes 40 = Some (dataByteLength mod 2 ^ 32) /\
  (totalBytes - 8 < 2 ^ 32 -> header_sizes_match blob).
Proof.
  intros Hblob. destruct (encodeWAV_inv _ _ Hblob) as (resultData & Hr & ->).
  cbv zeta. unfold header_sizes_match, payload. cbn [blob_bytes].
  rewrite drop_app_length' by reflexivity.
  rewrite length_app, Nat2Z.inj_add, length_wav_header, length_Int16Array_buffer.
  set (n := byteLength resultData).
  assert (Hn : 0 <= n) by (unfold n, byteLength; lia).
  destruct (header_size_fields n (Int16Array_buffer resultData)) as [H4 H40].
  replace (Z.of_nat 44 + n - 8) with (36 + n) by lia.
  split; [lia |].
  split; [exists resultData; split; [exact Hr | split; reflexivity] |].
  split; [apply header_tags_and_format |].
  split; [exact H4 |]. split; [exact H40 |].
  intros Hsmall. rewrite H4, H40, !Z.mod_small by lia. split; reflexivity.
Qed.

Lemma wav_header_is_canonical_witness :
  encodeWAV half_rate_clip = Ok half_rate_blob /\
  getUint32 (blob_bytes half_rate_blob) 4 = Some (40 mod 2 ^ 32) /\
  header_sizes_match half_rate_blob.
Proof.
  assert (H : encodeWAV half_rate_clip = Ok half_rate_blob)
    by (vm_compute; reflexivity).
  split; [exact H |].
  destruct (wav_header_is_canonical half_rate_clip half_rate_blob H)
    as (_ & _ & _ & H4 & _ & Hmatch).
  split; [exact H4 |]. apply Hmatch. vm_compute. reflexivity.
Defined.

(** Claim C3 as stated fails for a payload of 2^32 bytes: the encoder
    returns a blob whose size fields hold 36 and 0. *)
Lemma header_size_field_wraps :
  exists blob,
    encodeWAV four_gib_audio = Ok blob /\
    Z.of_nat (length (payload blob)) = 2 ^ 32 /\
    getUint32 (blob_bytes blob) 4 = Some 36 /\
    getUint32 (blob_bytes blob) 40 = Some 0 /\
    ~ header_sizes_match blob.
Proof.
  set (oldData := long_silence).
  assert (Hlen : Z.of_nat (length oldData) = 2 ^ 31).
  { unfold oldData, long_silence. rewrite length_replicate. apply Z2Nat.id. discriminate. }
  assert (Hr : resample four_gib_audio = Ok (map (fun x => quantize (Some x)) oldData)).
  { apply resample_native_rate; [reflexivity | reflexivity |].
    unfold Float32Array_fits. fold oldData. rewrite Hlen. discriminate. }
  assert (Hbytes : byteLength (map (fun x => quantize (Some x)) oldData) = 2 ^ 32).
  { unfold byteLength. rewrite length_map, Hlen. reflexivity. }
  eexists. split.
  { apply (encodeWAV_ok _ _ Hr). rewrite Hbytes. discriminate. }
  unfold header_sizes_match, payload. cbn [blob_bytes].
  rewrite drop_app_length' by reflexivity.
  rewrite length_app, Nat2Z.inj_add, length_wav_header, length_Int16Array_buffer.
  rewrite Hbytes.
  destruct (header_size_fields (2 ^ 32) (Int16Array_buffer (map (fun x => quantize (Some x)) oldData)))
    as [H4 H40].
  split; [reflexivity |]. split; [exact H4 |]. split; [exact H40 |].
  intros [H4' _]. rewrite H4 in H4'. discriminate H4'.
Qed.

(** ** Quantization *)

Section Quantization.

Lemma normal_bounds (m : positive) :
  Z.log2 (Zpos m) = 52 -> 2 ^ 52 <= Zpos m < 2 ^ 53.
Proof.
  intros Hm. pose proof (Z.log2_spec (Zpos m) ltac:(lia)) as H.
  rewrite Hm in H. exact H.
Qed.

Lemma clamp_finite (s : bool) (m : positive) (e : Z) :
  Z.log2 (Zpos m) = 52 ->
  clamp (Some (S754_finite s m e))
  = if in_unit m e then S754_finite s m e
    else S754_finite s 4503599627370496 (-52).
Proof.
  intros Hm. apply normal_bounds in Hm.
  change (2 ^ 52) with 4503599627370496 in Hm.
  unfold clamp, in_unit, ToNumber.
  change (of_Z 1) with (S754_finite false 4503599627370496 (-52)).
  change (of_Z (-1)) with (S754_finite true 4503599627370496 (-52)).
  destruct (Z.compare_spec e (-52)) as [He | He | He].
  - subst e. destruct (Pos.eqb_spec m 4503599627370496) as [-> | Hne].
    + destruct s; reflexivity.
    + assert (Hcmp : (4503599627370496 ?= m)%positive = Lt)
        by (apply Pos.compare_lt_iff; lia).
      destruct s; unfold Math_min, Math_max, SFcompare;
        cbn [Z.compare Pos.compare Pos.compare_cont];
        rewrite Pos.compare_cont_spec, Hcmp; reflexivity.
  - assert (Hcmp : (-52 ?= e) = Gt) by (apply Z.compare_gt_iff; lia).
    replace (e <? -52) with true by (symmetry; apply Z.ltb_lt; lia).
    destruct s; unfold Math_min, Math_max, SFcompare; rewrite ?Hcmp;
      cbn [orb CompOpp is_neg_zero]; rewrite ?Hcmp; reflexivity.
  - assert (Hcmp : (-52 ?= e) = Lt) by (apply Z.compare_lt_iff; lia).
    replace (e <? -52) with false by (symmetry; apply Z.ltb_ge; lia).
    replace (e =? -52) with false by (symmetry; apply Z.eqb_neq; lia).
    destruct s; unfold Math_min, Math_max, SFcompare; rewrite ?Hcmp;
      cbn [orb andb CompOpp is_neg_zero]; rewrite ?Hcmp; reflexivity.
Qed.

Lemma in_unit_bound (m : positive) (e : Z) :
  Z.log2 (Zpos m) = 52 -> in_unit m e = true ->
  e <= -52 /\ Zpos m <= 2 ^ (- e).
Proof.
  intros Hm Hu. apply normal_bounds in Hm. unfold in_unit in Hu.
  apply orb_true_iff in Hu. destruct Hu as [Hlt | Heq].
  - apply Z.ltb_lt in Hlt. split; [lia |].
    assert (2 ^ 53 <= 2 ^ (- e)) by (apply Z.pow_le_mono_r; lia). lia.
  - apply andb_true_iff in Heq. destruct Heq as [He Hmm].
    apply Z.eqb_eq in He. apply Pos.eqb_eq in Hmm. subst. split; [lia |].
    reflexivity.
Qed.

Lemma scale_negative (m : positive) (e : Z) :
  Z.log2 (Zpos m) = 52 -> -1000 <= e <= -52 ->
  scale (S754_finite true m e) = S754_finite true m (e + 15).
Proof.
  intros Hm He. unfold scale.
  change (ltb (S754_finite true m e) (of_Z 0)) with true. cbv iota.
  change (of_Z 32768) with (S754_finite false 4503599627370496 (-37)).
  unfold mul, SFmul. cbn [xorb].
  apply (round_aux_normal true _ m _ (e + 15) 52); [| lia | lia |].
  - rewrite Pos2Z.inj_mul. reflexivity.
  - unfold normal. lia.
Qed.

Lemma scale_positive (m : positive) (e : Z) :
  Z.log2 (Zpos m) = 52 -> (2 ^ 15 | Zpos m) -> -1000 <= e <= -52 ->
  exists m' e',
    scale (S754_finite false m e) = S754_finite false m' e' /\
    e' < 0 /\ Zpos m' / 2 ^ (- e') = Zpos m * 32767 / 2 ^ (- e).
Proof.
  intros Hm [a Ha] He. pose proof (normal_bounds m Hm) as Hb.
  set (c := Zpos m * 32767).
  assert (Hc : 2 ^ 66 <= c < 2 ^ 68).
  { unfold c. change (2 ^ 52) with 4503599627370496 in Hb.
    change (2 ^ 53) with 9007199254740992 in Hb.
    change (2 ^ 66) with 73786976294838206464.
    change (2 ^ 68) with 295147905179352825856. lia. }
  assert (HL : 66 <= Z.log2 c < 68).
  { split; [apply Z.log2_le_pow2; lia | apply Z.log2_lt_pow2; lia]. }
  set (L := Z.log2 c) in *.
  assert (Hdiv : c = (c / 2 ^ (L - 52)) * 2 ^ (L - 52)).
  { assert (Hd : (2 ^ (L - 52) | c)).
    { apply Z.divide_trans with (2 ^ 15).
      - exists (2 ^ (15 - (L - 52))). rewrite <- Z.pow_add_r by lia. f_equal. lia.
      - exists (a * 32767). unfold c. rewrite Ha. ring. }
    destruct Hd as [q Hq]. rewrite Hq at 2. rewrite Z.div_mul; [exact Hq |].
    apply Z.pow_nonzero; lia. }
  set (M := c / 2 ^ (L - 52)) in *.
  assert (HP : 0 < 2 ^ (L - 52)) by (apply Z.pow_pos_nonneg; lia).
  assert (HM : 0 < M) by nia.
  assert (HlM : Z.log2 M = 52).
  { assert (Z.log2 c = L) by reflexivity.
    rewrite Hdiv, Z.log2_mul_pow2 in H by lia. lia. }
  exists (Z.to_pos M), (e + L - 52).
  assert (HMpos : Zpos (Z.to_pos M) = M) by (apply Z2Pos.id; lia).
  split; [| split; [lia |]].
  - unfold scale.
    change (ltb (S754_finite false m e) (of_Z 0)) with false. cbv iota.
    change (of_Z 32767) with (S754_finite false 9006924376834048 (-38)).
    unfold mul, SFmul. cbn [xorb].
    apply (round_aux_normal false _ _ _ _ (L - 14)); [| lia | lia |].
    + rewrite Pos2Z.inj_mul, HMpos.
      change (Zpos 9006924376834048) with (32767 * 2 ^ 38).
      rewrite Z.mul_assoc. fold c. rewrite Hdiv at 1.
      rewrite <- Z.mul_assoc, <- Z.pow_add_r by lia. do 2 f_equal. lia.
    + unfold normal. rewrite HMpos. lia.
  - rewrite HMpos. fold c. unfold M.
    rewrite Z.div_div by (try apply Z.pow_pos_nonneg; lia).
    rewrite <- Z.pow_add_r by lia. do 2 f_equal. lia.
Qed.

Lemma ToInt16_in_range (s : bool) (m : positive) (e : Z) :
  -32768 <= truncate s m e <= 32767 ->
  ToInt16 (S754_finite s m e) = truncate s m e.
Proof.
  intros Ht. unfold ToInt16. set (t := truncate s m e) in *. cbv zeta.
  change (2 ^ 16) with 65536. change (2 ^ 15) with 32768.
  destruct (Z_lt_le_dec t 0) as [Hneg | Hpos].
  - assert (Hmod : t mod 65536 = t + 65536)
      by (symmetry; apply (Z.mod_unique _ _ (-1)); lia).
    rewrite Hmod.
    replace (32768 <=? t + 65536) with true by (symmetry; apply Z.leb_le; lia).
    lia.
  - rewrite Z.mod_small by lia.
    replace (32768 <=? t) with false by (symmetry; apply Z.leb_gt; lia).
    reflexivity.
Qed.

Lemma scaled_quotient_bound (m k e : Z) :
  0 < m <= 2 ^ (- e) -> 0 <= k -> e <= 0 -> 0 <= m * k / 2 ^ (- e) <= k.
Proof.
  intros Hm Hk He.
  assert (HP : 0 < 2 ^ (- e)) by (apply Z.pow_pos_nonneg; lia).
  split.
  - apply Z.div_pos; nia.
  - apply Z.div_le_upper_bound; nia.
Qed.

(** Inside [-1, 1] the stored sample is the exact product truncated
    towards zero. *)
Lemma quantize_in_unit (s : bool) (m : positive) (e : Z) :
  Z.log2 (Zpos m) = 52 -> (2 ^ 15 | Zpos m) -> -1000 <= e ->
  in_unit m e = true ->
  quantize (Some (S754_finite s m e))
  = cond_Zopp s (Zpos m * (if s then 32768 else 32767) / 2 ^ (- e)).
Proof.
  intros Hm Hdiv He Hunit.
  destruct (in_unit_bound m e Hm Hunit) as [He52 Hle].
  unfold quantize. rewrite (clamp_finite s m e Hm), Hunit.
  destruct s.
  - rewrite scale_negative by (auto; lia).
    pose proof (scaled_quotient_bound (Zpos m) 32768 e ltac:(lia) ltac:(lia) ltac:(lia)) as Hb.
    assert (Ht : truncate true m (e + 15) = - (Zpos m * 32768 / 2 ^ (- e))).
    { unfold truncate, cond_Zopp.
      replace (0 <=? e + 15) with false by (symmetry; apply Z.leb_gt; lia).
      f_equal. replace (- e) with (- (e + 15) + 15) by lia.
      rewrite Z.pow_add_r by lia. change (2 ^ 15) with 32768.
      rewrite Z.div_mul_cancel_r; [reflexivity | | lia].
      apply Z.pow_nonzero; lia. }
    rewrite ToInt16_in_range; rewrite Ht; [reflexivity | lia].
  - destruct (scale_positive m e Hm Hdiv ltac:(lia)) as (m' & e' & -> & He' & Hq).
    pose proof (scaled_quotient_bound (Zpos m) 32767 e ltac:(lia) ltac:(lia) ltac:(lia)) as Hb.
    assert (Ht : truncate false m' e' = Zpos m * 32767 / 2 ^ (- e)).
    { unfold truncate, cond_Zopp.
      replace (0 <=? e') with false by (symmetry; apply Z.leb_gt; lia).
      exact Hq. }
    rewrite ToInt16_in_range; rewrite Ht; [reflexivity | lia].
Qed.

Lemma quantize_outside_unit (s : bool) (m : positive) (e : Z) :
  Z.log2 (Zpos m) = 52 -> in_unit m e = false ->
  quantize (Some (S754_finite s m e)) = if s then -32768 else 32767.
Proof.
  intros Hm Hunit. unfold quantize.
  rewrite (clamp_finite s m e Hm), Hunit. destruct s; reflexivity.
Qed.

End Quantization.

(** ** Quantization against exact arithmetic *)

Section ExactModel.

Lemma value_negative_exponent (s : bool) (m : positive) (e : Z) :
  e < 0 ->
  value (S754_finite s m e) = Qmake (cond_Zopp s (Zpos m)) (Z.to_pos (2 ^ (- e))).
Proof.
  intros He. unfold value, pow2Q.
  replace (0 <=? e) with false by (symmetry; apply Z.leb_gt; lia).
  unfold Qmult, inject_Z. cbn [Qnum Qden].
  rewrite Z.mul_1_r, Pos.mul_1_l. reflexivity.
Qed.

Lemma value_nonnegative_exponent (s : bool) (m : positive) (e : Z) :
  0 <= e ->
  value (S754_finite s m e) = Qmake (cond_Zopp s (Zpos m) * 2 ^ e) 1.
Proof.
  intros He. unfold value, pow2Q.
  replace (0 <=? e) with true by (symmetry; apply Z.leb_le; lia).
  reflexivity.
Qed.

Lemma Qclamp_inside (n : Z) (d : positive) :
  - Zpos d < n < Zpos d -> Qclamp (n # d) = (n # d)%Q.
Proof.
  intros Hn. unfold Qclamp, Qle_bool. cbn [Qnum Qden].
  replace (n * 1 <=? -1 * Zpos d) with false by (symmetry; apply Z.leb_gt; lia).
  replace (1 * Zpos d <=? n * 1) with false by (symmetry; apply Z.leb_gt; lia).
  reflexivity.
Qed.

Lemma Qclamp_above (n : Z) (d : positive) :
  Zpos d <= n -> Qclamp (n # d) = 1%Q.
Proof.
  intros Hn. unfold Qclamp, Qle_bool. cbn [Qnum Qden].
  replace (n * 1 <=? -1 * Zpos d) with false by (symmetry; apply Z.leb_gt; lia).
  replace (1 * Zpos d <=? n * 1) with true by (symmetry; apply Z.leb_le; lia).
  reflexivity.
Qed.

Lemma Qclamp_below (n : Z) (d : positive) :
  n <= - Zpos d -> Qclamp (n # d) = (-1)%Q.
Proof.
  intros Hn. unfold Qclamp, Qle_bool. cbn [Qnum Qden].
  replace (n * 1 <=? -1 * Zpos d) with true by (symmetry; apply Z.leb_le; lia).
  reflexivity.
Qed.

Lemma Qtruncate_scaled (s : bool) (m k : Z) (d : positive) :
  0 <= m -> 0 <= k ->
  Qtruncate ((cond_Zopp s m # d) * inject_Z k) = cond_Zopp s (m * k / Zpos d).
Proof.
  intros Hm Hk. unfold Qtruncate, Qmult, inject_Z. cbn [Qnum Qden].
  rewrite Pos.mul_1_r. destruct s; cbn [cond_Zopp].
  - rewrite Z.mul_opp_l, Z.quot_opp_l by lia.
    rewrite Z.quot_div_nonneg by lia. reflexivity.
  - apply Z.quot_div_nonneg; lia.
Qed.

Lemma quantize_exact_in_unit (s : bool) (m : positive) (e : Z) :
  Z.log2 (Zpos m) = 52 -> in_unit m e = true ->
  quantize_exact (S754_finite s m e)
  = cond_Zopp s (Zpos m * (if s then 32768 else 32767) / 2 ^ (- e)).
Proof.
  intros Hm Hunit. pose proof (normal_bounds m Hm) as Hb.
  unfold in_unit in Hunit. apply orb_true_iff in Hunit.
  destruct Hunit as [Hlt | Heq].
  - apply Z.ltb_lt in Hlt.
    assert (HD : 2 ^ 53 <= 2 ^ (- e)) by (apply Z.pow_le_mono_r; lia).
    assert (HP : Zpos (Z.to_pos (2 ^ (- e))) = 2 ^ (- e)) by (apply Z2Pos.id; lia).
    unfold quantize_exact, clamped_value.
    rewrite value_negative_exponent by lia.
    rewrite Qclamp_inside by (rewrite HP; destruct s; cbn [cond_Zopp]; lia).
    cbn [Qnum]. destruct s; cbn [cond_Zopp Z.ltb Z.opp Z.compare].
    + rewrite (Qtruncate_scaled true (Zpos m) 32768) by lia.
      rewrite HP. reflexivity.
    + rewrite (Qtruncate_scaled false (Zpos m) 32767) by lia.
      rewrite HP. reflexivity.
  - apply andb_true_iff in Heq. destruct Heq as [He Hmm].
    apply Z.eqb_eq in He. apply Pos.eqb_eq in Hmm. subst.
    destruct s; reflexivity.
Qed.

Lemma quantize_exact_outside_unit (s : bool) (m : positive) (e : Z) :
  Z.log2 (Zpos m) = 52 -> in_unit m e = false ->
  quantize_exact (S754_finite s m e) = if s then -32768 else 32767.
Proof.
  intros Hm Hunit. pose proof (normal_bounds m Hm) as Hb.
  unfold in_unit in Hunit. apply orb_false_iff in Hunit.
  destruct Hunit as [Hge Hne]. apply Z.ltb_ge in Hge.
  unfold quantize_exact, clamped_value.
  destruct (Z_lt_le_dec e 0) as [Hneg | Hpos].
  - assert (HD : 2 ^ (- e) <= 2 ^ 52) by (apply Z.pow_le_mono_r; lia).
    assert (HD0 : 0 < 2 ^ (- e)) by (apply Z.pow_pos_nonneg; lia).
    assert (HP : Zpos (Z.to_pos (2 ^ (- e))) = 2 ^ (- e)) by (apply Z2Pos.id; lia).
    rewrite value_negative_exponent by lia.
    destruct s; cbn [cond_Zopp].
    + rewrite Qclamp_below by (rewrite HP; lia). reflexivity.
    + rewrite Qclamp_above by (rewrite HP; lia). reflexivity.
  - assert (HD : 1 <= 2 ^ e) by (apply Z.lt_pred_le, Z.pow_pos_nonneg; lia).
    rewrite value_nonnegative_exponent by lia.
    destruct s; cbn [cond_Zopp].
    + rewrite Qclamp_below by nia. reflexivity.
    + rewrite Qclamp_above by nia. reflexivity.
Qed.

Lemma float32_valued_finite (s : bool) (m : positive) (e : Z) :
  float32_valued (S754_finite s m e) = true ->
  Z.log2 (Zpos m) = 52 /\ (2 ^ 15 | Zpos m) /\ -1000 <= e.
Proof.
  unfold float32_valued. rewrite !andb_true_iff, orb_true_iff.
  intros [[[Hlog Hmod] _] Hlow].
  apply Z.eqb_eq in Hlog. apply Z.eqb_eq in Hmod.
  pose proof (normal_bounds m Hlog) as Hb.
  split; [exact Hlog |]. split.
  - apply Z.mod_divide in Hmod; [| discriminate].
    destruct Hmod as [q Hq]. exists (q * 2 ^ 14). rewrite Hq.
    change (2 ^ 29) with (2 ^ 14 * 2 ^ 15). ring.
  - destruct Hlow as [Hlow | Hlow]; [apply Z.leb_le in Hlow; lia |].
    apply Z.eqb_eq in Hlow.
    destruct (Z_lt_le_dec e (-1000)) as [Hsmall | Hok]; [| exact Hok].
    assert (2 ^ 53 <= 2 ^ (- 149 - e)) by (apply Z.pow_le_mono_r; lia).
    rewrite Z.mod_small in Hlow by lia. lia.
Qed.

End ExactModel.

(** Claim C1 (amended).  For every [Float32Array] sample, the stored
    16-bit value is obtained in exact arithmetic: the sample is clamped to
    [-1, 1]; a negative clamped value is multiplied by 32768, a
    non-negative one by 32767; the product is truncated towards zero.
    NaN gives 0.  In particular 1.0 gives 32767, -1.0 gives -32768 and
    0.0 gives 0. *)
Theorem quantize_is_exact (v : number) :
  float32_valued v = true -> quantize (Some v) = quantize_exact v.
Proof.
  intros Hv. destruct v as [s | s | | s m e].
  - destruct s; reflexivity.
  - destruct s; reflexivity.
  - reflexivity.
  - destruct (float32_valued_finite s m e Hv) as (Hm & Hdiv & He).
    destruct (in_unit m e) eqn:Hunit.
    + rewrite quantize_in_unit, quantize_exact_in_unit by assumption. reflexivity.
    + rewrite quantize_outside_unit, quantize_exact_outside_unit by assumption.
      reflexivity.
Qed.

Lemma quantize_is_exact_witness :
  quantize (Some (of_Z 1)) = 32767 /\
  quantize (Some (of_Z (-1))) = -32768 /\
  quantize (Some (of_Z 0)) = 0 /\
  quantize (Some half) = 16383 /\
  quantize (Some minus_three_halves_lsb) = -1.
Proof.
  split; [rewrite (quantize_is_exact (of_Z 1)); reflexivity |].
  split; [rewrite (quantize_is_exact (of_Z (-1))); reflexivity |].
  split; [rewrite (quantize_is_exact (of_Z 0)); reflexivity |].
  split; [rewrite (quantize_is_exact half); reflexivity |].
  rewrite (quantize_is_exact minus_three_halves_lsb); reflexivity.
Defined.

(** Claim C1 as stated fails at the sample -1.5 / 32768: the product -1.5
    is stored as -1, while rounding towards the more negative integer
    gives -2. *)
Lemma quantize_does_not_floor :
  float32_valued minus_three_halves_lsb = true /\
  value minus_three_halves_lsb == - (3 # 2) * (1 # 32768) /\
  quantize (Some minus_three_halves_lsb) = -1 /\
  quantize_flooring minus_three_halves_lsb = -2 /\
  quantize (Some minus_three_halves_lsb) <> quantize_flooring minus_three_halves_lsb.
Proof.
  split; [reflexivity |]. split; [reflexivity |].
  split; [reflexivity |]. split; [reflexivity |].
  vm_compute. discriminate.
Qed.

(** ** SubRip export *)

Section SubRip.

Lemma append_cons (c : ascii) (a b : string) :
  (String c a ++ b)%string = String c (a ++ b)%string.
Proof. reflexivity. Qed.

Lemma append_nil_l (a : string) : (EmptyString ++ a)%string = a.
Proof. reflexivity. Qed.

Lemma append_assoc (a b c : string) : ((a ++ b) ++ c = a ++ (b ++ c))%string.
Proof.
  induction a as [| x a IH]; [reflexivity |].
  rewrite !append_cons, IH. reflexivity.
Qed.

Lemma append_empty_r (a : string) : (a ++ EmptyString)%string = a.
Proof.
  induction a as [| x a IH]; [reflexivity |].
  rewrite append_cons, IH. reflexivity.
Qed.

Lemma digit_not_dot (d : Z) : Ascii.eqb (digit d) "." = false.
Proof.
  unfold digit. pose proof (Z.mod_pos_bound d 10 ltac:(lia)) as Hr.
  set (r := d mod 10) in *.
  assert (Hcases : r = 0 \/ r = 1 \/ r = 2 \/ r = 3 \/ r = 4 \/
                   r = 5 \/ r = 6 \/ r = 7 \/ r = 8 \/ r = 9) by lia.
  destruct Hcases as [-> | [-> | [-> | [-> | [-> | [-> | [-> | [-> | [-> | ->]]]]]]]]];
    reflexivity.
Qed.

Lemma toISOString_first_day (t : Z) :
  0 <= t < msPerDay ->
  toISOString (Some t)
  = Ok ("1970-01-01T" ++ pad2 (t / 3600000) ++ ":" ++ pad2 (t / 60000 mod 60) ++ ":"
        ++ pad2 (t / 1000 mod 60) ++ "." ++ pad3 (t mod 1000) ++ "Z")%string.
Proof.
  intros Ht. unfold toISOString.
  rewrite Z.div_small, Z.mod_small by exact Ht. reflexivity.
Qed.

Lemma replace_dot (a b c d : Z) :
  replace_first "." ","
    (pad2 a ++ ":" ++ pad2 b ++ ":" ++ pad2 c ++ "." ++ pad3 d)%string
  = (pad2 a ++ ":" ++ pad2 b ++ ":" ++ pad2 c ++ "," ++ pad3 d)%string.
Proof.
  unfold pad2. repeat (rewrite append_cons || rewrite append_nil_l).
  cbn [replace_first]. rewrite !digit_not_dot.
  change (Ascii.eqb ":" ".") with false. change (Ascii.eqb "." ".") with true.
  reflexivity.
Qed.

Lemma timestamp_first_day (seconds : number) :
  within_first_day seconds = true ->
  timestamp seconds = Ok (srt_timestamp (milliseconds seconds)).
Proof.
  unfold within_first_day, milliseconds, timestamp.
  destruct (Date_new (mul seconds (of_Z 1000))) as [t |]; [| discriminate].
  intros Ht. apply andb_true_iff in Ht. destruct Ht as [H0 H1].
  apply Z.leb_le in H0. apply Z.ltb_lt in H1.
  rewrite toISOString_first_day by lia.
  cbn [mbind result_bind bind]. f_equal.
  change (slice_11_23 _) with
    (pad2 (t / 3600000) ++ ":" ++ pad2 (t / 60000 mod 60) ++ ":"
     ++ pad2 (t / 1000 mod 60) ++ "." ++ pad3 (t mod 1000))%string.
  apply replace_dot.
Qed.

Lemma export_step_first_day (srtContent : string) (cap : Caption) (index : nat) :
  caption_within_first_day cap ->
  export_step srtContent cap index = Ok (srtContent ++ srt_block index cap)%string.
Proof.
  intros [Hs He]. unfold export_step.
  rewrite (timestamp_first_day _ Hs), (timestamp_first_day _ He).
  reflexivity.
Qed.

Lemma forEach_first_day (captions : list Caption) (index : nat) (srtContent : string) :
  Forall caption_within_first_day captions ->
  forEach_from captions index srtContent
  = Ok (srtContent ++ srt_file_from captions index)%string.
Proof.
  intros Hall. revert index srtContent.
  induction Hall as [| cap rest Hcap _ IH]; intros index srtContent.
  - simpl. rewrite append_empty_r. reflexivity.
  - cbn [forEach_from]. rewrite (export_step_first_day _ _ _ Hcap).
    cbn [mbind result_bind bind]. rewrite IH.
    cbn [srt_file_from]. rewrite append_assoc. reflexivity.
Qed.

End SubRip.

(** Claim C9 (amended).  For every caption list whose start and end
    times, in whole milliseconds, lie in [0, 24 h), the exported file is
    [captions.srt] in SubRip format: for each caption, in order, its
    1-based sequence number, the line [HH:MM:SS,mmm --> HH:MM:SS,mmm] of
    its start and end times, its text and a blank line. *)
Theorem export_is_subrip (captions : list Caption) :
  Forall caption_within_first_day captions ->
  handleExport captions
  = Ok {| download_name := "captions.srt";
          download_type := "text/plain";
          download_content := srt_file captions |}.
Proof.
  intros Hall. unfold handleExport, srt_file.
  rewrite (forEach_first_day captions 0 EmptyString Hall). reflexivity.
Qed.

Lemma export_is_subrip_witness :
  handleExport two_captions
  = Ok {| download_name := "captions.srt";
          download_type := "text/plain";
          download_content :=
            ("1" ++ newline ++ "00:00:01,000 --> 00:00:02,500" ++ newline ++ "hello" ++ newline ++ newline ++
             "2" ++ newline ++ "00:59:59,000 --> 23:59:59,000" ++ newline ++ "world" ++ newline ++ newline)%string |}.
Proof.
  rewrite (export_is_subrip two_captions).
  - vm_compute. reflexivity.
  - unfold two_captions.
    repeat (apply List.Forall_cons; [split; vm_compute; reflexivity |]).
    apply List.Forall_nil.
Defined.

(** Claim C9 as stated fails for a caption at 25:00:00: the exported
    timestamp is the time of day, 01:00:00,000. *)
Lemma export_wraps_after_24_hours :
  let claimed := ("1" ++ newline ++ "25:00:00,000 --> 25:00:01,000" ++ newline ++ "late" ++ newline ++ newline)%string in
  let exported := ("1" ++ newline ++ "01:00:00,000 --> 01:00:01,000" ++ newline ++ "late" ++ newline ++ newline)%string in
  srt_file [late_caption] = claimed /\
  handleExport [late_caption]
    = Ok {| download_name := "captions.srt"; download_type := "text/plain";
            download_content := exported |} /\
  exported <> claimed.
Proof.
  split; [vm_compute; reflexivity |].
  split; [vm_compute; reflexivity |].
  vm_compute. discriminate.
Qed.

(** ** The pipeline's error handling *)

(** Claim C8 (amended).  When the file read fails the pipeline aborts
    without output after its first progress message; the caller receives
    the fixed error "Failed to extract audio. The file might be corrupt
    or the format is unsupported.", the error a failure of the decode
    primitive produces too, and the I/O error itself goes to the console
    only. *)
Theorem loader_failure_is_replaced
    {File : Type} (host : Host File) (videoFile : File) (e : exception) (t : trace) :
  new_AudioContext host = Ok tt ->
  arrayBuffer host videoFile = Throw e ->
  extractAudioFromVideo host videoFile t
  = (Throw extraction_failed,
     {| progress := progress t ++ ["Extracting audio from video..."%string];
        console := console t ++ [("Audio extraction failed"%string, e)];
        uncaught := uncaught t |}) /\
  forall host' bytes e',
    new_AudioContext host' = Ok tt ->
    arrayBuffer host' videoFile = Ok bytes ->
    decodeAudioData host' bytes = Throw e' ->
    fst (extractAudioFromVideo host' videoFile t) = Throw extraction_failed.
Proof.
  intros Hctx Hread. split.
  - unfold extractAudioFromVideo, try_block, and_then, Pipeline.try_catch, lift, onProgress,
      console_error, throw.
    cbn [progress console uncaught]. rewrite Hctx, Hread. reflexivity.
  - intros host' bytes e' Hctx' Hread' Hdecode.
    unfold extractAudioFromVideo, try_block, and_then, Pipeline.try_catch, lift, onProgress,
      console_error, throw.
    cbn [progress console uncaught]. rewrite Hctx', Hread', Hdecode. reflexivity.
Qed.

Lemma loader_failure_is_replaced_witness :
  fst (extractAudioFromVideo unreadable_host tt empty_trace) = Throw extraction_failed.
Proof.
  rewrite (proj1 (loader_failure_is_replaced unreadable_host tt
                    (DOMException "NotReadableError") empty_trace eq_refl eq_refl)).
  reflexivity.
Defined.

(** Claim C8 as stated fails for a read that fails with
    [NotReadableError]: the caller receives the fixed error instead. *)
Lemma loader_failure_is_not_verbatim :
  arrayBuffer unreadable_host tt = Throw (DOMException "NotReadableError") /\
  fst (extractAudioFromVideo unreadable_host tt empty_trace)
    <> Throw (DOMException "NotReadableError") /\
  fst (extractAudioFromVideo unreadable_host tt empty_trace) = Throw extraction_failed.
Proof.
  split; [reflexivity |]. split; [| reflexivity].
  vm_compute. discriminate.
Qed.

(** ** The file-size gate *)

(** Claim C10.  A file larger than 500 * 1024 * 1024 bytes is rejected:
    the error message is set and the video file, the video URL, the
    caption list and the URL registry are unchanged.  A file of at most
    that size is loaded: it becomes the video file, an object URL created
    for it becomes the video URL, and the caption list and the error are
    cleared. *)
Theorem file_size_gate (file : File) (state : AppState) (store : UrlStore) :
  (size_limit < file_size file ->
     let '(state', store') := handleFileChange (Some file) state store in
     error state' = Some "File is too large. Max size is 500MB."%string /\
     videoFile state' = videoFile state /\
     videoUrl state' = videoUrl state /\
     captions state' = captions state /\
     store' = store) /\
  (file_size file <= size_limit ->
     let '(state', store') := handleFileChange (Some file) state store in
     videoFile state' = Some file /\
     (exists url, videoUrl state' = Some url /\ live_urls store' !! url = Some file) /\
     captions state' = [] /\
     error state' = None).
Proof.
  unfold size_limit, handleFileChange.
  change (MAX_FILE_SIZE_MB * 1024 * 1024) with 524288000.
  change (500 * 1024 * 1024) with 524288000.
  split; intros Hsize.
  - replace (524288000 <? file_size file) with true by (symmetry; apply Z.ltb_lt; lia).
    cbn [error videoFile videoUrl captions]. repeat split; reflexivity.
  - replace (524288000 <? file_size file) with false by (symmetry; apply Z.ltb_ge; lia).
    unfold createObjectURL.
    cbn [error videoFile videoUrl captions live_urls]. repeat split; try reflexivity.
    eexists. split; [reflexivity |]. apply lookup_insert_eq.
Qed.

Lemma file_size_gate_witness :
  fst (handleFileChange (Some large_file) loaded_state loaded_store)
  = {| videoFile := Some small_file; videoUrl := Some "blob:0"%string;
       captions := captions loaded_state;
       error := Some "File is too large. Max size is 500MB."%string |} /\
  captions (fst (handleFileChange (Some small_file) loaded_state loaded_store)) = [].
Proof.
  pose proof (proj1 (file_size_gate large_file loaded_state loaded_store)) as Hlarge.
  pose proof (proj2 (file_size_gate small_file loaded_state loaded_store)) as Hsmall.
  destruct (handleFileChange (Some large_file) loaded_state loaded_store) as [s1 u1].
  destruct (handleFileChange (Some small_file) loaded_state loaded_store) as [s2 u2].
  destruct Hlarge as (He & Hf & Hu & Hc & _); [vm_compute; reflexivity |].
  destruct Hsmall as (_ & _ & Hc2 & _); [vm_compute; discriminate |].
  split; [| exact Hc2].
  destruct s1 as [f1 u c e1]. cbn in *. subst. reflexivity.
Defined.

(* ================================================================== *)
(** * Part IV: further properties of the code                          *)
(* ================================================================== *)

(** ** The encoder's outcomes and its stored values *)

Section Encoder.

Lemma ToInt16_is_int16 (x : number) : is_int16 (ToInt16 x).
Proof.
  unfold is_int16, ToInt16. destruct x as [| | |s m e]; try lia.
  cbv zeta. pose proof (Z.mod_pos_bound (truncate s m e) (2 ^ 16) ltac:(lia)) as H.
  change (2 ^ 16) with 65536 in *. change (2 ^ 15) with 32768.
  destruct (32768 <=? truncate s m e mod 65536) eqn:E; lia.
Qed.

Lemma quantize_is_int16 (sample : option number) : is_int16 (quantize sample).
Proof. apply ToInt16_is_int16. Qed.

Lemma length_map_seq {A : Type} (f : nat -> A) (n : nat) : length (map f (seq 0 n)) = n.
Proof. rewrite length_map, length_seq. reflexivity. Qed.

(** Every successful run of the resampler is the pointwise map over the
    output indices. *)
Lemma resample_inv (audioBuffer : AudioBuffer) (resultData : list Z) :
  resample audioBuffer = Ok resultData ->
  exists oldData n,
    getChannelData audioBuffer 0 = Ok oldData /\
    ToIndex (newLength_of oldData (ratio_of (buffer_sampleRate audioBuffer))) = Ok n /\
    0 <= n /\ 2 * n <= MAX_SAFE_INTEGER /\
    resultData
    = map (fun i => quantize (typed_get oldData
                      (offset_of (ratio_of (buffer_sampleRate audioBuffer)) i)))
          (seq 0 (Z.to_nat n)).
Proof.
  unfold resample. destruct (getChannelData audioBuffer 0) as [oldData|e] eqn:Hc;
    cbn [mbind result_bind bind]; [|discriminate].
  set (ratio := ratio_of (buffer_sampleRate audioBuffer)).
  unfold new_Int16Array.
  destruct (newLength_of oldData ratio) as [| neg | z] eqn:Hn; cbn [ToIndex bind].
  - intros H. exists oldData, 0. cbn in H. injection H as <-.
    fold ratio. rewrite Hn. unfold MAX_SAFE_INTEGER.
    split; [reflexivity|]. split; [reflexivity|]. split; [lia|]. split; [lia|reflexivity].
  - discriminate.
  - destruct ((0 <=? z) && (z <=? MAX_SAFE_INTEGER)) eqn:Hz; cbn [bind]; [|discriminate].
    destruct (2 * z <=? MAX_SAFE_INTEGER) eqn:H2; [|discriminate].
    intros H. apply (f_equal (fun r => match r with Ok a => a | Throw _ => [] end)) in H.
    cbv beta iota in H. subst resultData.
    exists oldData, z. apply andb_true_iff in Hz as [Hz1 Hz2].
    fold ratio. rewrite Hn. cbn [ToIndex]. rewrite Hz1, Hz2. cbn [andb].
    split; [reflexivity|]. split; [reflexivity|]. split; [lia|]. split; [lia|].
    apply resample_loop_spec.
Qed.

Lemma resample_is_int16 (audioBuffer : AudioBuffer) (resultData : list Z) :
  resample audioBuffer = Ok resultData -> Forall is_int16 resultData.
Proof.
  intros H. apply resample_inv in H as (oldData & n & _ & _ & _ & _ & ->).
  apply Forall_map. apply Forall_forall. intros i _. apply quantize_is_int16.
Qed.

Lemma encode_samples_too_long (resultData : list Z) :
  MAX_SAFE_INTEGER < 44 + byteLength resultData ->
  encode_samples resultData = Throw RangeError.
Proof.
  intros H. unfold encode_samples, new_ArrayBuffer. cbn [ToIndex].
  destruct (Z.leb_spec (44 + byteLength resultData) MAX_SAFE_INTEGER) as [Hle|Hgt]; [lia|].
  rewrite andb_false_r. reflexivity.
Qed.

Lemma int16_le_bytes (x : Z) :
  is_int16 x -> int16_le ((x mod 2 ^ 16) mod 256) ((x mod 2 ^ 16) / 256) = x.
Proof.
  unfold is_int16, int16_le. intros H. cbv zeta.
  change (2 ^ 8) with 256. change (2 ^ 16) with 65536. change (2 ^ 15) with 32768.
  pose proof (Z.div_mod (x mod 65536) 256 ltac:(lia)) as Hd.
  replace (x mod 65536 mod 256 + 256 * (x mod 65536 / 256)) with (x mod 65536) by lia.
  destruct (Z.leb_spec 32768 (x mod 65536)) as [Hu|Hu].
  - destruct (Z.ltb_spec x 0) as [Hx|Hx].
    + rewrite <- (Z.mod_unique x 65536 (-1) (x + 65536)); lia.
    + rewrite Z.mod_small in Hu; lia.
  - destruct (Z.ltb_spec x 0) as [Hx|Hx].
    + rewrite <- (Z.mod_unique x 65536 (-1) (x + 65536)) in Hu; lia.
    + rewrite Z.mod_small; lia.
Qed.

Lemma decode_Int16Array_buffer (a : list Z) :
  Forall is_int16 a -> decode_int16_le (Int16Array_buffer a) = a.
Proof.
  induction 1 as [|x a Hx _ IH]; [reflexivity|].
  unfold Int16Array_buffer in *.
  change (flat_map int16_bytes (x :: a))
    with ([(x mod 2 ^ 16) mod 256; (x mod 2 ^ 16) / 256] ++ flat_map int16_bytes a).
  cbn [app decode_int16_le]. rewrite IH, int16_le_bytes by exact Hx. reflexivity.
Qed.

Lemma payload_of_encoded (resultData : list Z) :
  drop 44 (wav_header (byteLength resultData) ++ Int16Array_buffer resultData)
  = Int16Array_buffer resultData.
Proof. apply drop_app_length'. symmetry. apply length_wav_header. Qed.

Lemma typed_get_elem (a : list number) (k : integral) (x : number) :
  typed_get a k = Some x -> x ∈ a.
Proof.
  destruct k as [| |z]; try discriminate. cbn [typed_get].
  destruct (0 <=? z); [|discriminate]. apply list_elem_of_lookup_2.
Qed.

Lemma quantize_selected (oldData : list number) (k : integral) :
  selected_from oldData (quantize (typed_get oldData k)).
Proof.
  destruct (typed_get oldData k) as [x|] eqn:H.
  - right. exists x. split; [exact (typed_get_elem _ _ _ H)|reflexivity].
  - left. reflexivity.
Qed.

Lemma quantize_silent (x : number) : silent x = true -> quantize (Some x) = 0.
Proof. destruct x as [[|]| | |]; try discriminate; intros _; vm_compute; reflexivity. Qed.

Lemma Int16Array_buffer_zeros (n : nat) :
  Int16Array_buffer (replicate n 0) = replicate (2 * n) 0.
Proof.
  induction n as [|n IH]; [reflexivity|].
  replace (2 * S n)%nat with (S (S (2 * n))) by lia.
  unfold Int16Array_buffer in *. cbn [replicate].
  change (flat_map int16_bytes (0 :: replicate n 0))
    with ([0; 0] ++ flat_map int16_bytes (replicate n 0)).
  rewrite IH. reflexivity.
Qed.

End Encoder.

(** In the embedding, where an allocation of up to 2^53 - 1 bytes
    succeeds, [encodeWAV] evaluates as follows. *)
Lemma encodeWAV_evaluates (audioBuffer : AudioBuffer) :
  match getChannelData audioBuffer 0 with
  | Throw _ => encodeWAV audioBuffer = Throw IndexSizeError
  | Ok oldData =>
      match newLength_of oldData (ratio_of (buffer_sampleRate audioBuffer)) with
      | INaN =>
          exists blob, encodeWAV audioBuffer = Ok blob /\ length (blob_bytes blob) = 44%nat
      | IInf _ => encodeWAV audioBuffer = Throw RangeError
      | IInt n =>
          if (0 <=? n) && (44 + 2 * n <=? MAX_SAFE_INTEGER) then
            exists blob, encodeWAV audioBuffer = Ok blob /\
                         Z.of_nat (length (blob_bytes blob)) = 44 + 2 * n
          else encodeWAV audioBuffer = Throw RangeError
      end
  end.
Proof.
  destruct (getChannelData audioBuffer 0) as [oldData|e] eqn:Hc.
  - set (ratio := ratio_of (buffer_sampleRate audioBuffer)).
    destruct (newLength_of oldData ratio) as [|neg|n] eqn:Hn.
    + assert (Hr : resample audioBuffer = Ok []).
      { unfold resample. rewrite Hc. cbn [mbind result_bind bind]. fold ratio. rewrite Hn.
        reflexivity. }
      eexists. split.
      * apply (encodeWAV_ok _ _ Hr). unfold byteLength, MAX_SAFE_INTEGER. cbn. lia.
      * cbn [blob_bytes]. rewrite length_app, length_wav_header. reflexivity.
    + unfold encodeWAV, resample. rewrite Hc. cbn [mbind result_bind bind]. fold ratio.
      rewrite Hn. reflexivity.
    + destruct (Z.leb_spec 0 n) as [H0|H0]; cbn [andb].
      * destruct (Z.leb_spec (44 + 2 * n) MAX_SAFE_INTEGER) as [Hle|Hgt].
        -- pose proof (resample_ok audioBuffer oldData ratio n Hc eq_refl Hn H0 ltac:(lia)) as Hr.
           eexists. split.
           ++ apply (encodeWAV_ok _ _ Hr). unfold byteLength. rewrite length_map_seq. lia.
           ++ cbn [blob_bytes]. rewrite length_app, length_wav_header, Nat2Z.inj_add.
              rewrite length_Int16Array_buffer. unfold byteLength. rewrite length_map_seq. lia.
        -- unfold encodeWAV.
           destruct (Z.leb_spec (2 * n) MAX_SAFE_INTEGER) as [Hle|Hgt2].
           ++ rewrite (resample_ok audioBuffer oldData ratio n Hc eq_refl Hn H0 Hle).
              cbn [mbind result_bind bind]. apply encode_samples_too_long.
              unfold byteLength. rewrite length_map_seq. lia.
           ++ unfold resample. rewrite Hc. cbn [mbind result_bind bind]. fold ratio. rewrite Hn.
              unfold new_Int16Array. cbn [ToIndex].
              destruct ((0 <=? n) && (n <=? MAX_SAFE_INTEGER)); cbn [bind]; [|reflexivity].
              destruct (Z.leb_spec (2 * n) MAX_SAFE_INTEGER); [lia|reflexivity].
      * unfold encodeWAV, resample. rewrite Hc. cbn [mbind result_bind bind]. fold ratio.
        rewrite Hn. unfold new_Int16Array. cbn [ToIndex].
        destruct (Z.leb_spec 0 n); [lia|]. reflexivity.
  - unfold encodeWAV, resample. rewrite Hc. cbn [mbind result_bind bind].
    unfold getChannelData in Hc. destruct (buffer_channels audioBuffer !! 0%nat); [discriminate|].
    injection Hc as <-. reflexivity.
Qed.

(** Property X1.  How [encodeWAV] can end.  The only exceptions it throws
    are [IndexSizeError] and [RangeError].  Without a channel 0 it fails
    with [IndexSizeError].  When the rounded output length [newLength] is
    infinite, negative, or needs a buffer of more than 2^53 - 1 bytes, it
    fails with [RangeError].  Whenever it returns a blob, the blob has
    exactly [44 + 2 * newLength] bytes, and exactly 44 when [newLength] is
    NaN.  Nothing is said of when the allocations succeed below that
    bound: that is up to the engine. *)
Theorem encodeWAV_outcomes (audioBuffer : AudioBuffer) : encodeWAV_outcome audioBuffer.
Proof.
  unfold encodeWAV_outcome. pose proof (encodeWAV_evaluates audioBuffer) as H.
  destruct (getChannelData audioBuffer 0) as [oldData|e0].
  - destruct (newLength_of oldData (ratio_of (buffer_sampleRate audioBuffer))) as [|neg|n].
    + destruct H as (blob0 & H & Hlen). rewrite H. split.
      * intros e He. discriminate.
      * intros blob Hb. injection Hb as <-. exact Hlen.
    + rewrite H. split; [|reflexivity].
      intros e He. injection He as <-. right. reflexivity.
    + destruct ((0 <=? n) && (44 + 2 * n <=? MAX_SAFE_INTEGER)).
      * destruct H as (blob0 & H & Hlen). rewrite H. split.
        -- intros e He. discriminate.
        -- intros blob Hb. injection Hb as <-. exact Hlen.
      * rewrite H. split; [|reflexivity].
        intros e He. injection He as <-. right. reflexivity.
  - rewrite H. split; [|reflexivity].
    intros e He. injection He as <-. left. reflexivity.
Qed.

(** Property X2.  The payload of every blob that [encodeWAV] returns
    decodes, as little-endian signed 16-bit samples, to exactly the
    samples the resampler produced: no sample is lost or altered between
    the [Int16Array] and the bytes that follow the header. *)
Theorem payload_decodes_to_samples (audioBuffer : AudioBuffer) (blob : Blob) :
  encodeWAV audioBuffer = Ok blob ->
  resample audioBuffer = Ok (decode_int16_le (payload blob)).
Proof.
  intros H. apply encodeWAV_inv in H as (resultData & Hr & ->).
  unfold payload. cbn [blob_bytes]. rewrite payload_of_encoded.
  rewrite decode_Int16Array_buffer; [exact Hr|].
  apply (resample_is_int16 _ _ Hr).
Qed.

Lemma payload_decodes_to_samples_witness :
  resample half_rate_clip = Ok (decode_int16_le (payload half_rate_blob)).
Proof. apply payload_decodes_to_samples. vm_compute. reflexivity. Defined.

(** Property X4.  Resampling only selects: every output sample is either
    0 (an offset past the end of the source) or the quantization of a
    sample of channel 0.  No sample is interpolated or mixed. *)
Theorem resample_selects_input_samples
    (audioBuffer : AudioBuffer) (oldData : list number) (resultData : list Z) :
  getChannelData audioBuffer 0 = Ok oldData ->
  resample audioBuffer = Ok resultData ->
  Forall (selected_from oldData) resultData.
Proof.
  intros Hc H. apply resample_inv in H as (oldData' & n & Hc' & _ & _ & _ & ->).
  rewrite Hc in Hc'. injection Hc' as <-.
  apply Forall_map. apply Forall_forall. intros i _. apply quantize_selected.
Qed.

Lemma resample_selects_input_samples_witness :
  Forall (selected_from [half]) [16383; 0].
Proof.
  apply (resample_selects_input_samples half_rate_clip [half] [16383; 0]);
    vm_compute; reflexivity.
Defined.

(** Property X5.  Digital silence stays silence at every source rate: when
    all samples of channel 0 are zeros, every output sample is 0 and the
    payload consists of zero bytes only. *)
Theorem silence_is_preserved
    (audioBuffer : AudioBuffer) (oldData : list number) (blob : Blob) :
  getChannelData audioBuffer 0 = Ok oldData ->
  Forall (fun x => silent x = true) oldData ->
  encodeWAV audioBuffer = Ok blob ->
  exists n, resample audioBuffer = Ok (replicate n 0) /\
            payload blob = replicate (2 * n) 0.
Proof.
  intros Hc Hs H. apply encodeWAV_inv in H as (resultData & Hr & ->).
  pose proof Hr as Hr'.
  apply resample_inv in Hr' as (oldData' & n & Hc' & _ & _ & _ & Heq).
  rewrite Hc in Hc'. injection Hc' as <-.
  assert (Hz : resultData = replicate (Z.to_nat n) 0).
  { rewrite Heq. apply map_seq_const. intros i _.
    destruct (typed_get oldData (offset_of (ratio_of (buffer_sampleRate audioBuffer)) i))
      as [x|] eqn:Hx; [|reflexivity].
    apply quantize_silent. apply typed_get_elem in Hx.
    rewrite Forall_forall in Hs. exact (Hs x Hx). }
  exists (Z.to_nat n). rewrite Hr, Hz. split; [reflexivity|].
  unfold payload. cbn [blob_bytes]. rewrite payload_of_encoded. apply Int16Array_buffer_zeros.
Qed.

Lemma silence_is_preserved_witness :
  exists n, resample silent_clip = Ok (replicate n 0) /\
            payload silent_blob = replicate (2 * n) 0.
Proof.
  apply (silence_is_preserved silent_clip
           [S754_zero false; S754_zero true; S754_zero false] silent_blob).
  - reflexivity.
  - repeat apply List.Forall_cons; try apply List.Forall_nil; reflexivity.
  - vm_compute. reflexivity.
Defined.

(** ** Resampling at integer and half ratios *)

Section Ratios.

Lemma new_location_exact (m : Z) : new_location m 0 = loc_Exact.
Proof. unfold new_location. destruct (Z.even m); reflexivity. Qed.

(** Exact quotients of integers are computed exactly. *)
Lemma div_of_Z_exact (a b : Z) :
  0 < a -> 0 < b -> a * b < 2 ^ 53 ->
  div (of_Z (a * b)) (of_Z b) = of_Z a.
Proof.
  intros Ha Hb Hab.
  assert (Hc : 0 < a * b) by nia.
  assert (Hb' : b <= a * b) by nia.
  assert (Ha' : a <= a * b) by nia.
  destruct (of_Z_pos (a * b)) as (mc & ec & -> & [Hmc Hec] & Hec' & Hvc); [lia|].
  destruct (of_Z_pos b) as (mb & eb & -> & [Hmb Heb] & Heb' & Hvb); [lia|].
  destruct (of_Z_pos a) as (ma & ea & -> & Hna & Hea' & Hva); [lia|].
  pose proof Hna as [Hma Hea].
  pose proof (of_Z_exponent (a * b) ec mc Hc Hmc ltac:(lia) Hvc) as Eec.
  pose proof (of_Z_exponent b eb mb Hb Hmb ltac:(lia) Hvb) as Eeb.
  pose proof (of_Z_exponent a ea ma Ha Hma ltac:(lia) Hva) as Eea.
  pose proof (Z.log2_mul_above a b ltac:(lia) ltac:(lia)) as Hup.
  pose proof (Z.log2_mul_below a b ltac:(lia) ltac:(lia)) as Hlow.
  unfold div, SFdiv, SFdiv_core_binary.
  cbn [Zdigits2]. rewrite !digits_log2, Hmc, Hmb.
  assert (He' : Z.min (fexp prec emax (52 + 1 + ec - (52 + 1 + eb))) (ec - eb) = ec - eb - 53).
  { unfold fexp, SpecFloat.emin, prec, emax. lia. }
  rewrite He'. replace (ec - eb - (ec - eb - 53)) with 53 by lia.
  rewrite Z.shiftl_mul_pow2 by lia.
  set (k := 53 - ec + eb + ea).
  assert (Hk : 0 <= k) by (unfold k; lia).
  assert (Hq : Zpos mc * 2 ^ 53 = (Zpos ma * 2 ^ k) * Zpos mb).
  { rewrite Hvc, Hvb, Hva. unfold k.
    replace (a * 2 ^ (- ea) * 2 ^ (53 - ec + eb + ea) * (b * 2 ^ (- eb)))
      with (a * b * (2 ^ (- ea) * 2 ^ (53 - ec + eb + ea) * 2 ^ (- eb))) by ring.
    rewrite <- !Z.pow_add_r by lia.
    rewrite <- Z.mul_assoc, <- Z.pow_add_r by lia.
    f_equal. f_equal. lia. }
  rewrite (div_eucl_exact _ _ (Zpos ma * 2 ^ k)) by (exact Hq || lia).
  rewrite new_location_exact. cbn [xorb].
  assert (HM : exists M, Zpos M = Zpos ma * 2 ^ k).
  { exists (Z.to_pos (Zpos ma * 2 ^ k)). rewrite Z2Pos.id; [reflexivity|].
    assert (0 < 2 ^ k) by (apply Z.pow_pos_nonneg; lia). nia. }
  destruct HM as [M HM]. rewrite <- HM.
  apply (round_aux_normal false M ma _ ea k); [exact HM|exact Hk|unfold k; lia|exact Hna].
Qed.

Lemma newLength_integer_ratio (oldData : list number) (r n : Z) :
  0 < r < 2 ^ 53 -> 0 <= n -> Z.of_nat (length oldData) = n * r -> n * r < 2 ^ 53 ->
  newLength_of oldData (of_Z r) = IInt n.
Proof.
  intros Hr Hn Hlen Hb. unfold newLength_of. rewrite Hlen.
  destruct (Z.eq_dec n 0) as [->|Hne].
  - cbn [Z.mul]. destruct (of_Z_pos r) as (m & e & -> & _); [lia|]. reflexivity.
  - rewrite div_of_Z_exact by lia. apply Math_round_of_Z. nia.
Qed.

Lemma ratio_integer (r : Z) :
  0 < r -> r * 16000 < 2 ^ 53 -> ratio_of (of_Z (r * 16000)) = of_Z r.
Proof. intros Hr Hb. unfold ratio_of, sampleRate. apply div_of_Z_exact; lia. Qed.

Lemma ratio_8000 : ratio_of (of_Z 8000) = half.
Proof. reflexivity. Qed.

Lemma mul_half (m : positive) (e : Z) :
  normal m e -> -1074 < e ->
  mul (S754_finite false m e) half = S754_finite false m (e - 1).
Proof.
  intros [Hm He] Hmin. unfold mul, half, SFmul. cbn [xorb].
  apply (round_aux_normal false _ m _ (e - 1) 52); [|lia|lia|unfold normal; lia].
  rewrite Pos2Z.inj_mul. reflexivity.
Qed.

Lemma div_half (m : positive) (e : Z) :
  normal m e -> e < 971 ->
  div (S754_finite false m e) half = S754_finite false m (e + 1).
Proof.
  intros [Hm He] Hmax. unfold div, half, SFdiv, SFdiv_core_binary.
  cbn [Zdigits2]. rewrite digits_log2, Hm.
  change (Z.pos (digits2_pos 4503599627370496)) with 53.
  assert (He' : Z.min (fexp prec emax (52 + 1 + e - (53 + -53))) (e - -53) = e).
  { unfold fexp, SpecFloat.emin, prec, emax. lia. }
  rewrite He'. replace (e - -53 - e) with 53 by lia.
  rewrite Z.shiftl_mul_pow2 by lia.
  rewrite (div_eucl_exact _ _ (Zpos m~0)) by lia.
  cbn [xorb]. rewrite new_location_exact.
  apply (round_aux_normal false _ m _ (e + 1) 1); unfold normal; auto; lia.
Qed.

(** [Math.round(i * 0.5)]: halves round up. *)
Lemma offset_of_half (i : nat) :
  Z.of_nat i < 2 ^ 53 -> offset_of half i = IInt ((Z.of_nat i + 1) / 2).
Proof.
  intros Hi. unfold offset_of.
  destruct (Z.eq_dec (Z.of_nat i) 0) as [->|Hne]; [reflexivity|].
  destruct (of_Z_pos (Z.of_nat i)) as (m & e & -> & Hn & He & Hm); [lia|].
  rewrite mul_half by (exact Hn || lia). cbn [Math_round]. f_equal.
  unfold round_half_up. cbn [cond_Zopp].
  destruct (Z.leb_spec 0 (e - 1)) as [|_]; [lia|].
  rewrite Hm.
  replace (- (e - 1)) with (Z.succ (- e)) by lia.
  replace (1 - (e - 1)) with (Z.succ (Z.succ (- e))) by lia.
  rewrite !Z.pow_succ_r by lia.
  assert (Hp : 0 < 2 ^ (- e)) by (apply Z.pow_pos_nonneg; lia).
  replace (2 * (Z.of_nat i * 2 ^ (- e)) + 2 * 2 ^ (- e))
    with ((Z.of_nat i + 1) * (2 * 2 ^ (- e))) by ring.
  rewrite Z.mul_comm, (Z.mul_comm 2 (2 * 2 ^ (- e))).
  rewrite Z.div_mul_cancel_l by lia. reflexivity.
Qed.

Lemma newLength_half (oldData : list number) :
  Z.of_nat (length oldData) < 2 ^ 52 ->
  newLength_of oldData half = IInt (2 * Z.of_nat (length oldData)).
Proof.
  intros Hl. unfold newLength_of.
  destruct (Z.eq_dec (Z.of_nat (length oldData)) 0) as [->|Hne]; [reflexivity|].
  destruct (of_Z_pos (Z.of_nat (length oldData))) as (m & e & -> & Hn & He & Hm); [lia|].
  pose proof Hn as [Hlog _].
  pose proof (of_Z_exponent (Z.of_nat (length oldData)) e m ltac:(lia) Hlog ltac:(lia) Hm)
    as Ee.
  assert (Z.log2 (Z.of_nat (length oldData)) < 52) by (apply Z.log2_lt_pow2; lia).
  rewrite div_half by (exact Hn || lia). cbn [Math_round]. f_equal.
  apply round_half_up_scaled; [lia|].
  rewrite Hm. replace (- e) with (Z.succ (- (e + 1))) by lia.
  rewrite Z.pow_succ_r by lia. ring.
Qed.

End Ratios.

(** Property X6.  When the source rate is an integer multiple [r] of
    16 kHz (32, 48, 64, 96 kHz, ...) and the source has [n * r] frames, the
    output has [n] samples and output sample [i] is the quantization of
    source sample [i * r]: the encoder keeps every [r]-th sample and drops
    the others, without any filtering. *)
Theorem integer_ratio_keeps_every_rth_sample
    (audioBuffer : AudioBuffer) (oldData : list number) (r n : nat) :
  (0 < r)%nat ->
  buffer_sampleRate audioBuffer = of_Z (Z.of_nat r * 16000) ->
  Z.of_nat r * 16000 < 2 ^ 53 ->
  getChannelData audioBuffer 0 = Ok oldData ->
  length oldData = (n * r)%nat ->
  Float32Array_fits oldData ->
  resample audioBuffer = Ok (decimate r oldData n).
Proof.
  intros Hr Hrate Hb Hc Hlen Hfit. unfold Float32Array_fits, MAX_SAFE_INTEGER in Hfit.
  assert (Hratio : ratio_of (buffer_sampleRate audioBuffer) = of_Z (Z.of_nat r)).
  { rewrite Hrate. apply ratio_integer; lia. }
  assert (Hnr : Z.of_nat n * Z.of_nat r < 2 ^ 53) by nia.
  rewrite (resample_ok audioBuffer oldData (of_Z (Z.of_nat r)) (Z.of_nat n) Hc Hratio).
  - apply (f_equal Ok). rewrite Nat2Z.id. unfold decimate.
    apply map_ext_in. intros i Hi. apply in_seq in Hi.
    rewrite offset_of_integer_ratio by nia.
    rewrite <- Nat2Z.inj_mul, typed_get_index. reflexivity.
  - apply newLength_integer_ratio; lia.
  - lia.
  - unfold MAX_SAFE_INTEGER. nia.
Qed.

Lemma integer_ratio_keeps_every_rth_sample_witness :
  resample three_to_one = Ok [16383; 32767].
Proof.
  apply (integer_ratio_keeps_every_rth_sample three_to_one
           [half; of_Z 0; of_Z 0; of_Z 1; of_Z 0; of_Z 0] 3 2);
    try reflexivity; try lia.
  unfold Float32Array_fits, MAX_SAFE_INTEGER. simpl. lia.
Defined.

(** Property X7.  An 8 kHz source is stretched to twice its length, and
    output sample [i] is read at source offset [(i + 1) / 2], because
    [Math.round] rounds the halves up: the first source sample appears
    once, every later one twice, and the last output sample reads past
    the end of the source and is 0. *)
Theorem half_rate_doubles_samples (audioBuffer : AudioBuffer) (oldData : list number) :
  buffer_sampleRate audioBuffer = of_Z 8000 ->
  getChannelData audioBuffer 0 = Ok oldData ->
  Float32Array_fits oldData ->
  resample audioBuffer = Ok (doubled oldData) /\
  (oldData <> [] -> List.last (doubled oldData) 1 = 0).
Proof.
  intros Hrate Hc Hfit. unfold Float32Array_fits, MAX_SAFE_INTEGER in Hfit.
  assert (Hratio : ratio_of (buffer_sampleRate audioBuffer) = half).
  { rewrite Hrate. exact ratio_8000. }
  split.
  - rewrite (resample_ok audioBuffer oldData half (2 * Z.of_nat (length oldData)) Hc Hratio).
    + apply (f_equal Ok). unfold doubled.
      replace (Z.to_nat (2 * Z.of_nat (length oldData))) with (2 * length oldData)%nat by lia.
      apply map_ext_in. intros i Hi. apply in_seq in Hi.
      rewrite offset_of_half by lia.
      replace ((Z.of_nat i + 1) / 2) with (Z.of_nat ((i + 1) / 2)).
      * rewrite typed_get_index. reflexivity.
      * rewrite Nat2Z.inj_div, Nat2Z.inj_add. reflexivity.
    + apply newLength_half. lia.
    + lia.
    + unfold MAX_SAFE_INTEGER. lia.
  - intros Hne. unfold doubled.
    destruct (length oldData) as [|n] eqn:Hlen.
    { destruct oldData; [congruence|discriminate]. }
    replace (2 * S n)%nat with (S (2 * n + 1)) by lia.
    rewrite seq_S, map_app. cbn [map]. rewrite last_last. cbn [Nat.add].
    replace ((2 * n + 1 + 1) / 2)%nat with (S n).
    + rewrite lookup_ge_None_2 by lia. reflexivity.
    + replace (2 * n + 1 + 1)%nat with (S n * 2)%nat by lia.
      rewrite Nat.div_mul by lia. reflexivity.
Qed.

Lemma half_rate_doubles_samples_witness :
  resample half_rate_clip = Ok [16383; 0] /\
  ([half] <> [] -> List.last (doubled [half]) 1 = 0).
Proof.
  apply (half_rate_doubles_samples half_rate_clip [half]); try reflexivity.
  unfold Float32Array_fits, MAX_SAFE_INTEGER. simpl. lia.
Defined.

(** ** Writing the header tags *)

Section Tags.

Lemma charCodeAt_byte (c : ascii) : charCodeAt c mod 2 ^ 8 = charCodeAt c.
Proof.
  unfold charCodeAt. apply Z.mod_small.
  pose proof (N_ascii_bounded c) as H. change (2 ^ 8) with 256. lia.
Qed.

Lemma length_charCodes (s : string) : length (charCodes s) = String.length s.
Proof.
  unfold charCodes. rewrite length_map. induction s as [|c s IH]; [reflexivity|].
  cbn. rewrite IH. reflexivity.
Qed.

Lemma writeString_from_spec (s : string) (view : list byte) (offset i : Z) :
  0 <= offset + i ->
  writeString_from view offset i s
  = match s with
    | EmptyString => Ok view
    | String _ _ =>
        if offset + i + Z.of_nat (String.length s) <=? Z.of_nat (length view)
        then Ok (write_at view (Z.to_nat (offset + i)) (charCodes s))
        else Throw RangeError
    end.
Proof.
  revert view i. induction s as [|c s IH]; intros view i Hi; [reflexivity|].
  cbn [writeString_from]. unfold setUint8, checked_write. rewrite charCodeAt_byte.
  cbn [length String.length].
  destruct (Z.leb_spec 0 (offset + i)) as [_|]; [|lia]. cbn [andb].
  destruct (Z.leb_spec (offset + i + Z.of_nat 1) (Z.of_nat (length view))) as [H1|H1].
  - cbn [mbind result_bind bind]. rewrite IH by lia.
    unfold charCodes. cbn [list_ascii_of_string map write_at].
    replace (Z.to_nat (offset + (i + 1))) with (S (Z.to_nat (offset + i))) by lia.
    destruct s as [|c' s'].
    + cbn [String.length].
      destruct (Z.leb_spec (offset + i + Z.of_nat 1) (Z.of_nat (length view))); [|lia].
      reflexivity.
    + rewrite length_insert.
      replace (offset + (i + 1) + Z.of_nat (String.length (String c' s')))
        with (offset + i + Z.of_nat (S (String.length (String c' s')))) by lia.
      reflexivity.
  - cbn [mbind result_bind bind].
    destruct (Z.leb_spec (offset + i + Z.of_nat (S (String.length s))) (Z.of_nat (length view)));
      [lia|reflexivity].
Qed.

End Tags.

(** Property X8.  For a non-empty string, [writeString] either replaces
    exactly the bytes [offset .. offset + length - 1] of the view by the
    character codes of the string, leaving every other byte and the
    length of the view unchanged, or, when the string does not fit
    between [offset] and the end of the view (or [offset] is negative),
    fails with [RangeError]. *)
Theorem writeString_writes_char_codes (view : list byte) (offset : Z) (s : string) :
  s <> EmptyString ->
  writeString view offset s
  = if (0 <=? offset) && (offset + Z.of_nat (String.length s) <=? Z.of_nat (length view))
    then Ok (take (Z.to_nat offset) view ++ charCodes s
             ++ drop (Z.to_nat offset + String.length s) view)
    else Throw RangeError.
Proof.
  intros Hs. unfold writeString.
  destruct (Z.leb_spec 0 offset) as [H0|H0]; cbn [andb].
  - rewrite writeString_from_spec by lia. destruct s as [|c s]; [congruence|].
    rewrite Z.add_0_r.
    destruct (Z.leb_spec (offset + Z.of_nat (String.length (String c s)))
                (Z.of_nat (length view))) as [H1|H1]; [|reflexivity].
    rewrite write_at_spec by (rewrite length_charCodes; lia).
    rewrite length_charCodes. reflexivity.
  - destruct s as [|c s]; [congruence|].
    cbn [writeString_from]. unfold setUint8, checked_write.
    destruct (Z.leb_spec 0 (offset + 0)); [lia|]. reflexivity.
Qed.

Lemma writeString_writes_char_codes_witness :
  writeString [1; 2; 3; 4; 5; 6] 1 "WAV" = Ok [1; 87; 65; 86; 5; 6] /\
  writeString [1; 2; 3; 4; 5; 6] 4 "WAV" = Throw RangeError.
Proof.
  split.
  - rewrite writeString_writes_char_codes by discriminate. reflexivity.
  - rewrite writeString_writes_char_codes by discriminate. reflexivity.
Defined.

(** ** Every run of the extraction pipeline *)

Ltac run_pipeline :=
  unfold extractAudioFromVideo, try_catch, try_block, and_then, lift,
    onProgress, console_error, throw, ret.

(** The promise around the reader, by cases on the read. *)
Lemma reader_promise_spec {File : Type} (host : Host File) (wavBlob : Blob) (t : trace) :
  reader_promise host wavBlob t
  = match readAsDataURL host wavBlob with
    | Ok url => (Ok {| data := split_comma_1 url; mimeType := "audio/wav" |}, t)
    | Throw _ =>
        (Throw (ProgressEvent "error"),
         {| progress := progress t; console := console t;
            uncaught := uncaught t ++ [TypeError] |})
    end.
Proof.
  unfold reader_promise. destruct (readAsDataURL host wavBlob); reflexivity.
Qed.

Lemma extraction_ok_inv {File : Type} (host : Host File) (videoFile : File)
    (t t' : trace) (audioPart : AudioPart) :
  extractAudioFromVideo host videoFile t = (Ok audioPart, t') ->
  progress t' = progress t ++ extraction_messages /\ console t' = console t /\
  uncaught t' = uncaught t.
Proof.
  run_pipeline.
  destruct (new_AudioContext host) as [[]|e1]; [|discriminate].
  cbv beta iota.
  destruct (arrayBuffer host videoFile) as [bytes|e2]; [|discriminate].
  cbv beta iota.
  destruct (decodeAudioData host bytes) as [audioBuffer|e3]; [|discriminate].
  cbv beta iota.
  destruct (encodeWAV audioBuffer) as [wavBlob|e4]; [|discriminate].
  cbv beta iota. rewrite reader_promise_spec.
  destruct (readAsDataURL host wavBlob) as [url|e5]; [|discriminate].
  cbn [progress console uncaught]. intros H.
  apply (f_equal snd) in H. cbn [snd] in H. subst t'. cbn [progress console uncaught].
  rewrite <- !app_assoc. split; [reflexivity|]. split; reflexivity.
Qed.

Lemma until_comma_free (payload rest : string) :
  comma_free payload = true ->
  until_comma (payload ++ String "," rest) = payload /\ until_comma payload = payload.
Proof.
  induction payload as [|c p IH]; intros H.
  - split; reflexivity.
  - cbn [comma_free] in H. apply andb_true_iff in H as [Hc Hp].
    apply negb_true_iff in Hc. rewrite append_cons. cbn [until_comma]. rewrite Hc.
    destruct (IH Hp) as [-> ->]. split; reflexivity.
Qed.

(** Property X9.  When the audio context, the file read, the decoder,
    the encoder and the [FileReader] all succeed, the pipeline resolves
    with the part of the data URL after its first comma and the MIME type
    [audio/wav], after reporting exactly the three progress messages in
    order, without writing to the console and without leaving any
    exception uncaught. *)
Theorem extraction_succeeds
    {File : Type} (host : Host File) (videoFile : File) (t : trace)
    (bytes : list byte) (audioBuffer : AudioBuffer) (wavBlob : Blob) (url : string) :
  new_AudioContext host = Ok tt ->
  arrayBuffer host videoFile = Ok bytes ->
  decodeAudioData host bytes = Ok audioBuffer ->
  encodeWAV audioBuffer = Ok wavBlob ->
  readAsDataURL host wavBlob = Ok url ->
  extractAudioFromVideo host videoFile t
  = (Ok {| data := split_comma_1 url; mimeType := "audio/wav" |},
     {| progress := progress t ++ extraction_messages; console := console t;
        uncaught := uncaught t |}).
Proof.
  intros H1 H2 H3 H4 H5. run_pipeline.
  rewrite H1, H2, H3, H4, reader_promise_spec, H5. cbn [progress console uncaught].
  rewrite <- !app_assoc. reflexivity.
Qed.

Lemma extraction_succeeds_witness :
  extractAudioFromVideo working_host tt empty_trace
  = (Ok {| data := Some "UklGRg=="%string; mimeType := "audio/wav" |},
     {| progress := extraction_messages; console := []; uncaught := [] |}).
Proof.
  apply (extraction_succeeds working_host tt empty_trace [0; 1; 2] half_rate_clip
           half_rate_blob "data:audio/wav;base64,UklGRg==");
    vm_compute; reflexivity.
Defined.

(** Property X10.  A failure of the [FileReader] is not caught by the
    [try] block, whose promise is returned without being awaited.  The
    pipeline then rejects with the [error] event that the reader hands to
    [onerror], which is [reject] itself: neither the reader's own error
    nor the generic extraction error.  [console.error] is not called.
    The [loadend] event that follows runs the [onloadend] handler, which
    throws a [TypeError] on the [null] result; nobody catches it. *)
Theorem reader_failure_is_not_caught
    {File : Type} (host : Host File) (videoFile : File) (t : trace)
    (bytes : list byte) (audioBuffer : AudioBuffer) (wavBlob : Blob) (e : exception) :
  new_AudioContext host = Ok tt ->
  arrayBuffer host videoFile = Ok bytes ->
  decodeAudioData host bytes = Ok audioBuffer ->
  encodeWAV audioBuffer = Ok wavBlob ->
  readAsDataURL host wavBlob = Throw e ->
  extractAudioFromVideo host videoFile t
  = (Throw (ProgressEvent "error"),
     {| progress := progress t ++ extraction_messages; console := console t;
        uncaught := uncaught t ++ [TypeError] |}).
Proof.
  intros H1 H2 H3 H4 H5. run_pipeline.
  rewrite H1, H2, H3, H4, reader_promise_spec, H5. cbn [progress console uncaught].
  rewrite <- !app_assoc. reflexivity.
Qed.

Lemma reader_failure_is_not_caught_witness :
  readAsDataURL reader_fails_host half_rate_blob = Throw (DOMException "NotReadableError") /\
  extractAudioFromVideo reader_fails_host tt empty_trace
  = (Throw (ProgressEvent "error"),
     {| progress := extraction_messages; console := []; uncaught := [TypeError] |}).
Proof.
  split; [reflexivity|].
  apply (reader_failure_is_not_caught reader_fails_host tt empty_trace [0; 1; 2]
           half_rate_clip half_rate_blob (DOMException "NotReadableError"));
    vm_compute; reflexivity.
Defined.

(** Property X11.  Every run of the pipeline ends in one of two ways.
    Either a step of the [try] block fails (the audio context, the file
    read, the decoder or the encoder, each fed with the result of the
    step before): the result is the generic extraction error, the
    progress messages up to that step were reported, and the error of
    that very step is the single new console entry.  Or the encoder
    returns a blob for the decoded bytes of the file: all three messages
    were reported, the console is untouched, and the result is decided by
    the [FileReader] on that blob: its payload on success, and on failure
    the [error] event, with the [TypeError] of the [loadend] handler left
    uncaught. *)
Theorem extraction_outcomes
    {File : Type} (host : Host File) (videoFile : File) (t : trace) :
  let '(r, t') := extractAudioFromVideo host videoFile t in
  (exists k e, failing_step host videoFile k e /\
               r = Throw extraction_failed /\
               extraction_trace t t' k (Some e) []) \/
  (exists wavBlob, encoded_blob host videoFile wavBlob /\
     match readAsDataURL host wavBlob with
     | Ok url =>
         r = Ok {| data := split_comma_1 url; mimeType := "audio/wav" |} /\
         extraction_trace t t' 3 None []
     | Throw _ =>
         r = Throw (ProgressEvent "error") /\
         extraction_trace t t' 3 None [TypeError]
     end).
Proof.
  run_pipeline.
  unfold extraction_trace, failing_step, encoded_blob.
  destruct (new_AudioContext host) as [[]|e1] eqn:H1.
  2:{ cbv beta iota. left. exists 1%nat, e1.
      cbn [progress console uncaught take extraction_messages]. rewrite app_nil_r.
      split; [left; split; reflexivity|]. split; [reflexivity|].
      split; [reflexivity|]. split; reflexivity. }
  cbv beta iota.
  destruct (arrayBuffer host videoFile) as [bytes|e2] eqn:H2.
  2:{ cbv beta iota. left. exists 1%nat, e2.
      cbn [progress console uncaught take extraction_messages]. rewrite app_nil_r.
      split; [right; split; [reflexivity|]; left; split; reflexivity|].
      split; [reflexivity|]. split; [reflexivity|]. split; reflexivity. }
  cbv beta iota.
  destruct (decodeAudioData host bytes) as [audioBuffer|e3] eqn:H3.
  2:{ cbv beta iota. left. exists 2%nat, e3.
      cbn [progress console uncaught take extraction_messages].
      rewrite <- !app_assoc, app_nil_r.
      split.
      { right. split; [reflexivity|]. right. exists bytes. split; [reflexivity|].
        left. split; [reflexivity|exact H3]. }
      split; [reflexivity|]. split; [reflexivity|]. split; reflexivity. }
  cbv beta iota.
  destruct (encodeWAV audioBuffer) as [wavBlob|e4] eqn:H4.
  2:{ cbv beta iota. left. exists 3%nat, e4.
      cbn [progress console uncaught take extraction_messages].
      rewrite <- !app_assoc, app_nil_r.
      split.
      { right. split; [reflexivity|]. right. exists bytes. split; [reflexivity|].
        right. exists audioBuffer. split; [exact H3|]. split; [reflexivity|exact H4]. }
      split; [reflexivity|]. split; [reflexivity|]. split; reflexivity. }
  cbv beta iota. rewrite reader_promise_spec.
  destruct (readAsDataURL host wavBlob) as [url|e5] eqn:H5;
    right; exists wavBlob; rewrite H5;
    cbn [progress console uncaught take extraction_messages];
    rewrite <- !app_assoc, ?app_nil_r.
  - split; [split; [reflexivity|]; exists bytes, audioBuffer; repeat split; assumption|].
    split; [reflexivity|]. split; [reflexivity|]. split; reflexivity.
  - split; [split; [reflexivity|]; exists bytes, audioBuffer; repeat split; assumption|].
    split; [reflexivity|]. split; [reflexivity|]. split; reflexivity.
Qed.

(** Property X12.  [split(',')[1]] extracts the payload of a data URL:
    for a header and a payload without commas, the text [header,payload]
    yields the payload, and a text without any comma yields
    [undefined]. *)
Theorem data_url_payload (header payload : string) :
  comma_free header = true ->
  comma_free payload = true ->
  split_comma_1 (header ++ "," ++ payload) = Some payload /\
  split_comma_1 header = None.
Proof.
  intros Hh Hp. induction header as [|c h IH].
  - rewrite append_nil_l, append_cons, append_nil_l. cbn [split_comma_1].
    change (Ascii.eqb "," ",") with true. cbv iota.
    split; [|reflexivity]. f_equal. apply (until_comma_free payload EmptyString Hp).
  - cbn [comma_free] in Hh. apply andb_true_iff in Hh as [Hc Hh].
    apply negb_true_iff in Hc. rewrite append_cons. cbn [split_comma_1]. rewrite Hc.
    exact (IH Hh).
Qed.

Lemma data_url_payload_witness :
  split_comma_1 "data:audio/wav;base64,UklGRg==" = Some "UklGRg=="%string /\
  split_comma_1 "data:audio/wav;base64" = None.
Proof.
  apply (data_url_payload "data:audio/wav;base64" "UklGRg=="); reflexivity.
Defined.

(** ** Caption generation *)

Section CaptionIds.

Lemma to_uint_nonnil (n : nat) : Nat.to_uint n <> Decimal.Nil.
Proof.
  rewrite <- (Unsigned.of_to n) at 1. rewrite Unsigned.to_of. apply unorm_nonnil.
Qed.

Lemma Number_toString_inj (a b : nat) :
  Number_toString a = Number_toString b -> a = b.
Proof.
  unfold Number_toString. intros H.
  apply (f_equal NilZero.uint_of_string) in H.
  rewrite !NilZero.usu in H by apply to_uint_nonnil.
  injection H as H. apply Unsigned.to_uint_inj. exact H.
Qed.

Lemma string_of_uint_hyphen_free (d : Decimal.uint) :
  hyphen_free (NilEmpty.string_of_uint d) = true.
Proof. induction d; cbn [NilEmpty.string_of_uint hyphen_free]; try rewrite IHd; reflexivity. Qed.

Lemma Number_toString_hyphen_free (n : nat) : hyphen_free (Number_toString n) = true.
Proof.
  unfold Number_toString, NilZero.string_of_uint.
  destruct (Nat.to_uint n); try reflexivity; apply string_of_uint_hyphen_free.
Qed.

(** Two texts without hyphen that are followed by a hyphen in the same
    string are the same text. *)
Lemma hyphen_delimits (a b x y : string) :
  hyphen_free a = true -> hyphen_free b = true ->
  (a ++ String "-" x = b ++ String "-" y)%string -> a = b.
Proof.
  revert b. induction a as [|c a IH]; intros [|c' b] Ha Hb H.
  - reflexivity.
  - rewrite append_nil_l, append_cons in H. injection H as Hc _.
    cbn [hyphen_free] in Hb. rewrite <- Hc in Hb. discriminate.
  - rewrite append_nil_l, append_cons in H. injection H as Hc _.
    cbn [hyphen_free] in Ha. rewrite Hc in Ha. discriminate.
  - rewrite !append_cons in H. injection H as Hc H.
    cbn [hyphen_free] in Ha, Hb.
    apply andb_true_iff in Ha as [_ Ha]. apply andb_true_iff in Hb as [_ Hb].
    rewrite Hc, (IH b Ha Hb H). reflexivity.
Qed.

Lemma caption_id_index (i j : nat) (a b : N) :
  caption_id i a = caption_id j b -> i = j.
Proof.
  unfold caption_id. intros H.
  rewrite !append_cons, !append_nil_l in H. injection H as H.
  apply Number_toString_inj.
  apply (hyphen_delimits _ _ (time_toString a) (time_toString b));
    [apply Number_toString_hyphen_free..|].
  exact H.
Qed.

Lemma map_from_ids (now : nat -> N) (rawCaptions : list RawCaption) (index : nat)
    (c : Caption) :
  c ∈ map_from now rawCaptions index ->
  exists j, (index <= j)%nat /\ id c = caption_id j (now j).
Proof.
  revert index. induction rawCaptions as [|r rest IH]; intros index H.
  - cbn in H. apply elem_of_nil in H. contradiction.
  - cbn [map_from] in H. apply elem_of_cons in H as [->|H].
    + exists index. split; [lia|reflexivity].
    + destruct (IH _ H) as (j & Hj & Hid). exists j. split; [lia|exact Hid].
Qed.

Lemma map_from_NoDup (now : nat -> N) (rawCaptions : list RawCaption) (index : nat) :
  NoDup (id <$> map_from now rawCaptions index).
Proof.
  revert index. induction rawCaptions as [|r rest IH]; intros index.
  - apply NoDup_nil_2.
  - cbn [map_from fmap list_fmap]. apply NoDup_cons_2; [|apply IH].
    intros Hin. apply list_elem_of_fmap in Hin as (c & Hid & Hc).
    apply map_from_ids in Hc as (j & Hj & Hid').
    cbn [id] in Hid. rewrite Hid' in Hid. apply caption_id_index in Hid. lia.
Qed.

Lemma map_from_fields (now : nat -> N) (rawCaptions : list RawCaption) (index : nat) :
  startTime <$> map_from now rawCaptions index = raw_startTime <$> rawCaptions /\
  endTime <$> map_from now rawCaptions index = raw_endTime <$> rawCaptions /\
  text <$> map_from now rawCaptions index = raw_text <$> rawCaptions.
Proof.
  revert index. induction rawCaptions as [|r rest IH]; intros index.
  - repeat split.
  - cbn [map_from fmap list_fmap]. destruct (IH (S index)) as (H1 & H2 & H3).
    cbn [fmap] in H1, H2, H3. rewrite H1, H2, H3. repeat split.
Qed.

End CaptionIds.

Ltac run_generate :=
  unfold generateCaptions, transcribe, try_catch, and_then, lift, onProgress,
    console_error, throw, ret.

(** Property X13.  Whenever [generateCaptions] resolves, the captions it
    returns have pairwise distinct ids, whatever the clock shows while
    they are built.  They carry, in the same order, the start times, end
    times and texts of the segments parsed from the text of the response
    that the model gave for the extracted audio and the prompt of the
    chosen output format and language.  The five progress messages were
    reported in order, nothing was written to the console and no
    exception was left uncaught. *)
Theorem generated_captions_have_unique_ids
    {File : Type} (service : Service File) (videoFile : File)
    (language : SpokenLanguage.t) (format : CaptionOutputFormat.t)
    (t t' : trace) (generated : list Caption) :
  generateCaptions service videoFile language format t = (Ok generated, t') ->
  NoDup (id <$> generated) /\
  (exists audioPartData t1 response responseText rawCaptions,
     extractAudioFromVideo (browser service) videoFile t = (Ok audioPartData, t1) /\
     generateContent service
       {| data := data audioPartData; mimeType := mimeType audioPartData |}
       (prompt (taskInstruction format language)) = Ok response /\
     response_text response = Some responseText /\
     JSON_parse service responseText = Ok rawCaptions /\
     startTime <$> generated = raw_startTime <$> rawCaptions /\
     endTime <$> generated = raw_endTime <$> rawCaptions /\
     text <$> generated = raw_text <$> rawCaptions) /\
  progress t' = progress t ++ extraction_messages ++ transcription_messages /\
  console t' = console t /\
  uncaught t' = uncaught t.
Proof.
  run_generate.
  destruct (defined_and_truthy (API_KEY service)); cbn [negb]; [|discriminate].
  destruct (new_GoogleGenAI service) as [[]|e]; [|discriminate].
  destruct (extractAudioFromVideo (browser service) videoFile t) as [[audioPart|e0] t1] eqn:Hx;
    [|discriminate].
  pose proof Hx as Hx'.
  apply extraction_ok_inv in Hx' as (Hp & Hc & Hu). cbv beta iota zeta.
  destruct (generateContent service
              {| data := data audioPart; mimeType := mimeType audioPart |}
              (prompt (taskInstruction format language))) as [response|e1] eqn:Hg;
    [|discriminate].
  cbv beta iota.
  destruct (response_text response) as [responseText|] eqn:Hr; [|discriminate].
  destruct (truthy responseText); [|discriminate].
  destruct (JSON_parse service responseText) as [rawCaptions|e2] eqn:Hj; [|discriminate].
  cbv beta iota. intros H. injection H as <- <-. cbn [progress console uncaught].
  split; [apply map_from_NoDup|]. split.
  - exists audioPart, t1, response, responseText, rawCaptions.
    split; [reflexivity|]. split; [exact Hg|]. split; [exact Hr|]. split; [exact Hj|].
    apply map_from_fields.
  - rewrite Hp, Hc, Hu. unfold transcription_messages. rewrite <- !app_assoc.
    split; [reflexivity|]. split; reflexivity.
Qed.

Lemma generated_captions_have_unique_ids_witness :
  NoDup ["cap-0-1700000000000"; "cap-1-1700000000000"]%string.
Proof.
  refine (proj1 (generated_captions_have_unique_ids working_service tt
                   SpokenLanguage.GUJARATI CaptionOutputFormat.GUJLISH empty_trace
                   {| progress := extraction_messages ++ transcription_messages;
                      console := []; uncaught := [] |}
                   [ {| id := "cap-0-1700000000000"; startTime := of_Z 0;
                        endTime := of_Z 1; text := "kem" |};
                     {| id := "cap-1-1700000000000"; startTime := of_Z 1;
                        endTime := of_Z 2; text := "cho" |} ] _)).
  vm_compute. reflexivity.
Defined.



(** ** The page while captions are generated *)

Lemma error_text_shown (host_message : exception -> option string) (err : exception) :
  match error_text host_message err with
  | Ok message => shown_for err (Some message) []
  | Throw thrown => err = NullOrUndefined /\ thrown = TypeError
  end.
Proof.
  assert (Hhost : forall o : option string,
            exists message,
              Some match o with
                   | Some m => if truthy m then m else generate_failed
                   | None => generate_failed
                   end = Some message /\ truthy message = true).
  { intros [m|]; [|eexists; split; reflexivity].
    destruct (truthy m) eqn:Hm; eexists; split; try reflexivity. exact Hm. }
  unfold error_text, message_of, shown_for.
  destruct err; cbn [mbind result_bind bind];
    try (split; [apply Hhost|reflexivity]);
    split; reflexivity.
Qed.

(** Property X15.  Once [handleGenerate] has settled for a loaded file,
    the page is never left processing and the progress text is empty,
    whatever happened, also when the [catch] block itself throws; the
    file and its URL are kept.  On success the captions are the generated
    ones and no error is shown.  On failure the previous captions are
    kept, and what is shown depends on the value [generateCaptions]
    rejected with: the message of an [Error], or the fixed text when that
    message is empty or the value is an event without message (as for a
    failed [FileReader]), or some non-empty text for an error of the
    host; but for [null] or [undefined] reading [err.message] throws, so
    no error is shown at all and a [TypeError] is left unhandled. *)
Theorem handleGenerate_settles
    (service : Service File) (host_message : exception -> option string)
    (state : GenerateState) (file : File) (t : trace) :
  videoFile (page state) = Some file ->
  let '(state', t') := handleGenerate service host_message state t in
  let '(outcome, t1) :=
    generateCaptions service file (spokenLanguage state) (outputFormat state) t in
  settled state state' file outcome t1 t'.
Proof.
  intros Hf. unfold handleGenerate, settled. rewrite Hf.
  destruct (generateCaptions service file (spokenLanguage state) (outputFormat state) t)
    as [[generatedCaptions|err] t1].
  - cbn [finally page isProcessing progressStatus videoFile videoUrl captions error].
    repeat split.
  - pose proof (error_text_shown host_message err) as Hs.
    destruct (error_text host_message err) as [message|thrown];
      cbn [finally page isProcessing progressStatus videoFile videoUrl captions error
             progress console uncaught].
    + repeat (split; [reflexivity|]). exists []. rewrite app_nil_r.
      split; [exact Hs|reflexivity].
    + destruct Hs as [-> ->]. repeat (split; [reflexivity|]). exists [TypeError].
      split; [split; reflexivity|reflexivity].
Qed.

Lemma handleGenerate_settles_witness :
  error (page (fst (handleGenerate (for_files reader_fails_service) no_message
                      ready_state empty_trace)))
  = Some "Failed to generate captions. Please try again."%string /\
  isProcessing (fst (handleGenerate (for_files reader_fails_service) no_message
                       ready_state empty_trace)) = false.
Proof.
  pose proof (handleGenerate_settles (for_files reader_fails_service) no_message
                ready_state small_file empty_trace eq_refl) as H.
  destruct (handleGenerate (for_files reader_fails_service) no_message ready_state
              empty_trace) as [state' t'] eqn:Hh.
  assert (Hg : generateCaptions (for_files reader_fails_service) small_file
                 (spokenLanguage ready_state) (outputFormat ready_state) empty_trace
               = (Throw (ProgressEvent "error"),
                  {| progress := extraction_messages; console := [];
                     uncaught := [TypeError] |})) by (vm_compute; reflexivity).
  rewrite Hg in H. destruct H as (Hp & _ & _ & _ & _ & _ & _ & unhandled & [Hs _] & _).
  cbn [fst]. split; [exact Hs|exact Hp].
Defined.

(** Property X16.  End to end: with an API key and a client, when the
    browser cannot read the selected file, the page shows the generic
    extraction message (never the browser's own error), keeps its
    captions and is no longer processing. *)
Theorem unreadable_file_is_reported
    (service : Service File) (host_message : exception -> option string)
    (state : GenerateState) (file : File) (t : trace) (e : exception) :
  videoFile (page state) = Some file ->
  defined_and_truthy (API_KEY service) = true ->
  new_GoogleGenAI service = Ok tt ->
  new_AudioContext (browser service) = Ok tt ->
  arrayBuffer (browser service) file = Throw e ->
  let state' := fst (handleGenerate service host_message state t) in
  error (page state')
  = Some "Failed to extract audio. The file might be corrupt or the format is unsupported."%string /\
  captions (page state') = captions (page state) /\
  isProcessing state' = false.
Proof.
  intros Hf Hk Hg H1 H2. unfold handleGenerate. rewrite Hf.
  run_generate. rewrite Hk, Hg. cbn [negb].
  run_pipeline.
  rewrite H1, H2.
  cbv beta iota zeta. cbn [fst finally page error captions isProcessing].
  repeat split.
Qed.

Lemma unreadable_file_is_reported_witness :
  error (page (fst (handleGenerate (for_files unreadable_service) no_message
                      ready_state empty_trace)))
  = Some "Failed to extract audio. The file might be corrupt or the format is unsupported."%string.
Proof.
  refine (proj1 (unreadable_file_is_reported (for_files unreadable_service) no_message
                   ready_state small_file empty_trace (DOMException "NotReadableError")
                   _ _ _ _ _)); reflexivity.
Defined.

(** Property X26.  End to end: with an API key and a client, when the
    file is read, decoded and encoded but the [FileReader] fails on the
    blob, the page shows the fixed text "Failed to generate captions.
    Please try again." (the event it is rejected with has no message),
    keeps its captions and is no longer processing; the model was never
    called: only the three extraction messages were reported, nothing
    was logged, and the [TypeError] of the [loadend] handler is left
    uncaught. *)
Theorem reader_failure_shows_the_fixed_text
    (service : Service File) (host_message : exception -> option string)
    (state : GenerateState) (file : File) (t : trace)
    (bytes : list byte) (audioBuffer : AudioBuffer) (wavBlob : Blob) (e : exception) :
  videoFile (page state) = Some file ->
  defined_and_truthy (API_KEY service) = true ->
  new_GoogleGenAI service = Ok tt ->
  new_AudioContext (browser service) = Ok tt ->
  arrayBuffer (browser service) file = Ok bytes ->
  decodeAudioData (browser service) bytes = Ok audioBuffer ->
  encodeWAV audioBuffer = Ok wavBlob ->
  readAsDataURL (browser service) wavBlob = Throw e ->
  let '(state', t') := handleGenerate service host_message state t in
  error (page state') = Some "Failed to generate captions. Please try again."%string /\
  captions (page state') = captions (page state) /\
  isProcessing state' = false /\
  t' = {| progress := progress t ++ extraction_messages; console := console t;
          uncaught := uncaught t ++ [TypeError] |}.
Proof.
  intros Hf Hk Hg H1 H2 H3 H4 H5. unfold handleGenerate. rewrite Hf.
  run_generate. rewrite Hk, Hg. cbn [negb]. run_pipeline.
  rewrite H1, H2, H3, H4, reader_promise_spec, H5.
  cbv beta iota zeta. cbn [finally page error captions isProcessing progress console uncaught].
  rewrite <- !app_assoc. repeat split.
Qed.

Lemma reader_failure_shows_the_fixed_text_witness :
  let '(state', t') :=
    handleGenerate (for_files reader_fails_service) no_message ready_state empty_trace in
  error (page state') = Some "Failed to generate captions. Please try again."%string /\
  captions (page state') = [] /\
  isProcessing state' = false /\
  t' = {| progress := extraction_messages; console := []; uncaught := [TypeError] |}.
Proof.
  apply (reader_failure_shows_the_fixed_text (for_files reader_fails_service) no_message
           ready_state small_file empty_trace [0; 1; 2] half_rate_clip half_rate_blob
           (DOMException "NotReadableError"));
    vm_compute; reflexivity.
Defined.

(** ** Export at any time of the calendar *)

Section Calendar.

(** The year of every day from 0000-01-01 to 9999-12-31 has four digits. *)
Lemma civil_year_range (days : Z) :
  -719528 <= days < 2932897 ->
  0 <= fst (fst (civil_from_days days)) <= 9999.
Proof.
  intros H. unfold civil_from_days. cbv zeta. cbn [fst].
  set (z := days + 719468).
  assert (Hz : -60 <= z < 3652365) by (unfold z; lia).
  clearbody z. clear H days.
  set (era := z / 146097).
  set (doe := z - era * 146097).
  assert (Hera : -1 <= era <= 24 /\ 0 <= doe < 146097).
  { unfold doe, era. pose proof (Z.div_mod z 146097 ltac:(lia)).
    pose proof (Z.mod_pos_bound z 146097 ltac:(lia)). lia. }
  assert (Hend : era = 24 -> doe < 146037) by (unfold doe; lia).
  assert (Hbeg : era = -1 -> 146037 <= doe) by (unfold doe; lia).
  clearbody doe. clearbody era. clear Hz z.
  set (yoe := (doe - doe / 1460 + doe / 36524 - doe / 146096) / 365).
  assert (Hyoe : 0 <= yoe <= 399 /\
                 (doe < 146037 -> yoe = 399 -> 145731 <= doe) /\
                 (146037 <= doe -> yoe = 399)).
  { unfold yoe. pose proof (Z.div_mod doe 1460 ltac:(lia)).
    pose proof (Z.mod_pos_bound doe 1460 ltac:(lia)).
    pose proof (Z.div_mod doe 36524 ltac:(lia)).
    pose proof (Z.mod_pos_bound doe 36524 ltac:(lia)).
    pose proof (Z.div_mod doe 146096 ltac:(lia)).
    pose proof (Z.mod_pos_bound doe 146096 ltac:(lia)).
    set (a := doe / 1460) in *. set (b := doe / 36524) in *. set (c := doe / 146096) in *.
    pose proof (Z.div_mod (doe - a + b - c) 365 ltac:(lia)).
    pose proof (Z.mod_pos_bound (doe - a + b - c) 365 ltac:(lia)).
    lia. }
  destruct Hyoe as (Hy & Hy1 & Hy2). clearbody yoe.
  set (doy := doe - (365 * yoe + yoe / 4 - yoe / 100)).
  set (mp := (5 * doy + 2) / 153).
  destruct (Z.eq_dec yoe 399) as [E|E].
  - subst yoe. change (399 / 4) with 99 in doy. change (399 / 100) with 3 in doy.
    destruct (Z_lt_le_dec doe 146037) as [Hlt|Hge].
    + specialize (Hy1 Hlt eq_refl).
      assert (Hmp : 0 <= mp < 10).
      { unfold mp, doy.
        pose proof (Z.div_mod (5 * (doe - (365 * 399 + 99 - 3)) + 2) 153 ltac:(lia)).
        pose proof (Z.mod_pos_bound (5 * (doe - (365 * 399 + 99 - 3)) + 2) 153 ltac:(lia)).
        lia. }
      clearbody mp. destruct (Z.ltb_spec mp 10); [|lia].
      destruct (Z.leb_spec (mp + 3) 2); lia.
    + assert (Hmp : 10 <= mp <= 11).
      { unfold mp, doy.
        pose proof (Z.div_mod (5 * (doe - (365 * 399 + 99 - 3)) + 2) 153 ltac:(lia)).
        pose proof (Z.mod_pos_bound (5 * (doe - (365 * 399 + 99 - 3)) + 2) 153 ltac:(lia)).
        lia. }
      clearbody mp. destruct (Z.ltb_spec mp 10); [lia|].
      destruct (Z.leb_spec (mp - 9) 2); lia.
  - assert (Hd : doe < 146037) by (destruct (Z_lt_le_dec doe 146037); [assumption|]; lia).
    assert (era <> -1) by lia.
    clearbody mp.
    destruct (mp <? 10); [destruct (mp + 3 <=? 2)|destruct (mp - 9 <=? 2)]; lia.
Qed.

Lemma toISOString_four_digit_year (t : Z) :
  -62167219200000 <= t < 253402300800000 ->
  exists y mo d,
    toISOString (Some t)
    = Ok (pad4 y ++ "-" ++ pad2 mo ++ "-" ++ pad2 d ++ "T"
          ++ pad2 (t mod msPerDay / 3600000) ++ ":"
          ++ pad2 (t mod msPerDay / 60000 mod 60) ++ ":"
          ++ pad2 (t mod msPerDay / 1000 mod 60) ++ "."
          ++ pad3 (t mod msPerDay mod 1000) ++ "Z")%string.
Proof.
  intros Ht. unfold toISOString.
  assert (Hd : -719528 <= t / msPerDay < 2932897).
  { unfold msPerDay. pose proof (Z.div_mod t 86400000 ltac:(lia)).
    pose proof (Z.mod_pos_bound t 86400000 ltac:(lia)). lia. }
  pose proof (civil_year_range _ Hd) as Hy.
  destruct (civil_from_days (t / msPerDay)) as [[y mo] d]. cbn [fst] in Hy.
  exists y, mo, d. unfold iso_year.
  destruct (Z.leb_spec 0 y); [|lia]. destruct (Z.leb_spec y 9999); [|lia].
  reflexivity.
Qed.

Lemma timestamp_time_of_day (seconds : number) :
  four_digit_year seconds = true ->
  timestamp seconds = Ok (time_of_day seconds).
Proof.
  unfold four_digit_year, time_of_day, milliseconds, timestamp.
  destruct (Date_new (mul seconds (of_Z 1000))) as [t|]; [|discriminate].
  intros Ht. apply andb_true_iff in Ht as [H0 H1].
  apply Z.leb_le in H0. apply Z.ltb_lt in H1.
  destruct (toISOString_four_digit_year t ltac:(lia)) as (y & mo & d & ->).
  cbn [mbind result_bind bind]. f_equal.
  change (slice_11_23 _) with
    (pad2 (t mod msPerDay / 3600000) ++ ":" ++ pad2 (t mod msPerDay / 60000 mod 60) ++ ":"
     ++ pad2 (t mod msPerDay / 1000 mod 60) ++ "." ++ pad3 (t mod msPerDay mod 1000))%string.
  apply replace_dot.
Qed.

Lemma export_step_time_of_day (srtContent : string) (cap : Caption) (index : nat) :
  caption_four_digit_year cap ->
  export_step srtContent cap index = Ok (srtContent ++ time_of_day_block index cap)%string.
Proof.
  intros [Hs He]. unfold export_step.
  rewrite (timestamp_time_of_day _ Hs), (timestamp_time_of_day _ He).
  reflexivity.
Qed.

Lemma forEach_time_of_day (captions : list Caption) (index : nat) (srtContent : string) :
  Forall caption_four_digit_year captions ->
  forEach_from captions index srtContent
  = Ok (srtContent ++ time_of_day_file_from captions index)%string.
Proof.
  intros Hall. revert index srtContent.
  induction Hall as [| cap rest Hcap _ IH]; intros index srtContent.
  - simpl. rewrite append_empty_r. reflexivity.
  - cbn [forEach_from]. rewrite (export_step_time_of_day _ _ _ Hcap).
    cbn [mbind result_bind bind]. rewrite IH.
    cbn [time_of_day_file_from]. rewrite append_assoc. reflexivity.
Qed.

Lemma timestamp_outcome (seconds : number) :
  if valid_time seconds then exists s, timestamp seconds = Ok s
  else timestamp seconds = Throw RangeError.
Proof.
  unfold valid_time, timestamp.
  destruct (Date_new (mul seconds (of_Z 1000))) as [t|]; [|reflexivity].
  unfold toISOString. destruct (civil_from_days (t / msPerDay)) as [[y mo] d].
  cbn [mbind result_bind bind]. eexists. reflexivity.
Qed.

Lemma export_step_outcome (srtContent : string) (cap : Caption) (index : nat) :
  if caption_valid cap then exists s, export_step srtContent cap index = Ok s
  else export_step srtContent cap index = Throw RangeError.
Proof.
  unfold caption_valid, export_step.
  pose proof (timestamp_outcome (startTime cap)) as Hs.
  pose proof (timestamp_outcome (endTime cap)) as He.
  destruct (valid_time (startTime cap)); cbn [andb].
  - destruct Hs as [s ->]. cbn [mbind result_bind bind].
    destruct (valid_time (endTime cap)).
    + destruct He as [s' ->]. cbn [mbind result_bind bind]. eexists. reflexivity.
    + rewrite He. reflexivity.
  - rewrite Hs. reflexivity.
Qed.

Lemma forEach_outcome (captions : list Caption) (index : nat) (srtContent : string) :
  if forallb caption_valid captions
  then exists s, forEach_from captions index srtContent = Ok s
  else forEach_from captions index srtContent = Throw RangeError.
Proof.
  revert index srtContent. induction captions as [|cap rest IH]; intros index srtContent.
  - cbn. eexists. reflexivity.
  - cbn [forallb forEach_from].
    pose proof (export_step_outcome srtContent cap index) as Hc.
    destruct (caption_valid cap); cbn [andb].
    + destruct Hc as [s ->]. cbn [mbind result_bind bind]. apply IH.
    + rewrite Hc. reflexivity.
Qed.

End Calendar.

(** Property X17.  For every caption list whose times, in whole
    milliseconds, are dates of the years 0 to 9999 (any time from about
    1970 years before the start of the video to about 8000 years after
    it), the export succeeds and each timestamp is the time of day of the
    caption time: [HH] counts hours modulo 24, so a caption 49 h 30 min
    into a recording is written as [01:30:00,000]. *)
Theorem export_prints_time_of_day (captions : list Caption) :
  Forall caption_four_digit_year captions ->
  handleExport captions
  = Ok {| download_name := "captions.srt";
          download_type := "text/plain";
          download_content := time_of_day_file_from captions 0 |}.
Proof.
  intros H. unfold handleExport. rewrite (forEach_time_of_day _ _ _ H). reflexivity.
Qed.

Lemma export_prints_time_of_day_witness :
  handleExport [third_day_caption]
  = Ok {| download_name := "captions.srt";
          download_type := "text/plain";
          download_content :=
            ("1" ++ newline ++ "01:30:00,000 --> 01:30:01,000" ++ newline
             ++ "late" ++ newline ++ newline)%string |}.
Proof.
  apply (export_prints_time_of_day [third_day_caption]).
  apply List.Forall_cons; [split; reflexivity|apply List.Forall_nil].
Defined.

(** Property X18.  The export is all or nothing.  When every start and
    end time is a valid date value (finite, and at most 8.64e15 ms in
    magnitude once multiplied by 1000) a file is downloaded; as soon as
    one time is not (NaN, an infinity, or out of range) [handleExport]
    throws [RangeError] and nothing is downloaded. *)
Theorem export_needs_valid_times (captions : list Caption) :
  if forallb caption_valid captions
  then exists srtContent,
         handleExport captions
         = Ok {| download_name := "captions.srt"; download_type := "text/plain";
                 download_content := srtContent |}
  else handleExport captions = Throw RangeError.
Proof.
  unfold handleExport. pose proof (forEach_outcome captions 0 EmptyString) as H.
  destruct (forallb caption_valid captions).
  - destruct H as [s ->]. exists s. reflexivity.
  - rewrite H. reflexivity.
Qed.

(** ** Editing the transcript *)

Section Transcript.

Lemma handleTextChange_other (id' newText : string) (l : list Caption) :
  id' ∉ id <$> l -> handleTextChange id' newText l = l.
Proof.
  induction l as [|c l IH]; intros H; [reflexivity|].
  cbn [fmap list_fmap] in H. apply not_elem_of_cons in H as [Hc Hl].
  unfold handleTextChange in *. cbn [map].
  destruct (String.eqb_spec (id c) id') as [E|E]; [congruence|].
  rewrite (IH Hl). reflexivity.
Qed.

Lemma handleDelete_other (id' : string) (l : list Caption) :
  id' ∉ id <$> l -> handleDelete id' l = l.
Proof.
  induction l as [|c l IH]; intros H; [reflexivity|].
  cbn [fmap list_fmap] in H. apply not_elem_of_cons in H as [Hc Hl].
  unfold handleDelete in *. cbn [List.filter].
  destruct (String.eqb_spec (id c) id') as [E|E]; [congruence|].
  cbn [negb]. rewrite (IH Hl). reflexivity.
Qed.

Lemma shown_at_with_text (time : number) (id' newText : string) (c : Caption) :
  shown_at time (if String.eqb (id c) id' then with_text newText c else c)
  = shown_at time c.
Proof. destruct (String.eqb (id c) id'); reflexivity. Qed.

Lemma find_handleTextChange (time : number) (id' newText : string) (l : list Caption) :
  List.find (shown_at time) (handleTextChange id' newText l)
  = (fun c => if String.eqb (id c) id' then with_text newText c else c)
      <$> List.find (shown_at time) l.
Proof.
  unfold handleTextChange. induction l as [|c l IH]; [reflexivity|].
  cbn [map List.find]. rewrite shown_at_with_text.
  destruct (shown_at time c); [reflexivity|exact IH].
Qed.

Lemma find_elem_of {A : Type} (p : A -> bool) (l : list A) (x : A) :
  List.find p l = Some x -> x ∈ l.
Proof.
  induction l as [|y l IH]; [discriminate|]. cbn [List.find].
  destruct (p y).
  - intros H. injection H as <-. left.
  - intros H. right. exact (IH H).
Qed.

End Transcript.

(** Property X19.  When the ids of the captions are pairwise distinct (as
    those of generated captions are), editing the text of a caption
    changes that caption only: every caption before and after it is
    untouched, and the edited one keeps its id and its times. *)
Theorem text_change_edits_one_caption
    (before after : list Caption) (c : Caption) (newText : string) :
  NoDup (id <$> (before ++ c :: after)) ->
  handleTextChange (id c) newText (before ++ c :: after)
  = before ++ with_text newText c :: after.
Proof.
  intros H. rewrite fmap_app in H. cbn [fmap list_fmap] in H.
  apply NoDup_app in H as (_ & Hb & Hc). apply NoDup_cons in Hc as [Ha _].
  unfold handleTextChange. rewrite map_app. cbn [map].
  rewrite String.eqb_refl. f_equal.
  - apply handleTextChange_other. intros Hin. apply (Hb _ Hin). left.
  - f_equal. apply handleTextChange_other. exact Ha.
Qed.

Lemma text_change_edits_one_caption_witness :
  handleTextChange "cap-1" "there" [first_caption; second_caption; third_caption]
  = [first_caption; with_text "there" second_caption; third_caption].
Proof.
  apply (text_change_edits_one_caption [first_caption] [third_caption] second_caption).
  compute_done.
Defined.

(** Property X20.  When the ids of the captions are pairwise distinct,
    deleting a caption removes exactly that caption: the captions before
    and after it remain, unchanged and in order. *)
Theorem delete_removes_one_caption (before after : list Caption) (c : Caption) :
  NoDup (id <$> (before ++ c :: after)) ->
  handleDelete (id c) (before ++ c :: after) = before ++ after.
Proof.
  intros H. rewrite fmap_app in H. cbn [fmap list_fmap] in H.
  apply NoDup_app in H as (_ & Hb & Hc). apply NoDup_cons in Hc as [Ha _].
  unfold handleDelete. rewrite List.filter_app. cbn [List.filter].
  rewrite String.eqb_refl. cbn [negb]. f_equal.
  - apply handleDelete_other. intros Hin. apply (Hb _ Hin). left.
  - apply handleDelete_other. exact Ha.
Qed.

Lemma delete_removes_one_caption_witness :
  handleDelete "cap-1" [first_caption; second_caption; third_caption]
  = [first_caption; third_caption].
Proof.
  apply (delete_removes_one_caption [first_caption] [third_caption] second_caption).
  compute_done.
Defined.

(** Property X21.  Editing a text never changes the number of captions,
    their order, their ids or their start and end times, whether or not
    ids repeat and whether or not the id occurs at all. *)
Theorem text_change_keeps_ids_and_times (id' newText : string) (prev : list Caption) :
  id <$> handleTextChange id' newText prev = id <$> prev /\
  startTime <$> handleTextChange id' newText prev = startTime <$> prev /\
  endTime <$> handleTextChange id' newText prev = endTime <$> prev.
Proof.
  unfold handleTextChange. induction prev as [|c l (H1 & H2 & H3)]; [repeat split|].
  cbn [map fmap list_fmap] in *. rewrite H1, H2, H3.
  destruct (String.eqb (id c) id'); repeat split.
Qed.

(** ** The player *)

(** Property X22.  The overlay does not follow an edit of the caption it
    shows.  When the player shows caption [c] and the text of [c] is
    edited, the next time update (at a time where [c] was the active
    caption) finds the edited caption, which the editor highlights, but
    since its id equals that of the caption on screen the player keeps the
    old object: the overlay goes on showing the old text. *)
Theorem edited_text_is_not_shown
    (video : Video) (captions : list Caption) (state : PlayerState)
    (c : Caption) (newText : string) :
  currentCaption state = Some c ->
  List.find (shown_at (video_currentTime video)) captions = Some c ->
  let edited := handleTextChange (id c) newText captions in
  List.find (shown_at (video_currentTime video)) edited = Some (with_text newText c) /\
  activeCaptionId edited (video_currentTime video) = Some (id c) /\
  currentCaption (fst (handleTimeUpdate (Some video) edited state)) = Some c.
Proof.
  intros Hc Hf edited.
  assert (He : List.find (shown_at (video_currentTime video)) edited
               = Some (with_text newText c)).
  { unfold edited. rewrite find_handleTextChange, Hf. cbn [fmap option_fmap option_map].
    rewrite String.eqb_refl. reflexivity. }
  split; [exact He|]. split; [unfold activeCaptionId; rewrite He; reflexivity|].
  unfold handleTimeUpdate. cbv zeta. cbn [fst currentCaption]. rewrite He, Hc.
  cbn [fmap option_fmap option_map with_text id].
  destruct (decide (Some (id c) = Some (id c))) as [_|Hn]; [reflexivity|congruence].
Qed.

Lemma edited_text_is_not_shown_witness :
  let edited := handleTextChange "cap-0" "hello" [first_caption] in
  List.find (shown_at (of_Z 1)) edited = Some (with_text "hello" first_caption) /\
  activeCaptionId edited (of_Z 1) = Some "cap-0"%string /\
  currentCaption (fst (handleTimeUpdate (Some first_video) edited showing_first))
  = Some first_caption.
Proof.
  apply (edited_text_is_not_shown first_video [first_caption] showing_first first_caption
           "hello"); reflexivity.
Defined.

(** Property X23.  A deleted caption leaves the screen.  When the ids
    are pairwise distinct and the player shows caption [c], then after
    [c] is deleted the next time update replaces the caption on screen by
    the first remaining caption that contains the current time, or by
    none: the overlay no longer shows [c]. *)
Theorem deleted_caption_leaves_the_screen
    (video : Video) (before after : list Caption) (c : Caption) (state : PlayerState) :
  NoDup (id <$> (before ++ c :: after)) ->
  currentCaption state = Some c ->
  let remaining := handleDelete (id c) (before ++ c :: after) in
  remaining = before ++ after /\
  currentCaption (fst (handleTimeUpdate (Some video) remaining state))
  = List.find (shown_at (video_currentTime video)) (before ++ after) /\
  currentCaption (fst (handleTimeUpdate (Some video) remaining state)) <> Some c.
Proof.
  intros Hnd Hc remaining.
  assert (Hr : remaining = before ++ after).
  { unfold remaining, handleDelete. rewrite List.filter_app. cbn [List.filter].
    rewrite String.eqb_refl. cbn [negb].
    rewrite fmap_app in Hnd. cbn [fmap list_fmap] in Hnd.
    apply NoDup_app in Hnd as (_ & Hb & Hn). apply NoDup_cons in Hn as [Ha _].
    f_equal.
    - apply handleDelete_other. intros Hin. apply (Hb _ Hin). left.
    - apply handleDelete_other. exact Ha. }
  assert (Hid : forall x, x ∈ before ++ after -> id x <> id c).
  { intros x Hx E. rewrite fmap_app in Hnd. cbn [fmap list_fmap] in Hnd.
    apply NoDup_app in Hnd as (_ & Hb & Hn). apply NoDup_cons in Hn as [Ha _].
    apply elem_of_app in Hx as [Hx|Hx].
    - apply (Hb (id x)); [apply list_elem_of_fmap_2; exact Hx|]. rewrite E. left.
    - apply Ha. rewrite <- E. apply list_elem_of_fmap_2. exact Hx. }
  split; [exact Hr|]. rewrite Hr.
  unfold handleTimeUpdate. cbv zeta. cbn [fst currentCaption]. rewrite Hc.
  destruct (List.find (shown_at (video_currentTime video)) (before ++ after))
    as [x|] eqn:Hf; cbn [fmap option_fmap option_map].
  - pose proof (Hid x (find_elem_of _ _ _ Hf)) as Hne.
    destruct (decide (Some (id x) = Some (id c))) as [E|_]; [congruence|].
    split; [reflexivity|]. intros E. injection E as ->. congruence.
  - destruct (decide (None = Some (id c))) as [E|_]; [discriminate|].
    split; [reflexivity|discriminate].
Qed.

Lemma deleted_caption_leaves_the_screen_witness :
  let remaining := handleDelete "cap-0" [first_caption; second_caption] in
  remaining = [second_caption] /\
  currentCaption (fst (handleTimeUpdate (Some first_video) remaining showing_first))
  = None /\
  currentCaption (fst (handleTimeUpdate (Some first_video) remaining showing_first))
  <> Some first_caption.
Proof.
  apply (deleted_caption_leaves_the_screen first_video [] [second_caption] first_caption
           showing_first).
  - compute_done.
  - reflexivity.
Defined.

Section Clamp.

Lemma compare_cont_Eq (p q : positive) : Pos.compare_cont Eq p q = Pos.compare p q.
Proof. reflexivity. Qed.

Lemma Math_min_100 (m : positive) (e : Z) :
  let hundred := S754_finite false 7036874417766400 (-46) in
  let x := S754_finite false m e in
  Math_min hundred x = hundred \/ (Math_min hundred x = x /\ SFleb x hundred = true).
Proof.
  cbv zeta. unfold Math_min, SFleb, SFcompare.
  rewrite !compare_cont_Eq.
  destruct (Z.compare_spec (-46) e) as [<-|Hlt|Hgt].
  - rewrite Z.compare_refl.
    destruct (Pos.compare_spec 7036874417766400 m) as [<-|Hlt|Hgt]; cbn [is_neg_zero].
    + right. rewrite ?compare_cont_Eq, Pos.compare_refl. split; reflexivity.
    + left. reflexivity.
    + right. rewrite compare_cont_Eq, (proj2 (Pos.compare_lt_iff m 7036874417766400) Hgt).
      split; reflexivity.
  - left. reflexivity.
  - right. rewrite (proj2 (Z.compare_lt_iff e (-46))) by lia. split; reflexivity.
Qed.

Lemma clamp_percent_range (x : number) :
  x <> NaN -> is_percentage (clamp_percent x) = true.
Proof.
  intros Hx. unfold clamp_percent, is_percentage.
  change (of_Z 100) with (S754_finite false 7036874417766400 (-46)).
  change (of_Z 0) with (S754_zero false).
  destruct x as [s|s| |s m e]; [| |exfalso; apply Hx; reflexivity|].
  - destruct s; reflexivity.
  - destruct s; reflexivity.
  - destruct s; [reflexivity|].
    destruct (Math_min_100 m e) as [->|[-> Hle]]; [reflexivity|].
    change (Math_max (S754_zero false) (S754_finite false m e)) with (S754_finite false m e).
    rewrite Hle. reflexivity.
Qed.

End Clamp.

(** Property X24.  A pointer move changes the caption position only
    during a drag over an existing container, and then each coordinate
    handed to [setCaptionPosition] lies between 0 and 100 inclusive, for
    every pointer position and every container rectangle; the one
    exception is a computed percentage that is NaN (a container of zero
    width or height with the pointer on its edge), which is stored as
    NaN. *)
Theorem dragged_position_stays_in_frame
    (dragging : bool) (container : option DOMRect) (clientX clientY : number) :
  match handleMouseMove dragging container clientX clientY with
  | Some position =>
      dragging = true /\
      exists rect, container = Some rect /\
        within_frame (percent clientX (rect_left rect) (rect_width rect)) (pos_x position) /\
        within_frame (percent clientY (rect_top rect) (rect_height rect)) (pos_y position)
  | None => dragging = false \/ container = None
  end.
Proof.
  unfold handleMouseMove.
  destruct dragging; [|left; reflexivity].
  destruct container as [rect|]; [|right; reflexivity].
  cbv zeta. split; [reflexivity|]. exists rect.
  split; [reflexivity|]. cbn [pos_x pos_y]. unfold within_frame. split.
  - destruct (percent clientX (rect_left rect) (rect_width rect)) eqn:E;
      [| |reflexivity|]; apply clamp_percent_range; discriminate.
  - destruct (percent clientY (rect_top rect) (rect_height rect)) eqn:E;
      [| |reflexivity|]; apply clamp_percent_range; discriminate.
Qed.

(** ** Object URLs *)

(** Property X25.  Changing the video leaks its object URL.  The page
    lets the user select a file only while it holds none, and the only
    way back to that state is the [Change] button, which forgets the URL
    without revoking it.  So when the page shows a video under a live
    URL, [Change] is clicked and an acceptable file is selected (the URL
    the browser hands out next not being in use), the old URL is still
    live afterwards, next to the new one: there is one more live object
    URL than before. *)
Theorem changing_the_video_leaks_its_url
    (file previous : File) (url : string) (state : AppState) (store : UrlStore) :
  file_size file <= size_limit ->
  videoUrl state = Some url ->
  live_urls store !! url = Some previous ->
  live_urls store !! next_object_url store = None ->
  let '(state', store') := handleFileChange (Some file) (change_onClick state) store in
  videoUrl state' = Some (next_object_url store) /\
  live_urls store' !! url = Some previous /\
  live_urls store' !! next_object_url store = Some file /\
  size (live_urls store') = S (size (live_urls store)).
Proof.
  intros Hsize Hurl Hlive Hfresh. unfold handleFileChange, size_limit in *.
  destruct (Z.ltb_spec (MAX_FILE_SIZE_MB * 1024 * 1024) (file_size file)) as [Hgt|_];
    [unfold MAX_FILE_SIZE_MB in Hgt; lia|].
  cbn [change_onClick videoUrl]. unfold createObjectURL.
  cbn [next_url live_urls videoUrl]. fold (next_object_url store).
  assert (Hne : next_object_url store <> url) by (intros E; rewrite E in Hfresh; congruence).
  split; [reflexivity|]. split; [|split].
  - rewrite lookup_insert_ne by exact Hne. exact Hlive.
  - apply lookup_insert_eq.
  - apply map_size_insert_None. exact Hfresh.
Qed.

Lemma changing_the_video_leaks_its_url_witness :
  let '(state', store') :=
    handleFileChange (Some small_file) (change_onClick loaded_state) loaded_store in
  videoUrl state' = Some "blob:1"%string /\
  live_urls store' !! "blob:0"%string = Some small_file /\
  live_urls store' !! "blob:1"%string = Some small_file /\
  size (live_urls store') = S (size (live_urls loaded_store)).
Proof.
  apply (changing_the_video_leaks_its_url small_file small_file "blob:0"
           loaded_state loaded_store); reflexivity.
Defined.
